(** * Entity resolution and normalisation engine of the alcohol catalogue scripts

    A shallow embedding of the duplicate grouper, the record merger, the
    normaliser and the backup reconciler found in

      - [scripts/alcohol_data_processor.py]  (class [AlcoholDataProcessor])
      - [scripts/alcohol_data_integrity.py]  (the older [find_duplicates] / [merge_duplicates])
      - [scripts/alcohol_backup_restorer.py] (class [AlcoholBackupRestorer])
      - [scripts/alcohol_sheets_client.py]   ([GoogleSheetsClient.get_column_mapping])
      - [scripts/alcohol_data_config.py]     ([CONFIG] and the tables)
      - [scripts/alcohol_data_integrity_main.py] (the steps of the orchestrator
        that work on the catalogue in memory)

    Conventions of the embedding.
      - A Python [str] is a [string]; a character is a code point below 256
        and the character classes are Python's on that range, where
        [lower] maps one character to one character.
      - A product ([Dict[str, Any]]) is a [gmap string string]; a missing key
        and the empty string are both falsy, as in the scripts.
      - A [defaultdict(list)] that is iterated is an association list in
        insertion order.
      - A Python [float] is the rational that it denotes ([Q]). One ratio
        compared with a threshold is kept exact. The averages of the
        reconciler, where the last bit can decide, are also given as the
        interpreter computes them ([Binary64], [FloatRestorer]).
      - Logging is dropped. *)

From Stdlib Require Import Ascii String QArith Qround Sorted Lqa.
From stdpp Require Import base list strings gmap.

Local Close Scope Q_scope.
Local Open Scope string_scope.
Local Open Scope nat_scope.
Local Open Scope list_scope.

(** ** Python string operations *)

Module PyStr.

Definition code (c : ascii) : nat := nat_of_ascii c.

Definition between (lo hi n : nat) : bool := (lo <=? n) && (n <=? hi).

(** [str.isspace] on one character. *)
Definition isspace (c : ascii) : bool :=
  let n := code c in
  between 9 13 n || between 28 32 n || (n =? 133) || (n =? 160).

Definition char_isupper (c : ascii) : bool :=
  let n := code c in
  between 65 90 n || (between 192 222 n && negb (n =? 215)).

Definition char_islower (c : ascii) : bool :=
  let n := code c in
  between 97 122 n || (n =? 170) || (n =? 181) || (n =? 186)
  || (between 223 255 n && negb (n =? 247)).

Definition char_lower (c : ascii) : ascii :=
  if char_isupper c then ascii_of_nat (code c + 32) else c.

(** [s.lower()] *)
Fixpoint lower (s : string) : string :=
  match s with
  | EmptyString => EmptyString
  | String c s' => String (char_lower c) (lower s')
  end.

Fixpoint lstrip (s : string) : string :=
  match s with
  | EmptyString => EmptyString
  | String c s' => if isspace c then lstrip s' else s
  end.

Fixpoint rstrip (s : string) : string :=
  match s with
  | EmptyString => EmptyString
  | String c s' =>
      match rstrip s' with
      | EmptyString => if isspace c then EmptyString else String c EmptyString
      | t => String c t
      end
  end.

(** [s.strip()] *)
Definition strip (s : string) : string := rstrip (lstrip s).

(** Truthiness of a string: [bool(s)]. *)
Definition truthy (s : string) : bool :=
  match s with EmptyString => false | _ => true end.

(** [s.isupper()]: no lower-case character and at least one upper-case one. *)
Fixpoint isupper_from (cased : bool) (s : string) : bool :=
  match s with
  | EmptyString => cased
  | String c s' =>
      if char_islower c then false
      else isupper_from (cased || char_isupper c) s'
  end.

Definition isupper (s : string) : bool := isupper_from false s.

(** [len(s.split())]: the number of maximal runs of non-space characters. *)
Fixpoint words_from (inword : bool) (s : string) : nat :=
  match s with
  | EmptyString => 0
  | String c s' =>
      if isspace c then words_from false s'
      else (if inword then 0 else 1) + words_from true s'
  end.

Definition split_len (s : string) : nat := words_from false s.

(** [s.count('  ')]: non-overlapping occurrences of two blanks. *)
Definition is_blank (c : ascii) : bool := Ascii.eqb c " "%char.

Fixpoint count_double_space (s : string) : nat :=
  match s with
  | EmptyString => 0
  | String c s' =>
      match s' with
      | String d s'' =>
          if is_blank c && is_blank d then S (count_double_space s'')
          else count_double_space s'
      | EmptyString => 0
      end
  end.

(** [c in s] for a one-character [c]. *)
Fixpoint has_char (c : ascii) (s : string) : bool :=
  match s with
  | EmptyString => false
  | String d s' => Ascii.eqb c d || has_char c s'
  end.

(** [s.replace(old, new)] for a one-character [old]. *)
Fixpoint replace_char (old : ascii) (new : string) (s : string) : string :=
  match s with
  | EmptyString => EmptyString
  | String c s' =>
      if Ascii.eqb c old then String.append new (replace_char old new s')
      else String c (replace_char old new s')
  end.

(** The double quote character. *)
Definition dquote : ascii := ascii_of_nat 34.

(** [needle in s] *)
Fixpoint contains (needle s : string) : bool :=
  String.prefix needle s ||
  match s with
  | EmptyString => false
  | String _ s' => contains needle s'
  end.

End PyStr.

(** ** Python's [difflib.SequenceMatcher(None, a, b).ratio()]

    The matcher of the standard library, with [isjunk = None] and
    [autojunk = True] as the scripts call it: [find_longest_match] is the
    dynamic programme over [b2j] followed by the extension loops,
    [get_matching_blocks] splits around the longest match, and [ratio] is
    [2.0 * matches / (len(a) + len(b))]. *)

Module Difflib.

Definition block : Type := nat * nat * nat.

Definition eq_at (a b : list ascii) (i j : nat) : bool :=
  match a !! i, b !! j with
  | Some x, Some y => Ascii.eqb x y
  | _, _ => false
  end.

Definition total_size (blocks : list block) : nat :=
  foldr (fun x acc => x.2 + acc) 0 blocks.

Section Matcher.
Variables a b : list ascii.

Definition occurrences (c : ascii) : nat :=
  length (filter (fun d => d = c) b).

(** [__chain_b]: with [len(b) >= 200] an element occurring more than
    [len(b) // 100 + 1] times is popular and leaves [b2j]. *)
Definition popular (c : ascii) : bool :=
  (200 <=? length b) && (length b / 100 + 1 <? occurrences c).

(** One pass of [for j in b2j.get(a[i], nothing)] for the element [x = a[i]]:
    [bs] is [b[j:]], [diag] is [j2len.get(j-1, 0)], [j2len] is the previous
    row from [j] on (an absent entry is 0). Returns [newj2len] from [j] on
    and the best block so far. *)
Fixpoint scan_row (x : ascii) (i blo bhi j : nat) (bs : list ascii)
    (diag : nat) (j2len : list nat) (best : block) : list nat * block :=
  match bs with
  | [] => ([], best)
  | y :: bs' =>
      let here := hd 0 j2len in
      if Ascii.eqb x y && negb (popular y) && (blo <=? j) && (j <? bhi) then
        let k := S diag in
        let best' :=
          if best.2 <? k then (S i - k, S j - k, k) else best in
        let '(row, best'') :=
          scan_row x i blo bhi (S j) bs' here (tl j2len) best' in
        (k :: row, best'')
      else
        let '(row, best'') :=
          scan_row x i blo bhi (S j) bs' here (tl j2len) best in
        (0 :: row, best'')
  end.

(** [for i in range(alo, ahi)], [xs] being [a[i:ahi]]. *)
Fixpoint scan_rows (xs : list ascii) (i blo bhi : nat)
    (j2len : list nat) (best : block) : block :=
  match xs with
  | [] => best
  | x :: xs' =>
      let '(newj2len, best') := scan_row x i blo bhi 0 b 0 j2len best in
      scan_rows xs' (S i) blo bhi newj2len best'
  end.

(** [while besti > alo and bestj > blo and a[besti-1] == b[bestj-1]] *)
Fixpoint extend_left (alo blo besti bestj bestsize : nat) : block :=
  match besti with
  | 0 => (besti, bestj, bestsize)
  | S i' =>
      if (alo <? besti) && (blo <? bestj) && eq_at a b i' (bestj - 1)
      then extend_left alo blo i' (bestj - 1) (S bestsize)
      else (besti, bestj, bestsize)
  end.

(** [while besti+bestsize < ahi and bestj+bestsize < bhi and
    a[besti+bestsize] == b[bestj+bestsize]], at most [n] times. *)
Fixpoint extend_right (n ahi bhi besti bestj bestsize : nat) : block :=
  match n with
  | 0 => (besti, bestj, bestsize)
  | S n' =>
      if (besti + bestsize <? ahi) && (bestj + bestsize <? bhi)
         && eq_at a b (besti + bestsize) (bestj + bestsize)
      then extend_right n' ahi bhi besti bestj (S bestsize)
      else (besti, bestj, bestsize)
  end.

(** The two loops that extend by junk do nothing: [bjunk] is empty. *)
Definition find_longest_match (alo ahi blo bhi : nat) : block :=
  let '(besti, bestj, bestsize) :=
    scan_rows (take (ahi - alo) (drop alo a)) alo blo bhi [] (alo, blo, 0) in
  let '(besti, bestj, bestsize) :=
    extend_left alo blo besti bestj bestsize in
  extend_right (ahi - (besti + bestsize)) ahi bhi besti bestj bestsize.

(** [get_matching_blocks]: the queue is unfolded into a recursion on the
    two sides of the match; the blocks come out sorted. The closing
    merge of adjacent blocks and the sentinel leave the total size
    unchanged and are left out. *)
Fixpoint matching_blocks (fuel alo ahi blo bhi : nat) : list block :=
  match fuel with
  | 0 => []
  | S fuel' =>
      let '(i, j, k) := find_longest_match alo ahi blo bhi in
      if k =? 0 then []
      else
        (if (alo <? i) && (blo <? j)
         then matching_blocks fuel' alo i blo j else [])
        ++ (i, j, k) ::
        (if (i + k <? ahi) && (j + k <? bhi)
         then matching_blocks fuel' (i + k) ahi (j + k) bhi else [])
  end.

Definition get_matching_blocks : list block :=
  matching_blocks (S (length a)) 0 (length a) 0 (length b).

(** [sum(triple[-1] for triple in self.get_matching_blocks())] *)
Definition matches : nat := total_size get_matching_blocks.

(** [_calculate_ratio(matches, len(a) + len(b))] *)
Definition seq_ratio : Q :=
  match (length a + length b)%nat with
  | 0 => 1%Q
  | S n => Qmake (Z.of_nat (2 * matches)%nat) (Pos.of_succ_nat n)
  end.

(** A run of [k] equal elements ends at [a[i]] and [b[j]], inside the
    window [alo:ahi], [blo:bhi]. *)
Definition run_at (alo ahi blo bhi i j k : nat) : Prop :=
  alo + k <= S i /\ S i <= ahi /\ blo + k <= S j /\ S j <= bhi
  /\ forall t, t < k -> eq_at a b (i - t) (j - t) = true.

(** A block of equal elements inside the window. *)
Definition block_ok (alo ahi blo bhi : nat) (m : block) : Prop :=
  alo <= m.1.1 /\ m.1.1 + m.2 <= ahi /\ blo <= m.1.2 /\ m.1.2 + m.2 <= bhi
  /\ forall t, t < m.2 -> eq_at a b (m.1.1 + t) (m.1.2 + t) = true.

End Matcher.

(** [l[lo:hi]] *)
Definition slice {A : Type} (l : list A) (lo hi : nat) : list A :=
  take (hi - lo) (drop lo l).

Definition ratio (s1 s2 : string) : Q :=
  seq_ratio (list_ascii_of_string s1) (list_ascii_of_string s2).

End Difflib.

(** ** Configuration ([alcohol_data_config.py]) *)

Module Config.

(** The entries of the global [CONFIG] dictionary that the engine reads. *)
Record t : Type := {
    similarity_threshold : Q;
    fuzzy_match_threshold : Q;
    fuzzy_match_fields : list string
  }.

(** [CONFIG] as shipped. *)
Definition CONFIG : t := {|
    similarity_threshold := 9 # 10;
    fuzzy_match_threshold := 85 # 100;
    fuzzy_match_fields := ["brand_name"; "product_name"]
  |}.

(** [SUBCATEGORY_NORMALIZATIONS], in the order of the literal, which is
    the order in which [.items()] yields it. *)
Definition SUBCATEGORY_NORMALIZATIONS : list (string * string) := [
    ("Gift And Sampler", "Gifts and Samplers");
    ("Gift and Sampler", "Gifts and Samplers");
    ("Gifts And Sampler", "Gifts and Samplers");
    ("Gift & Sampler", "Gifts and Samplers");
    ("Gifts & Sampler", "Gifts and Samplers");
    ("Gift and Samplers", "Gifts and Samplers");
    ("Gift And Samplers", "Gifts and Samplers");
    ("Beer & Cider", "Beer");
    ("Beer and Cider", "Beer");
    ("Beer & Ciders", "Beer");
    ("Beer and Ciders", "Beer");
    ("Red Wine", "Red Wines");
    ("White Wine", "White Wines");
    ("Rose Wine", "Rose Wines");
    ("Sparkling Wine", "Sparkling Wines");
    ("Dessert Wine", "Dessert Wines");
    ("Fortified Wine", "Fortified Wines");
    ("Whisky", "Whiskey");
    ("Whiskey", "Whiskey");
    ("Scotch", "Scotch Whisky");
    ("Scotch Whiskey", "Scotch Whisky");
    ("Bourbon", "Bourbon Whiskey");
    ("Bourbon Whisky", "Bourbon Whiskey");
    ("Rye", "Rye Whiskey");
    ("Rye Whisky", "Rye Whiskey");
    ("Canadian Whisky", "Canadian Whiskey");
    ("Canadian Whiskey", "Canadian Whiskey");
    ("Vodka", "Vodka");
    ("Flavoured Vodka", "Flavored Vodka");
    ("Flavored Vodka", "Flavored Vodka");
    ("Gin", "Gin");
    ("London Dry Gin", "London Dry Gin");
    ("Plymouth Gin", "Plymouth Gin");
    ("Rum", "Rum");
    ("White Rum", "White Rum");
    ("Dark Rum", "Dark Rum");
    ("Spiced Rum", "Spiced Rum");
    ("Gold Rum", "Gold Rum");
    ("Aged Rum", "Aged Rum");
    ("Tequila", "Tequila");
    ("Blanco Tequila", "Blanco Tequila");
    ("Reposado Tequila", "Reposado Tequila");
    ("Anejo Tequila", "Anejo Tequila");
    ("Mezcal", "Mezcal");
    ("Liqueur", "Liqueur");
    ("Liqueurs", "Liqueur");
    ("Cream Liqueur", "Cream Liqueur");
    ("Cream Liqueurs", "Cream Liqueur");
    ("Coffee Liqueur", "Coffee Liqueur");
    ("Coffee Liqueurs", "Coffee Liqueur");
    ("Herbal Liqueur", "Herbal Liqueur");
    ("Herbal Liqueurs", "Herbal Liqueur");
    ("Fruit Liqueur", "Fruit Liqueur");
    ("Fruit Liqueurs", "Fruit Liqueur");
    ("Brandy", "Brandy");
    ("Cognac", "Cognac");
    ("Armagnac", "Armagnac");
    ("Pisco", "Pisco");
    ("Aperitif", "Aperitif");
    ("Aperitifs", "Aperitif");
    ("Digestif", "Digestif");
    ("Digestifs", "Digestif");
    ("Vermouth", "Vermouth");
    ("Bitters", "Bitters");
    ("Absinthe", "Absinthe");
    ("Sake", "Sake");
    ("Soju", "Soju");
    ("Baijiu", "Baijiu")
  ].

(** The entries of [CONFIG] that switch the operations of the orchestrator. *)
Record flags : Type := {
    run_duplicate_detection : bool;
    run_exact_duplicate_removal : bool;
    run_brand_normalization : bool;
    use_exact_duplicate_matching : bool
  }.

(** As shipped. *)
Definition FLAGS : flags := {|
    run_duplicate_detection := false;
    run_exact_duplicate_removal := true;
    run_brand_normalization := false;
    use_exact_duplicate_matching := true
  |}.

(** [BRAND_VARIATIONS], in the order of the literal. *)
Definition BRAND_VARIATIONS : list (string * string) := [
    ("Bailey's", "Bailey's");
    ("Baileys", "Bailey's");
    ("Baileys Birthday", "Bailey's");
    ("Baileys Original", "Bailey's");
    ("Baileys Tiramisu", "Bailey's");
    ("Jack Daniels", "Jack Daniel's");
    ("Jack Daniel", "Jack Daniel's");
    ("Crown Royal", "Crown Royal");
    ("Crown Royal Special Reserve", "Crown Royal");
    ("Smirnoff", "Smirnoff");
    ("Smirnoff Ice", "Smirnoff");
    ("Grey Goose", "Grey Goose");
    ("Absolut", "Absolut");
    ("Ketel One", "Ketel One");
    ("Bacardi", "Bacardi");
    ("Captain Morgan", "Captain Morgan");
    ("Malibu", "Malibu");
    ("Jose Cuervo", "Jose Cuervo");
    ("Patron", "Patron");
    ("Don Julio", "Don Julio");
    ("Hendrick's", "Hendrick's");
    ("Hendricks", "Hendrick's");
    ("Tanqueray", "Tanqueray");
    ("Bombay Sapphire", "Bombay Sapphire");
    ("Beefeater", "Beefeater");
    ("Gordon's", "Gordon's");
    ("Gordons", "Gordon's")
  ].

(** [INVALID_PRODUCT_NAMES], a set of strings. *)
Definition INVALID_PRODUCT_NAMES : list string := [
    "other"; "unknown"; "misc"; "miscellaneous"; "general"; "various";
    "assorted"; "mixed"; "selection"; "collection"; "variety"
  ].

End Config.

(** ** Comparisons of floats *)

Definition Qgeb (x y : Q) : bool := Qle_bool y x.
Definition Qgtb (x y : Q) : bool := negb (Qle_bool x y).

(** ** Subcategory normalisation ([AlcoholDataProcessor.normalize_subcategory]) *)

(** [d.get(k)] on a dictionary literal kept as an association list. *)
Fixpoint table_get (k : string) (d : list (string * string)) : option string :=
  match d with
  | [] => None
  | (k', v) :: d' => if String.eqb k k' then Some v else table_get k d'
  end.

(** The loop [for original, normalized in TABLE.items(): if ratio > 0.9: return normalized]. *)
Fixpoint close_match (cleaned : string) (d : list (string * string)) : option string :=
  match d with
  | [] => None
  | (original, normalized) :: d' =>
      if Qgtb (Difflib.ratio (PyStr.lower cleaned) (PyStr.lower original)) (9 # 10)
      then Some normalized
      else close_match cleaned d'
  end.

Definition normalize_subcategory_with (table : list (string * string))
    (subcategory : string) : string :=
  if negb (PyStr.truthy subcategory) then EmptyString
  else
    let cleaned := PyStr.strip subcategory in
    match table_get cleaned table with
    | Some normalized => normalized
    | None =>
        match close_match cleaned table with
        | Some normalized => normalized
        | None => cleaned
        end
    end.

Definition normalize_subcategory : string -> string :=
  normalize_subcategory_with Config.SUBCATEGORY_NORMALIZATIONS.

(** ** Bounding the ratio: longest common subsequences

    The matching blocks of two sequences form a common subsequence, so the
    number of matched elements is at most the length of a longest common
    subsequence. [lcs] computes that length row by row. *)

(** The row for [x :: a'] from the row [old] for [a']; entry [j] is for the
    suffix [b[j:]]. *)
Fixpoint lcs_step (x : ascii) (b : list ascii) (old : list nat) : list nat :=
  match b, old with
  | y :: b', o :: old' =>
      let new' := lcs_step x b' old' in
      (if Ascii.eqb x y then S (hd 0 old') else Nat.max o (hd 0 new')) :: new'
  | _, _ => [0]
  end.

Definition lcs_row (a b : list ascii) : list nat :=
  foldr (fun x old => lcs_step x b old) (repeat 0 (S (length b))) a.

Definition lcs (a b : list ascii) : nat := hd 0 (lcs_row a b).

(** Can a sequence of length [n] have more than nine tenths of ratio with a
    sequence of length [l1] and with one of length [l2] whose longest common
    subsequence has length [L]? [m1] and [m2] are the fewest matches that
    give such ratios. *)
Definition feasible_at (l1 l2 L n : nat) : bool :=
  let m1 := 9 * (n + l1) / 20 + 1 in
  let m2 := 9 * (n + l2) / 20 + 1 in
  (m1 <=? n) && (m1 <=? l1) && (m2 <=? n) && (m2 <=? l2) && (m1 + m2 <=? L + n).

Definition feasible (l1 l2 L : nat) : bool :=
  existsb (feasible_at l1 l2 L) (seq 0 (S (2 * l1))).

Definition lowered (k : string) : list ascii :=
  list_ascii_of_string (PyStr.lower k).

(** No key of [table] is empty, and no string is close to two keys of
    [table] with different canonical names. *)
Definition close_keys_agree (table : list (string * string)) : bool :=
  forallb (fun kv1 =>
    (0 <? length (lowered kv1.1))
    && forallb (fun kv2 =>
         String.eqb kv1.2 kv2.2
         || negb (feasible (length (lowered kv1.1)) (length (lowered kv2.1))
                           (lcs (lowered kv1.1) (lowered kv2.1))))
         table) table.

(** The ratio that [normalize_subcategory] takes between its input and a key. *)
Definition key_ratio (subcategory original : string) : Q :=
  Difflib.ratio (PyStr.lower (PyStr.strip subcategory)) (PyStr.lower original).

(** ** Dictionaries, exceptions and the helpers shared by the scripts *)

(** A call either returns a value or raises the named exception. *)
Inductive outcome (A : Type) : Type :=
  | Returns (a : A)
  | Raises (e : string).
Global Arguments Returns {A} a.
Global Arguments Raises {A} e.

Global Instance outcome_ret : MRet outcome := fun A a => Returns a.
Global Instance outcome_bind : MBind outcome := fun A B f m =>
  match m with
  | Returns a => f a
  | Raises e => Raises e
  end.

(** [d.get(k, '')]; the scripts treat [None] and [''] alike. *)
Definition dict_get (k : string) (d : gmap string string) : string :=
  default EmptyString (d !! k).

(** [enumerate(l)] *)
Definition enumerate {A : Type} (l : list A) : list (nat * A) :=
  zip (seq 0 (length l)) l.

(** [groups[k].append(x)] on a [defaultdict(list)], keys kept in insertion order. *)
Fixpoint group_add {A : Type} (k : string) (x : A)
    (groups : list (string * list A)) : list (string * list A) :=
  match groups with
  | [] => [(k, [x])]
  | (k', xs) :: rest =>
      if String.eqb k k' then (k', xs ++ [x]) :: rest
      else (k', xs) :: group_add k x rest
  end.

(** The grouping loop of the scripts: every record with a key is appended
    to the list of its key, the others are passed over. *)
Definition grouped {A : Type} (key : A -> option string) (l : list A)
    : list (string * list A) :=
  foldl (fun groups x =>
           match key x with
           | Some k => group_add k x groups
           | None => groups
           end) [] l.

(** A well-formed group of [grouped key l]: not empty, in the order of [l],
    all of its records under its key. *)
Definition group_ok {A : Type} (key : A -> option string) (l : list A)
    (g : string * list A) : Prop :=
  g.2 <> [] /\ sublist g.2 l /\ Forall (fun x => key x = Some g.1) g.2.

(** Python compares the key tuples lexicographically, [False < True] being
    [0 < 1]; a key is kept as the list of its components. *)
Fixpoint key_ltb (x y : list nat) : bool :=
  match x, y with
  | [], [] => false
  | [], _ :: _ => true
  | _ :: _, [] => false
  | a :: x', b :: y' => (a <? b) || ((a =? b) && key_ltb x' y')
  end.

Section Sorted.
Context {A : Type}.
Variable key : A -> list nat.

Fixpoint insert_by (x : A) (l : list A) : list A :=
  match l with
  | [] => [x]
  | y :: l' =>
      if key_ltb (key y) (key x) then y :: insert_by x l' else x :: l
  end.

(** [sorted(l, key=key)]: stable, ascending. *)
Definition sorted (l : list A) : list A := foldr insert_by [] l.

(** [x] is the first element of [l] among those with the least key. *)
Definition first_least (l : list A) (x : A) : Prop :=
  exists before after,
    l = before ++ x :: after
    /\ (forall y, y ∈ before -> key_ltb (key x) (key y) = true)
    /\ (forall y, y ∈ after -> key_ltb (key y) (key x) = false).
End Sorted.

(** ** The duplicate grouper and the record merger *)

Section Grouper.
(** [Obj] is a reference to a product dictionary, [fields] reads it. *)
Context {Obj : Type}.
Variable fields : Obj -> gmap string string.
Variable cfg : Config.t.

Definition get (k : string) (p : Obj) : string := dict_get k (fields p).

(** The key of [find_exact_duplicates], when the record has one. *)
Definition exact_key (product : Obj) : option string :=
  let brand_name := PyStr.lower (PyStr.strip (get "brand_name" product)) in
  let product_name := PyStr.lower (PyStr.strip (get "product_name" product)) in
  if PyStr.truthy brand_name && PyStr.truthy product_name
  then Some (String.append brand_name (String.append "|" product_name))
  else None.

Definition exact_groups (products : list Obj) : list (string * list Obj) :=
  grouped exact_key products.

(** The records of [products] that have the key [key], in their order. *)
Definition key_class (products : list Obj) (key : string) : list Obj :=
  filter (fun product => exact_key product = Some key) products.

(** [AlcoholDataProcessor.find_exact_duplicates] *)
Definition find_exact_duplicates (products : list Obj) : list (list Obj) :=
  foldl (fun exact_duplicates '(key, product_group) =>
           if 1 <? length product_group
           then exact_duplicates ++ [product_group]
           else exact_duplicates) [] (exact_groups products).

(** [brand_groups[product.get('brand_name', '').lower()].append(product)] *)
Definition brand_key (product : Obj) : string :=
  PyStr.lower (get "brand_name" product).

Definition brand_buckets (products : list Obj) : list (string * list Obj) :=
  grouped (fun product => Some (brand_key product)) products.

(** The test of the inner loop on [product1] and [product2]. *)
Definition similar_names (product1 product2 : Obj) : bool :=
  let product1_name := PyStr.lower (get "product_name" product1) in
  let product2_name := PyStr.lower (get "product_name" product2) in
  PyStr.truthy product1_name && PyStr.truthy product2_name
  && Qgeb (Difflib.ratio product1_name product2_name)
          (Config.similarity_threshold cfg).

(** [for j, product2 in enumerate(brand_products[i+1:], i+1)] *)
Fixpoint collect (product1 : Obj) (later : list (nat * Obj))
    (processed : gset nat) (similar_products : list Obj)
    : list Obj * gset nat :=
  match later with
  | [] => (similar_products, processed)
  | (j, product2) :: later' =>
      if decide (j ∈ processed) then
        collect product1 later' processed similar_products
      else if similar_names product1 product2 then
        collect product1 later' ({[j]} ∪ processed) (similar_products ++ [product2])
      else
        collect product1 later' processed similar_products
  end.

(** [for i, product1 in enumerate(brand_products)] *)
Fixpoint sweep (items : list (nat * Obj)) (processed : gset nat)
    (duplicates : list (list Obj)) : list (list Obj) :=
  match items with
  | [] => duplicates
  | (i, product1) :: later =>
      if decide (i ∈ processed) then sweep later processed duplicates
      else
        let '(similar_products, processed') :=
          collect product1 later processed [product1] in
        if 1 <? length similar_products
        then sweep later ({[i]} ∪ processed') (duplicates ++ [similar_products])
        else sweep later processed' duplicates
  end.

(** The shape of a cluster of the sweep: a first record, and after it at
    least one record, each similar to the first. *)
Definition star_shaped (cluster : list Obj) : Prop :=
  match cluster with
  | first :: (_ :: _) as others =>
      Forall (fun m => similar_names first m = true) others
  | _ => False
  end.

(** The fuzzy path, the same text in both scripts. *)
Definition fuzzy_duplicates (products : list Obj) : list (list Obj) :=
  foldl (fun duplicates '(brand, brand_products) =>
           if length brand_products <=? 1 then duplicates
           else sweep (enumerate brand_products) ∅ duplicates)
        [] (brand_buckets products).

(** The body of the merging loop for one field. *)
Definition fill (k : string) (best_product : gmap string string)
    (duplicate : Obj) : gmap string string :=
  if negb (PyStr.truthy (dict_get k best_product)) && PyStr.truthy (get k duplicate)
  then <[k := get k duplicate]> best_product
  else best_product.

Definition add_missing (best_product : gmap string string) (duplicate : Obj)
    : gmap string string :=
  fill "lcbo_id" (fill "price" (fill "image_url" best_product duplicate) duplicate)
       duplicate.

(** The fields that the merging loop copies. *)
Definition copied (k : string) : Prop :=
  k = "image_url" \/ k = "price" \/ k = "lcbo_id".

(** What the merged record should hold under a copied field [k]: the value
    of the base when it is not empty, else the value of the first of the
    other records that has one, else what the base has. *)
Definition merged_value (k : string) (base : gmap string string)
    (others : list Obj) : option string :=
  if PyStr.truthy (dict_get k base) then base !! k
  else
    match List.find (fun d => PyStr.truthy (get k d)) others with
    | Some d => Some (get k d)
    | None => base !! k
    end.

(** One turn of [for duplicate_group in duplicates] past the [continue]. *)
Definition merge_group (key : Obj -> list nat) (duplicate_group : list Obj)
    : outcome (gmap string string) :=
  match sorted key duplicate_group with
  | [] => Raises "IndexError"
  | best :: others => Returns (foldl add_missing (fields best) others)
  end.

Fixpoint merge_groups (key : Obj -> list nat) (duplicates : list (list Obj))
    (merged_products : list (gmap string string))
    : outcome (list (gmap string string)) :=
  match duplicates with
  | [] => Returns merged_products
  | duplicate_group :: duplicates' =>
      match duplicate_group with
      | [] => merge_groups key duplicates' merged_products
      | _ :: _ =>
          best_product ← merge_group key duplicate_group;
          merge_groups key duplicates' (merged_products ++ [best_product])
      end
  end.

End Grouper.

(** [alcohol_data_processor.py] *)
Module Processor.
Section Defs.
Context {Obj : Type}.
Variable fields : Obj -> gmap string string.
Variable cfg : Config.t.

Definition find_duplicates (products : list Obj) (use_exact_matching : bool)
    : list (list Obj) :=
  if use_exact_matching then find_exact_duplicates fields products
  else fuzzy_duplicates fields cfg products.

(** The key of [sorted] in [merge_duplicates]. *)
Definition quality (p : Obj) : list nat :=
  [ Nat.b2n (negb (PyStr.truthy (get fields "image_url" p)));
    Nat.b2n (negb (PyStr.truthy (get fields "price" p)));
    String.length (get fields "product_name" p) ].

Definition merge_duplicates (duplicates : list (list Obj))
        : outcome (list (gmap string string)) :=
      merge_groups fields quality duplicates [].

(** The identifier that [remove_duplicates] gives a product:
    [f"{brand_name.lower()}|{product_name.lower()}"]. *)
Definition product_id (product : Obj) : string :=
  String.append (PyStr.lower (get fields "brand_name" product))
    (String.append "|" (PyStr.lower (get fields "product_name" product))).

(** [AlcoholDataProcessor.remove_duplicates]: the records whose identifier
    is not that of a member of a cluster, then the merged records. The
    result lists the contents of the records. *)
Definition remove_duplicates (products : list Obj) (use_exact_matching : bool)
    : outcome (list (gmap string string)) :=
  let duplicates := find_duplicates products use_exact_matching in
  match duplicates with
  | [] => Returns (map fields products)
  | _ :: _ =>
      merged_products ← merge_duplicates duplicates;
      let duplicate_product_ids : gset string :=
        list_to_set (map product_id (concat duplicates)) in
      let final_products :=
        filter (fun product => product_id product ∉ duplicate_product_ids) products in
      Returns (map fields final_products ++ merged_products)
  end.
End Defs.

(** [AlcoholDataProcessor.normalize_brand_name] *)
Definition normalize_brand_name (brand_name : string) : string :=
  if negb (PyStr.truthy brand_name) then EmptyString
  else
    let normalized := PyStr.strip brand_name in
    match table_get normalized Config.BRAND_VARIATIONS with
    | Some canonical => canonical
    | None => normalized
    end.

(** [AlcoholDataProcessor.is_valid_product_name] *)
Definition is_valid_product_name (product_name : string) : bool :=
  if negb (PyStr.truthy product_name) then false
  else if bool_decide (PyStr.strip (PyStr.lower product_name)
                         ∈ Config.INVALID_PRODUCT_NAMES) then false
  else if String.length (PyStr.strip product_name) <? 3 then false
  else true.
End Processor.

(** [alcohol_data_integrity.py] *)
Module Integrity.
Section Defs.
Context {Obj : Type}.
Variable fields : Obj -> gmap string string.
Variable cfg : Config.t.

Definition find_duplicates (products : list Obj) : list (list Obj) :=
  fuzzy_duplicates fields cfg products.

Definition quality (p : Obj) : list nat :=
  [ Nat.b2n (negb (String.eqb (get fields "source" p) "LCBO"));
    Nat.b2n (negb (PyStr.truthy (get fields "image_url" p)));
    Nat.b2n (negb (PyStr.truthy (get fields "price" p)));
    String.length (get fields "product_name" p) ].

Definition merge_duplicates (duplicates : list (list Obj))
        : outcome (list (gmap string string)) :=
      merge_groups fields quality duplicates [].
End Defs.
End Integrity.

(** ** Brand consolidation ([AlcoholDataProcessor.normalize_brand_alternatives]) *)

Module Brands.

(** [score_brand] inside [choose_best_brand_name]; [brand[0]] raises on
    the empty string. *)
Definition score_brand (brand : string) : outcome Z :=
  let score := 0%Z in
  let score := if PyStr.has_char "'" brand then (score + 10)%Z else score in
  score ←
    (if PyStr.isupper brand then Returns (score - 5)%Z
     else
       match brand with
       | EmptyString => Raises "IndexError"
       | String c _ =>
           if PyStr.char_isupper c && negb (PyStr.isupper brand)
           then Returns (score + 5)%Z
           else Returns score
       end);
  let score := (score - Z.of_nat (PyStr.split_len brand))%Z in
  let score := (score - Z.of_nat (PyStr.count_double_space brand))%Z in
  Returns score.

(** [max(scored, key=lambda x: x[1])]: the first of the largest. *)
Fixpoint max_scored (best : string * Z) (scored : list (string * Z)) : string * Z :=
  match scored with
  | [] => best
  | x :: scored' =>
      if (best.2 <? x.2)%Z then max_scored x scored' else max_scored best scored'
  end.

Definition choose_best_brand_name (alternatives : list string) : outcome string :=
  match alternatives with
  | [] => Returns EmptyString
  | _ :: _ =>
      scored_alternatives ←
        mapM (fun brand => s ← score_brand brand; Returns (brand, s)) alternatives;
      match scored_alternatives with
      | [] => Raises "ValueError"
      | x :: scored' => Returns (max_scored x scored').1
      end
  end.

(** The grouping key: lower case, apostrophes and double quotes removed. *)
Definition normalized_key (brand_name : string) : string :=
  PyStr.replace_char PyStr.dquote EmptyString
    (PyStr.replace_char PyStr.dquote EmptyString
       (PyStr.replace_char "'" EmptyString
          (PyStr.replace_char "'" EmptyString (PyStr.lower brand_name)))).

Definition brand_groups (products : list (gmap string string))
    : list (string * list string) :=
  foldl (fun groups product =>
           let brand_name := dict_get "brand_name" product in
           if PyStr.truthy brand_name
           then group_add (normalized_key brand_name) brand_name groups
           else groups) [] products.


(** [for alternative in alternatives: if alternative != best_brand: ...] *)
Definition map_alternatives (best_brand : string) (alternatives : list string)
    (brand_mapping : gmap string string) : gmap string string :=
  foldl (fun m alternative =>
           if String.eqb alternative best_brand then m
           else <[alternative := best_brand]> m) brand_mapping alternatives.

Fixpoint build_mapping (groups : list (string * list string))
    (brand_mapping : gmap string string) : outcome (gmap string string) :=
  match groups with
  | [] => Returns brand_mapping
  | (normalized, alternatives) :: groups' =>
      if 1 <? length alternatives then
        best_brand ← choose_best_brand_name alternatives;
        build_mapping groups' (map_alternatives best_brand alternatives brand_mapping)
      else build_mapping groups' brand_mapping
  end.

Definition apply_mapping (brand_mapping : gmap string string)
    (product : gmap string string) : gmap string string :=
  match brand_mapping !! dict_get "brand_name" product with
  | Some best_brand => <["brand_name" := best_brand]> product
  | None => product
  end.

(** The score in the words of the design: ten for an apostrophe, minus five
    when fully upper case, five when the first letter is a capital and the
    name is not fully upper case, minus one per word and per double blank. *)
Definition design_score (brand : string) : Z :=
  ((if PyStr.has_char "'" brand then 10 else 0)
   + (if PyStr.isupper brand then -5
      else match brand with
           | String c _ => if PyStr.char_isupper c then 5 else 0
           | EmptyString => 0
           end)
   - Z.of_nat (PyStr.split_len brand)
   - Z.of_nat (PyStr.count_double_space brand))%Z.

(** The surface forms that share the group of [brand], one per record that
    carries it, in the order of the records. *)
Definition surface_forms (products : list (gmap string string)) (brand : string)
  : list string :=
  filter (fun form => form <> EmptyString /\ normalized_key form = normalized_key brand)
         (map (dict_get "brand_name") products).

(** [winner] is the first of the forms with the highest score. *)
Definition first_best (forms : list string) (winner : string) : Prop :=
  exists before after,
    forms = before ++ winner :: after
    /\ (forall f, f ∈ before -> (design_score f < design_score winner)%Z)
    /\ (forall f, f ∈ after -> (design_score f <= design_score winner)%Z).

(** The key under which [brand_groups] files a brand, if it files it. *)
Definition form_key (brand_name : string) : option string :=
  if PyStr.truthy brand_name then Some (normalized_key brand_name) else None.

Definition normalize_brand_alternatives (products : list (gmap string string))
    : outcome (list (gmap string string)) :=
  brand_mapping ← build_mapping (brand_groups products) ∅;
  Returns (map (apply_mapping brand_mapping) products).

End Brands.

(** ** The schema mapper ([GoogleSheetsClient.get_column_mapping]) *)

Module Sheets.

(** The [if]/[elif] chain on one cleaned header. *)
Definition canonical_field (header_clean : string) : option string :=
  let has := fun w => PyStr.contains w header_clean in
  if has "brand" && (has "name" || String.eqb header_clean "brand") then Some "brand_name"
  else if has "product" && (has "name" || String.eqb header_clean "product") then Some "product_name"
  else if has "descriptor" then Some "descriptors"
  else if has "gluten" && has "score" then Some "gluten_free_score"
  else if has "gluten" && has "free" then Some "gluten_free_score"
  else if has "id" && String.eqb header_clean "id" then Some "id"
  else if has "lcbo" && has "id" then Some "lcbo_id"
  else if has "image" && has "url" then Some "image_url"
  else if has "price" then Some "price"
  else if has "category" && negb (has "sub") then Some "category"
  else if has "subcategory" || (has "sub" && has "category") then Some "subcategory"
  else if has "source" then Some "source"
  else None.

Definition clean_header (header : string) : string :=
  let header_lower := PyStr.strip (PyStr.lower header) in
  PyStr.replace_char "-" " " (PyStr.replace_char "_" " " header_lower).

Definition get_column_mapping (headers : list string) : outcome (gmap string nat) :=
  Returns
    (foldl (fun column_mapping '(i, header) =>
              match canonical_field (clean_header header) with
              | Some field => <[field := i]> column_mapping
              | None => column_mapping
              end) ∅ (enumerate headers)).

(** The header at [i] names [field], and no header after it does. *)
Definition last_header_of (headers : list string) (field : string) (i : nat) : Prop :=
  (exists header,
     headers !! i = Some header
     /\ canonical_field (clean_header header) = Some field)
  /\ forall j header,
       i < j -> headers !! j = Some header ->
       canonical_field (clean_header header) <> Some field.

(** The row that [update_sheet] writes for one product: as wide as the
    header row, the value of each mapped field in its column, the other
    cells empty. The fields are visited in the order of [map_to_list],
    which gives the row of the script whenever no two fields share a
    column, as in every mapping that [get_column_mapping] returns. *)
Definition new_row (original_headers : list string)
    (column_mapping : gmap string nat) (product : gmap string string)
    : list string :=
  foldl (fun new_row '(field_name, col_idx) =>
           if col_idx <? length new_row
           then <[col_idx := dict_get field_name product]> new_row
           else new_row)
        (replicate (length original_headers) EmptyString)
        (map_to_list column_mapping).

(** [new_sheet_data] of [update_sheet]: the values that are written back,
    [None] when the script returns before it writes. *)
Definition new_sheet_data (processed_products : list (gmap string string))
    (existing_data : list (list string)) : outcome (option (list (list string))) :=
  match existing_data with
  | [] => Returns None
  | original_headers :: _ =>
      column_mapping ← get_column_mapping original_headers;
      Returns (Some (original_headers
                     :: map (new_row original_headers column_mapping)
                            processed_products))
  end.

(** [GoogleSheetsClient._rebuild_products_for_updated_sheet] *)
Definition _rebuild_products_for_updated_sheet {A : Type}
    (original_products : list A) (removed_row_indices : list nat) : list A :=
  let removed_indices_set : gset nat := list_to_set removed_row_indices in
  foldl (fun remaining_products '(i, product) =>
           if decide (i ∉ removed_indices_set)
           then remaining_products ++ [product]
           else remaining_products) [] (enumerate original_products).

End Sheets.

(** ** The cross-dataset reconciler ([AlcoholBackupRestorer])

    The scores of [Restorer] are exact rationals; [FloatRestorer] below
    rounds them as the interpreter does. *)

Module Restorer.
Section Defs.
Variable cfg : Config.t.

Definition calculate_similarity (str1 str2 : string) : Q :=
  if negb (PyStr.truthy str1) || negb (PyStr.truthy str2) then 0%Q
  else
    let str1_norm := PyStr.strip (PyStr.lower str1) in
    let str2_norm := PyStr.strip (PyStr.lower str2) in
    if String.eqb str1_norm str2_norm then 1%Q
    else Difflib.ratio str1_norm str2_norm.

(** [sum(field_scores) / len(field_scores) if field_scores else 0.0] *)
Definition average (field_scores : list Q) : Q :=
  match field_scores with
  | [] => 0%Q
  | _ :: _ =>
      (foldl Qplus 0%Q field_scores / inject_Z (Z.of_nat (length field_scores)))%Q
  end.

Definition avg_score (current_product backup_product : gmap string string) : Q :=
  average
    (map (fun field =>
            calculate_similarity (dict_get field current_product)
                                 (dict_get field backup_product))
         (Config.fuzzy_match_fields cfg)).

Fixpoint best_match_from (current_product : gmap string string)
    (backup_products : list (gmap string string))
    (best_match : option (gmap string string)) (best_score : Q)
    : option (gmap string string) * Q :=
  match backup_products with
  | [] => (best_match, best_score)
  | backup_product :: backup_products' =>
      let avg := avg_score current_product backup_product in
      if Qgtb avg best_score && Qgeb avg (Config.fuzzy_match_threshold cfg)
      then best_match_from current_product backup_products' (Some backup_product) avg
      else best_match_from current_product backup_products' best_match best_score
  end.

Definition find_best_match (current_product : gmap string string)
    (backup_products : list (gmap string string))
    : option (gmap string string) * Q :=
  best_match_from current_product backup_products None 0%Q.

(** [if best_match.get(k) and best_match[k].strip(): current_product[k] = best_match[k]] *)
Definition restore_field (k : string) (best_match current_product : gmap string string)
    : gmap string string :=
  if PyStr.truthy (dict_get k best_match)
     && PyStr.truthy (PyStr.strip (dict_get k best_match))
  then <[k := dict_get k best_match]> current_product
  else current_product.

(** The body of [for current_product in current_products]. *)
Definition restore_product (backup_products : list (gmap string string))
    (current_product : gmap string string) : gmap string string :=
  let '(best_match, score) := find_best_match current_product backup_products in
  match best_match with
  | Some best_match =>
      if bool_decide (best_match ≠ ∅)
         && Qgeb score (Config.fuzzy_match_threshold cfg)
      then restore_field "descriptors" best_match
             (restore_field "gluten_free_score" best_match current_product)
      else current_product
  | None => current_product
  end.

(** The choice of the design among [backup_products]: the first record
    with the highest average, provided that average reaches the threshold
    and is above zero; no record otherwise, with score zero. *)
Definition selected (current_product : gmap string string)
    (backup_products : list (gmap string string))
    (result : option (gmap string string) * Q) : Prop :=
  match result.1 with
  | Some b =>
      result.2 = avg_score current_product b
      /\ (exists before after,
            backup_products = before ++ b :: after
            /\ (forall x, x ∈ before ->
                  (avg_score current_product x < avg_score current_product b)%Q)
            /\ (forall x, x ∈ after ->
                  (avg_score current_product x <= avg_score current_product b)%Q))
      /\ (Config.fuzzy_match_threshold cfg <= avg_score current_product b)%Q
      /\ (0 < avg_score current_product b)%Q
  | None =>
      result.2 = 0%Q
      /\ forall x, x ∈ backup_products ->
           ~ ((0 < avg_score current_product x)%Q
              /\ (Config.fuzzy_match_threshold cfg <= avg_score current_product x)%Q)
  end.

(** [max(l)] *)
Definition max_of (l : list nat) : outcome nat :=
  match l with
  | [] => Raises "ValueError"
  | x :: l' => Returns (foldl Nat.max x l')
  end.

(** The rows of the backup sheet as products. *)
Fixpoint backup_rows (rows : list (list string))
    (backup_column_mapping : gmap string nat)
    (backup_products : list (gmap string string))
    : outcome (list (gmap string string)) :=
  match rows with
  | [] => Returns backup_products
  | row :: rows' =>
      widest ← max_of (map snd (map_to_list backup_column_mapping));
      if widest + 1 <=? length row then
        let backup_product :=
          (fun col_idx => default EmptyString (row !! col_idx)) <$> backup_column_mapping in
        backup_rows rows' backup_column_mapping (backup_products ++ [backup_product])
      else backup_rows rows' backup_column_mapping backup_products
  end.

Definition restore_from_backup (current_products : list (gmap string string))
    (backup_data : list (list string)) (backup_column_mapping : gmap string nat)
    : outcome (list (gmap string string)) :=
  backup_products ←
    (if 1 <? length backup_data
     then backup_rows (tail backup_data) backup_column_mapping []
     else Returns []);
  Returns (map (restore_product backup_products) current_products).

End Defs.

(** The product that [process_existing_data] reads from one row. *)
Definition existing_product (column_mapping : gmap string nat)
    (row : list string) : gmap string string :=
  <["source" := "Existing"]>
    ((fun col_idx => default EmptyString (row !! col_idx)) <$> column_mapping).

(** [AlcoholBackupRestorer.process_existing_data] *)
Definition process_existing_data (existing_data : list (list string))
    : outcome (list (gmap string string)) :=
  if 1 <? length existing_data then
    let headers := hd [] existing_data in
    column_mapping ← Sheets.get_column_mapping headers;
    Returns
      (foldl (fun processed_existing row =>
                if 3 <=? length row then
                  let product := existing_product column_mapping row in
                  if PyStr.truthy (dict_get "brand_name" product)
                     || PyStr.truthy (dict_get "product_name" product)
                  then processed_existing ++ [product]
                  else processed_existing
                else processed_existing)
             [] (tail existing_data))
  else Returns [].

(** A record has a brand or a product name. *)
Definition named (product : gmap string string) : Prop :=
  dict_get "brand_name" product <> EmptyString
  \/ dict_get "product_name" product <> EmptyString.

(** What is read back for [product] from the row written for it: its
    values under the mapped fields, and the source of the sheet reader. *)
Definition read_back (column_mapping : gmap string nat)
    (product : gmap string string) : gmap string string :=
  <["source" := "Existing"]>
    (map_imap (fun field_name _ => Some (dict_get field_name product)) column_mapping).
End Restorer.

(** ** Double precision

    A Python [float] is a binary64 number. [Binary64] takes a finite one
    as the rational that it denotes, so that comparing two floats is
    comparing them in [Q], and an arithmetic operation is the exact
    operation followed by [round], the rounding to the nearest double with
    ties to the even significand. The scripts stay far below the largest
    double; what lies beyond it is not modelled. *)

Module Binary64.

(** The bits of a significand, and the exponent of the least positive
    double [2^-1074]. *)
Definition prec : Z := 53%Z.
Definition emin : Z := (-1074)%Z.

Definition pow2 (e : Z) : Q := Qpower (2 # 1) e.

(** The integer [k] with [2^k <= n/d < 2^(k+1)]. *)
Definition floor_log2 (n d : positive) : Z :=
  let k := (Z.log2 (Zpos n) - Z.log2 (Zpos d))%Z in
  if Qle_bool (pow2 k) (Zpos n # d) then k else (k - 1)%Z.

(** The nearest integer, the even one of two that are as near. *)
Definition round_half_even (x : Q) : Z :=
  let f := Qfloor x in
  match Qcompare (x - inject_Z f) (1 # 2) with
  | Lt => f
  | Gt => (f + 1)%Z
  | Eq => if Z.even f then f else (f + 1)%Z
  end.

(** The double nearest to [n/d]: a multiple of [2^e], where [e] leaves 53
    bits to the significand, or is [emin] for a subnormal. *)
Definition round_pos (n d : positive) : Q :=
  let e := Z.max (floor_log2 n d - (prec - 1)) emin in
  Qred (inject_Z (round_half_even ((Zpos n # d) / pow2 e)) * pow2 e).

Definition round (q : Q) : Q :=
  match Qnum q with
  | Z0 => 0%Q
  | Zpos n => round_pos n (Qden q)
  | Zneg n => (- round_pos n (Qden q))%Q
  end.

(** [x + y], [x / y] and [float(n)] *)
Definition add (x y : Q) : Q := round (x + y).
Definition div (x y : Q) : Q := round (x / y).
Definition of_nat (n : nat) : Q := round (inject_Z (Z.of_nat n)).

End Binary64.

(** ** The reconciler in double precision ([AlcoholBackupRestorer])

    [Restorer] above scores with exact rationals. The interpreter rounds:
    the ratio of [difflib], every partial sum of [sum(field_scores)], the
    quotient by [len(field_scores)] and the threshold written in [CONFIG]
    are doubles, and two records whose exact averages are equal can have
    averages that differ in the last bit. [FloatRestorer] follows the
    interpreter; [sum] adds from left to right. What does not compute with
    floats is taken from [Restorer]. *)

Module FloatRestorer.
Section Defs.
Variable cfg : Config.t.

(** [CONFIG["fuzzy_match_threshold"]], a float literal. *)
Definition fuzzy_match_threshold : Q :=
  Binary64.round (Config.fuzzy_match_threshold cfg).

Definition calculate_similarity (str1 str2 : string) : Q :=
  if negb (PyStr.truthy str1) || negb (PyStr.truthy str2) then 0%Q
  else
    let str1_norm := PyStr.strip (PyStr.lower str1) in
    let str2_norm := PyStr.strip (PyStr.lower str2) in
    if String.eqb str1_norm str2_norm then 1%Q
    else Binary64.round (Difflib.ratio str1_norm str2_norm).

(** [sum(field_scores) / len(field_scores) if field_scores else 0.0] *)
Definition average (field_scores : list Q) : Q :=
  match field_scores with
  | [] => 0%Q
  | _ :: _ =>
      Binary64.div (foldl Binary64.add 0%Q field_scores)
                   (Binary64.of_nat (length field_scores))
  end.

Definition avg_score (current_product backup_product : gmap string string) : Q :=
  average
    (map (fun field =>
            calculate_similarity (dict_get field current_product)
                                 (dict_get field backup_product))
         (Config.fuzzy_match_fields cfg)).

Fixpoint best_match_from (current_product : gmap string string)
    (backup_products : list (gmap string string))
    (best_match : option (gmap string string)) (best_score : Q)
    : option (gmap string string) * Q :=
  match backup_products with
  | [] => (best_match, best_score)
  | backup_product :: backup_products' =>
      let avg := avg_score current_product backup_product in
      if Qgtb avg best_score && Qgeb avg fuzzy_match_threshold
      then best_match_from current_product backup_products' (Some backup_product) avg
      else best_match_from current_product backup_products' best_match best_score
  end.

Definition find_best_match (current_product : gmap string string)
    (backup_products : list (gmap string string))
    : option (gmap string string) * Q :=
  best_match_from current_product backup_products None 0%Q.

(** The body of [for current_product in current_products]. *)
Definition restore_product (backup_products : list (gmap string string))
    (current_product : gmap string string) : gmap string string :=
  let '(best_match, score) := find_best_match current_product backup_products in
  match best_match with
  | Some best_match =>
      if bool_decide (best_match ≠ ∅) && Qgeb score fuzzy_match_threshold
      then Restorer.restore_field "descriptors" best_match
             (Restorer.restore_field "gluten_free_score" best_match current_product)
      else current_product
  | None => current_product
  end.

Definition restore_from_backup (current_products : list (gmap string string))
    (backup_data : list (list string)) (backup_column_mapping : gmap string nat)
    : outcome (list (gmap string string)) :=
  backup_products ←
    (if 1 <? length backup_data
     then Restorer.backup_rows (tail backup_data) backup_column_mapping []
     else Returns []);
  Returns (map (restore_product backup_products) current_products).

(** The choice of the design among [backup_products], with the averages
    and the threshold of the interpreter: the first record with the
    highest average, provided that average reaches the threshold and is
    above zero; no record otherwise, with score zero. *)
Definition selected (current_product : gmap string string)
    (backup_products : list (gmap string string))
    (result : option (gmap string string) * Q) : Prop :=
  match result.1 with
  | Some b =>
      result.2 = avg_score current_product b
      /\ (exists before after,
            backup_products = before ++ b :: after
            /\ (forall x, x ∈ before ->
                  (avg_score current_product x < avg_score current_product b)%Q)
            /\ (forall x, x ∈ after ->
                  (avg_score current_product x <= avg_score current_product b)%Q))
      /\ (fuzzy_match_threshold <= avg_score current_product b)%Q
      /\ (0 < avg_score current_product b)%Q
  | None =>
      result.2 = 0%Q
      /\ forall x, x ∈ backup_products ->
           ~ ((0 < avg_score current_product x)%Q
              /\ (fuzzy_match_threshold <= avg_score current_product x)%Q)
  end.

End Defs.

(** The records that [restore_from_backup] reads from the backup sheet:
    one for every row after the header that has a cell under each mapped
    column, with the cells under the mapped columns. *)
Definition backup_products (backup_data : list (list string))
    (backup_column_mapping : gmap string nat) : list (gmap string string) :=
  map (fun row =>
         (fun col_idx => default EmptyString (row !! col_idx)) <$> backup_column_mapping)
      (filter (fun row =>
                 map_Forall (fun _ col_idx => col_idx < length row) backup_column_mapping)
              (tail backup_data)).

End FloatRestorer.

(** ** The orchestrator ([alcohol_data_integrity_main.py])

    The steps of [AlcoholDataIntegrityOrchestrator] that work on the
    catalogue in memory. *)

Module Orchestrator.
Section Defs.
Variable cfg : Config.t.
Variable flags : Config.flags.

Definition run_exact_duplicate_removal (products : list (gmap string string))
    : outcome (list (gmap string string)) :=
  if negb (Config.run_exact_duplicate_removal flags) then Returns products
  else Processor.remove_duplicates id cfg products true.

Definition run_duplicate_detection (products : list (gmap string string))
    : outcome (list (gmap string string)) :=
  if negb (Config.run_duplicate_detection flags) then Returns products
  else
    let duplicates :=
      Processor.find_duplicates id cfg products
        (Config.use_exact_duplicate_matching flags) in
    match duplicates with
    | _ :: _ => Processor.merge_duplicates id duplicates
    | [] => Returns products
    end.

Definition run_brand_normalization (products : list (gmap string string))
    : outcome (list (gmap string string)) :=
  if negb (Config.run_brand_normalization flags) then Returns products
  else Brands.normalize_brand_alternatives products.

End Defs.
End Orchestrator.

(** ** Records used in the scenarios *)

Module Scenario.

Definition record (brand_name product_name : string) : gmap string string :=
  list_to_map [("brand_name", brand_name); ("product_name", product_name)].

Definition smirnoff_750 := record "Smirnoff" "Vodka 750ml".
Definition smirnoff_750_caps := record "SMIRNOFF" "vodka 750ml".
Definition smirnoff_1l := record "Smirnoff" "Vodka 1L".

Definition baileys := record "Baileys" "Original".
Definition baileys_apostrophe := record "Bailey's" "Original".

(** Two records of the primary source that differ in the product name only. *)
Definition vodka_short : gmap string string :=
  list_to_map [("source", "LCBO"); ("brand_name", "Smirnoff"); ("product_name", "Vodka");
               ("image_url", "http://img/1"); ("price", "29.95")].
Definition vodka_long : gmap string string :=
  list_to_map [("source", "LCBO"); ("brand_name", "Smirnoff");
               ("product_name", "Vodka 750ml");
               ("image_url", "http://img/1"); ("price", "29.95")].

(** A cluster in which the record with an image is given last: sorting
    brings it to the front as the base, and the other two follow by the
    length of their names, not in the order in which they were given. *)
Definition priced_long : gmap string string :=
  list_to_map [("brand_name", "Acme"); ("product_name", "Dry Gin 750ml"); ("price", "5")].
Definition priced_short : gmap string string :=
  list_to_map [("brand_name", "Acme"); ("product_name", "Dry Gin"); ("price", "6")].
Definition pictured : gmap string string :=
  list_to_map [("brand_name", "Acme"); ("product_name", "Dry Gin 75");
               ("image_url", "http://img/2")].

(** Three records of one brand: the second and the third are each one
    letter away from the first, and two letters away from each other. *)
Definition star_centre := record "Acme" "abcdefghij".
Definition star_left := record "Acme" "Xbcdefghij".
Definition star_right := record "Acme" "abcdefghiY".

Definition nameless_1 := record EmptyString "Vodka 750ml".
Definition nameless_2 := record EmptyString "Vodka 750 ml".

(** Two records with different keys whose brand, bar and product name read
    the same: the bar is inside the brand of the first and inside the
    product name of the second. *)
Definition split_left := record "Acme |Dry" "Gin".
Definition split_right := record "Acme " "Dry|Gin".

(** A current record and two backup records. The similarities of the first
    are 1 and 7/10, those of the second 9/10 and 8/10: the exact averages
    are both 17/20. *)
Definition tie_current := record "abcdefghij" "abcdefghij".
Definition tie_first : gmap string string :=
  list_to_map [("brand_name", "abcdefghij"); ("product_name", "abcdefgxyz");
               ("descriptors", "of the first")].
Definition tie_second : gmap string string :=
  list_to_map [("brand_name", "abcdefghix"); ("product_name", "abcdefghxy");
               ("descriptors", "of the second")].

(** A configuration with the threshold 0.9, and a backup record whose
    similarities to the current record are 17/20 and 19/20: the exact
    average is 9/10. *)
Definition strict : Config.t := {|
    Config.similarity_threshold := 9 # 10;
    Config.fuzzy_match_threshold := 9 # 10;
    Config.fuzzy_match_fields := ["brand_name"; "product_name"]
  |}.
Definition edge_current := record "abcdefghijklmnopqrst" "abcdefghijklmnopqrst".
Definition edge_backup : gmap string string :=
  list_to_map [("brand_name", "abcdefghijklmnopqxyz");
               ("product_name", "abcdefghijklmnopqrsz");
               ("descriptors", "of the backup")].

End Scenario.

(** * Properties *)

(** ** Facts on the string operations *)

Lemma truthy_false (s : string) : PyStr.truthy s = false -> s = EmptyString.
Proof. destruct s; [reflexivity | discriminate]. Qed.

Lemma truthy_true (s : string) : PyStr.truthy s = true -> s <> EmptyString.
Proof. destruct s; [discriminate | congruence]. Qed.

Lemma rstrip_idempotent (s : string) : PyStr.rstrip (PyStr.rstrip s) = PyStr.rstrip s.
Proof.
  induction s as [|c s IH]; simpl; [reflexivity|].
  destruct (PyStr.rstrip s) as [|d t] eqn:E.
  - destruct (PyStr.isspace c) eqn:Ec; simpl; [reflexivity|].
    rewrite Ec. reflexivity.
  - change (PyStr.rstrip (String c (String d t)))
      with (match PyStr.rstrip (String d t) with
            | EmptyString =>
                if PyStr.isspace c then EmptyString else String c EmptyString
            | t' => String c t'
            end).
    rewrite IH. reflexivity.
Qed.

(** A string that does not start with a blank keeps its head under [rstrip]. *)
Lemma lstrip_rstrip_head (c : ascii) (s : string) :
  PyStr.isspace c = false ->
  PyStr.lstrip (PyStr.rstrip (String c s)) = PyStr.rstrip (String c s).
Proof.
  intros Hc. cbn [PyStr.rstrip].
  destruct (PyStr.rstrip s); [rewrite Hc|]; simpl; rewrite Hc; reflexivity.
Qed.

Lemma lstrip_head (s : string) :
  PyStr.lstrip s = EmptyString \/
  exists c t, PyStr.lstrip s = String c t /\ PyStr.isspace c = false.
Proof.
  induction s as [|c s IH]; simpl; [left; reflexivity|].
  destruct (PyStr.isspace c) eqn:Ec; [exact IH|].
  right. exists c, s. split; [reflexivity | exact Ec].
Qed.

Lemma strip_idempotent (s : string) : PyStr.strip (PyStr.strip s) = PyStr.strip s.
Proof.
  unfold PyStr.strip.
  destruct (lstrip_head s) as [E | (c & t & E & Hc)]; rewrite E.
  - reflexivity.
  - rewrite (lstrip_rstrip_head c t Hc). apply rstrip_idempotent.
Qed.

(** ** Subcategory normalisation: the canonical names are fixed points *)

Lemma table_get_In (k : string) (d : list (string * string)) (v : string) :
  table_get k d = Some v -> In (k, v) d.
Proof.
  induction d as [|[k' v'] d IH]; simpl; [discriminate|].
  destruct (String.eqb k k') eqn:E.
  - intros [= <-]. apply String.eqb_eq in E. subst. left; reflexivity.
  - intros H. right. apply IH, H.
Qed.

Lemma close_match_In (cleaned : string) (d : list (string * string)) (v : string) :
  close_match cleaned d = Some v -> exists k, In (k, v) d.
Proof.
  induction d as [|[k' v'] d IH]; simpl; [discriminate|].
  destruct (Qgtb _ _).
  - intros [= <-]. exists k'. left; reflexivity.
  - intros H. destruct (IH H) as [k Hk]. exists k. right; exact Hk.
Qed.

Lemma canonical_names_checked :
  forallb (fun kv => String.eqb (normalize_subcategory kv.2) kv.2)
          Config.SUBCATEGORY_NORMALIZATIONS = true.
Proof. vm_compute. reflexivity. Qed.

Lemma canonical_name_fixed (k v : string) :
  In (k, v) Config.SUBCATEGORY_NORMALIZATIONS -> normalize_subcategory v = v.
Proof.
  intros H. pose proof canonical_names_checked as F.
  rewrite forallb_forall in F. specialize (F _ H). simpl in F.
  apply String.eqb_eq, F.
Qed.

(** What a call of [normalize_subcategory] can return. *)
Lemma normalize_subcategory_cases (x : string) :
  normalize_subcategory x = EmptyString
  \/ (exists k, In (k, normalize_subcategory x) Config.SUBCATEGORY_NORMALIZATIONS)
  \/ (normalize_subcategory x = PyStr.strip x
      /\ table_get (PyStr.strip x) Config.SUBCATEGORY_NORMALIZATIONS = None
      /\ close_match (PyStr.strip x) Config.SUBCATEGORY_NORMALIZATIONS = None).
Proof.
  unfold normalize_subcategory, normalize_subcategory_with.
  destruct (PyStr.truthy x); cbn [negb]; [|left; reflexivity].
  destruct (table_get (PyStr.strip x) _) as [v|] eqn:E1.
  - right; left. exists (PyStr.strip x). apply table_get_In, E1.
  - destruct (close_match (PyStr.strip x) _) as [v|] eqn:E2.
    + right; left. apply (close_match_In (PyStr.strip x)), E2.
    + right; right. auto.
Qed.

(** C7. Subcategory normalisation is idempotent on every string, for the
    alias table shipped in the configuration. *)
Theorem normalize_subcategory_idempotent (x : string) :
  normalize_subcategory (normalize_subcategory x) = normalize_subcategory x.
Proof.
  destruct (normalize_subcategory_cases x) as [E | [[k Hk] | (E & E1 & E2)]].
  - rewrite E. reflexivity.
  - apply (canonical_name_fixed k), Hk.
  - rewrite E. unfold normalize_subcategory, normalize_subcategory_with.
    destruct (PyStr.truthy (PyStr.strip x)) eqn:T; cbn [negb].
    + rewrite strip_idempotent, E1, E2. reflexivity.
    + symmetry. apply truthy_false, T.
Qed.

(** ** The grouping loop *)

Section GroupingFacts.
Context {A : Type}.
Variable key : A -> option string.

Lemma group_add_concat (k : string) (x : A) (G : list (string * list A)) :
  concat (map snd (group_add k x G)) ≡ₚ x :: concat (map snd G).
Proof.
  induction G as [|[k' xs] G IH]; simpl; [reflexivity|].
  destruct (String.eqb k k'); simpl.
  - rewrite <- app_assoc. simpl. symmetry. apply Permutation_middle.
  - rewrite IH. symmetry. apply Permutation_middle.
Qed.

Lemma group_add_ok (l : list A) (k : string) (x : A) (G : list (string * list A)) :
  key x = Some k ->
  Forall (group_ok key l) G -> Forall (group_ok key (l ++ [x])) (group_add k x G).
Proof.
  intros Hk. induction G as [|[k' xs] G IH]; intros HG; simpl.
  - constructor; [|constructor]. repeat split; simpl.
    + discriminate.
    + apply sublist_inserts_l. reflexivity.
    + constructor; [exact Hk | constructor].
  - apply Forall_cons in HG as [(Hne & Hsub & Hkeys) HG]. simpl in *.
    destruct (String.eqb k k') eqn:E.
    + apply String.eqb_eq in E. subst k'.
      constructor.
      * repeat split; simpl.
        -- destruct xs; discriminate.
        -- apply sublist_app; [exact Hsub | reflexivity].
        -- apply Forall_app. split; [exact Hkeys|]. constructor; [exact Hk | constructor].
      * eapply Forall_impl; [exact HG|].
        intros g (H1 & H2 & H3). repeat split; auto.
        apply sublist_inserts_r, H2.
    + constructor.
      * repeat split; simpl; auto. apply sublist_inserts_r, Hsub.
      * apply IH, HG.
Qed.

Lemma grouped_snoc (l : list A) (x : A) :
  grouped key (l ++ [x]) =
  match key x with
  | Some k => group_add k x (grouped key l)
  | None => grouped key l
  end.
Proof. unfold grouped. rewrite foldl_snoc. reflexivity. Qed.

Lemma grouped_ok (l : list A) : Forall (group_ok key l) (grouped key l).
Proof.
  induction l as [|x l IH] using rev_ind; [constructor|].
  rewrite grouped_snoc. destruct (key x) as [k|] eqn:E.
  - apply group_add_ok; assumption.
  - eapply Forall_impl; [exact IH|].
    intros g (H1 & H2 & H3). repeat split; auto.
    apply sublist_inserts_r, H2.
Qed.

Lemma grouped_concat (l : list A) :
  concat (map snd (grouped key l)) ≡ₚ filter (fun x => is_Some (key x)) l.
Proof.
  induction l as [|x l IH] using rev_ind; [reflexivity|].
  rewrite grouped_snoc, filter_app.
  destruct (key x) as [k|] eqn:E.
  - rewrite group_add_concat, IH.
    rewrite filter_cons_True by (rewrite E; eauto). simpl.
    apply Permutation_cons_append.
  - rewrite IH. rewrite filter_cons_False by (rewrite E; intros [? ?]; discriminate).
    simpl. rewrite app_nil_r. reflexivity.
Qed.

Lemma grouped_NoDup (l : list A) : NoDup l -> NoDup (concat (map snd (grouped key l))).
Proof.
  intros H. rewrite grouped_concat. apply NoDup_filter, H.
Qed.

End GroupingFacts.

(** ** Exact-mode duplicate detection *)

Section ExactFacts.
Context {Obj : Type}.
Variable fields : Obj -> gmap string string.

Lemma keep_long_groups (G : list (string * list Obj)) (acc : list (list Obj)) :
  foldl (fun exact_duplicates '(key, product_group) =>
           if 1 <? length product_group
           then exact_duplicates ++ [product_group]
           else exact_duplicates) acc G
  = acc ++ filter (fun g => 1 < length g) (map snd G).
Proof.
  revert acc. induction G as [|[k xs] G IH]; intros acc; simpl.
  - rewrite app_nil_r. reflexivity.
  - rewrite IH. destruct (Nat.ltb_spec 1 (length xs)).
    + rewrite filter_cons_True by assumption. rewrite <- app_assoc. reflexivity.
    + rewrite filter_cons_False by lia. reflexivity.
Qed.

Lemma find_exact_duplicates_filter (products : list Obj) :
  find_exact_duplicates fields products
  = filter (fun g => 1 < length g) (map snd (exact_groups fields products)).
Proof. unfold find_exact_duplicates. apply keep_long_groups. Qed.

Lemma lower_truthy (s : string) : PyStr.truthy (PyStr.lower s) = PyStr.truthy s.
Proof. destruct s; reflexivity. Qed.

Lemma exact_key_Some (p : Obj) (k : string) :
  exact_key fields p = Some k ->
  k = String.append (PyStr.lower (PyStr.strip (get fields "brand_name" p)))
        (String.append "|" (PyStr.lower (PyStr.strip (get fields "product_name" p))))
  /\ PyStr.strip (get fields "brand_name" p) <> EmptyString
  /\ PyStr.strip (get fields "product_name" p) <> EmptyString.
Proof.
  unfold exact_key. rewrite !lower_truthy.
  destruct (PyStr.truthy (PyStr.strip (get fields "brand_name" p))) eqn:E1; [|discriminate].
  destruct (PyStr.truthy (PyStr.strip (get fields "product_name" p))) eqn:E2; [|discriminate].
  simpl. intros [= <-]. auto using truthy_true.
Qed.

Lemma concat_filter_sublist {B : Type} (P : list B -> Prop) `{forall x, Decision (P x)}
    (ls : list (list B)) :
  sublist (concat (filter P ls)) (concat ls).
Proof.
  induction ls as [|l ls IH]; simpl; [constructor|].
  destruct (decide (P l)).
  - rewrite filter_cons_True by assumption. simpl. apply sublist_app; [reflexivity | exact IH].
  - rewrite filter_cons_False by assumption. apply sublist_inserts_l, IH.
Qed.

End ExactFacts.

(** C4. Exact mode keys every record by the lower-cased trimmed brand, a bar
    and the lower-cased trimmed product name. Every returned cluster has at
    least two records, all under one such key, none with a brand or a product
    name that is empty after trimming, and taken in the order of the input;
    no record is in two clusters. The three Smirnoff records give exactly one
    cluster, made of the first two. *)
Theorem exact_duplicates_partition :
  (forall (Obj : Type) (fields : Obj -> gmap string string) (products : list Obj),
     NoDup products ->
     (forall cluster, cluster ∈ find_exact_duplicates fields products ->
        2 <= length cluster
        /\ sublist cluster products
        /\ exists key, forall p, p ∈ cluster ->
             key = String.append (PyStr.lower (PyStr.strip (get fields "brand_name" p)))
                     (String.append "|"
                        (PyStr.lower (PyStr.strip (get fields "product_name" p))))
             /\ PyStr.strip (get fields "brand_name" p) <> EmptyString
             /\ PyStr.strip (get fields "product_name" p) <> EmptyString)
     /\ NoDup (concat (find_exact_duplicates fields products)))
  /\ find_exact_duplicates id
       [Scenario.smirnoff_750; Scenario.smirnoff_750_caps; Scenario.smirnoff_1l]
     = [[Scenario.smirnoff_750; Scenario.smirnoff_750_caps]].
Proof.
  split; [|vm_compute; reflexivity].
  intros Obj fields products Hnd. rewrite find_exact_duplicates_filter. split.
  - intros cluster Hin. apply list_elem_of_filter in Hin as [Hlen Hin].
    apply list_elem_of_fmap in Hin as ([k xs] & -> & Hin). simpl in *.
    pose proof (grouped_ok (exact_key fields) products) as Hok.
    rewrite Forall_forall in Hok. destruct (Hok _ Hin) as (_ & Hsub & Hkeys).
    simpl in *. split; [lia|]. split; [exact Hsub|].
    exists k. intros p Hp. rewrite Forall_forall in Hkeys.
    apply exact_key_Some, Hkeys, Hp.
  - eapply sublist_NoDup; [|apply concat_filter_sublist].
    apply grouped_NoDup, Hnd.
Qed.

(** The hypothesis of C4 holds of the three Smirnoff records. *)
Lemma exact_duplicates_partition_witness :
  NoDup [Scenario.smirnoff_750; Scenario.smirnoff_750_caps; Scenario.smirnoff_1l]
  /\ NoDup (concat (find_exact_duplicates id
       [Scenario.smirnoff_750; Scenario.smirnoff_750_caps; Scenario.smirnoff_1l])).
Proof.
  assert (H : NoDup [Scenario.smirnoff_750; Scenario.smirnoff_750_caps;
                     Scenario.smirnoff_1l]).
  { apply (bool_decide_unpack (NoDup _)). vm_compute. exact I. }
  split; [exact H|].
  apply (proj1 exact_duplicates_partition (gmap string string) id _ H).
Defined.

(** ** Fuzzy-mode duplicate detection *)

Lemma elem_of_concat {B : Type} (x : B) (ls : list (list B)) :
  x ∈ concat ls <-> exists l, l ∈ ls /\ x ∈ l.
Proof.
  rewrite list_elem_of_In, in_concat. split.
  - intros (l & H1 & H2). exists l. rewrite !list_elem_of_In. auto.
  - intros (l & H1 & H2). exists l. rewrite <- !list_elem_of_In. auto.
Qed.

Lemma sublist_fmap {B C : Type} (f : B -> C) (l k : list B) :
  sublist l k -> sublist (f <$> l) (f <$> k).
Proof. induction 1; simpl; constructor; assumption. Qed.

Lemma sublist_filter_all {B : Type} (P : B -> Prop) `{forall x, Decision (P x)}
    (l k : list B) :
  sublist l k -> Forall P l -> sublist l (filter P k).
Proof.
  induction 1 as [|x l k Hs IH|x l k Hs IH]; intros HP.
  - constructor.
  - apply Forall_cons in HP as [Hx HP].
    rewrite filter_cons_True by assumption. constructor. auto.
  - destruct (decide (P x)).
    + rewrite filter_cons_True by assumption. constructor. auto.
    + rewrite filter_cons_False by assumption. auto.
Qed.

Lemma snd_unique {B C : Type} (l : list (B * C)) (a b : B) (x : C) :
  NoDup l.*2 -> (a, x) ∈ l -> (b, x) ∈ l -> a = b.
Proof.
  induction l as [|[c y] l IH]; simpl; intros Hnd Ha Hb.
  - inversion Ha.
  - apply NoDup_cons in Hnd as [Hy Hnd].
    apply elem_of_cons in Ha as [Ha | Ha];
      apply elem_of_cons in Hb as [Hb | Hb]; simplify_eq; auto.
    + exfalso. apply Hy. apply (list_elem_of_fmap_2 snd) in Hb. exact Hb.
    + exfalso. apply Hy. apply (list_elem_of_fmap_2 snd) in Ha. exact Ha.
Qed.

Lemma enumerate_fst {B : Type} (l : list B) : (enumerate l).*1 = seq 0 (length l).
Proof. unfold enumerate. apply fst_zip. rewrite length_seq. reflexivity. Qed.

Lemma enumerate_snd {B : Type} (l : list B) : (enumerate l).*2 = l.
Proof. unfold enumerate. apply snd_zip. rewrite length_seq. reflexivity. Qed.

Section FuzzyFacts.
Context {Obj : Type}.
Variable fields : Obj -> gmap string string.
Variable cfg : Config.t.

(** The inner loop appends, in order, records that were not yet processed
    and are similar to [product1], and marks exactly those. *)
Lemma collect_spec (product1 : Obj) (later : list (nat * Obj))
    (processed : gset nat) (similar_products : list Obj) :
  exists picked processed',
    collect fields cfg product1 later processed similar_products
      = (similar_products ++ picked.*2, processed')
    /\ (forall j, j ∈ processed' <-> j ∈ picked.*1 \/ j ∈ processed)
    /\ sublist picked later
    /\ Forall (fun jp => (jp.1 ∉ processed)
                         /\ similar_names fields cfg product1 jp.2 = true) picked.
Proof.
  revert processed similar_products.
  induction later as [|[j product2] later IH]; intros processed similar_products; simpl.
  - exists [], processed. rewrite app_nil_r. repeat split; auto; try constructor.
    intros [H|H]; [inversion H | exact H].
  - destruct (decide (j ∈ processed)) as [Hj|Hj].
    + destruct (IH processed similar_products) as (picked & pr & E & Hpr & Hsub & Hall).
      exists picked, pr. repeat split; auto; try apply Hpr. constructor. exact Hsub.
    + destruct (similar_names fields cfg product1 product2) eqn:Hsim.
      * destruct (IH ({[j]} ∪ processed) (similar_products ++ [product2]))
          as (picked & pr & E & Hpr & Hsub & Hall).
        exists ((j, product2) :: picked), pr. split; [|split; [|split]].
        -- rewrite E, <- app_assoc. reflexivity.
        -- intros i. rewrite Hpr. simpl. rewrite elem_of_cons. set_solver.
        -- constructor. exact Hsub.
        -- constructor; [auto|]. eapply Forall_impl; [exact Hall|].
           simpl. intros jp [H1 H2]. split; [set_solver | exact H2].
      * destruct (IH processed similar_products) as (picked & pr & E & Hpr & Hsub & Hall).
        exists picked, pr. repeat split; auto; try apply Hpr. constructor. exact Hsub.
Qed.

(** The outer loop over one bucket. *)
Lemma sweep_spec (items : list (nat * Obj)) (processed : gset nat)
    (duplicates : list (list Obj)) :
  NoDup items.*2 ->
  exists new,
    sweep fields cfg items processed duplicates = duplicates ++ new
    /\ Forall (star_shaped fields cfg) new
    /\ Forall (fun c => sublist c items.*2) new
    /\ NoDup (concat new)
    /\ forall x, x ∈ concat new -> exists i, (i, x) ∈ items /\ i ∉ processed.
Proof.
  revert processed duplicates.
  induction items as [|[i product1] later IH]; intros processed duplicates Hnd; simpl.
  - exists []. rewrite app_nil_r. repeat split; try constructor.
    intros x Hx. inversion Hx.
  - simpl in Hnd. apply NoDup_cons in Hnd as [Hfresh Hnd].
    assert (Hlift : forall (pr : gset nat) new,
               processed ⊆ pr ->
               Forall (fun c => sublist c later.*2) new ->
               (forall x, x ∈ concat new -> exists i, (i, x) ∈ later /\ i ∉ pr) ->
               Forall (fun c => sublist c (product1 :: later.*2)) new
               /\ forall x, x ∈ concat new ->
                    exists i0, (i0, x) ∈ (i, product1) :: later /\ i0 ∉ processed).
    { intros pr new Hpr H1 H2. split.
      - eapply Forall_impl; [exact H1|]. intros c Hc. constructor. exact Hc.
      - intros x Hx. destruct (H2 x Hx) as (i0 & Hi0 & Hn).
        exists i0. split; [right; exact Hi0 | set_solver]. }
    destruct (decide (i ∈ processed)) as [Hi|Hi].
    + destruct (IH processed duplicates Hnd) as (new & E & Hstar & Hsub & Hnd' & Hfrom).
      exists new. destruct (Hlift processed new) as [H1 H2]; auto.
    + destruct (collect_spec product1 later processed [product1])
        as (picked & pr & E & Hpr & Hsub & Hall).
      rewrite E. simpl.
      destruct picked as [|[j product2] picked].
      * simpl.
        destruct (IH pr duplicates Hnd) as (new & E' & Hstar & Hsub' & Hnd' & Hfrom).
        exists new. destruct (Hlift pr new) as [H1 H2]; auto.
        intros x Hx. apply Hpr. right. exact Hx.
      * simpl.
        destruct (IH ({[i]} ∪ pr) (duplicates ++ [product1 :: product2 :: picked.*2]) Hnd)
          as (new & E' & Hstar & Hsub' & Hnd' & Hfrom).
        exists ((product1 :: product2 :: picked.*2) :: new).
        destruct (Hlift ({[i]} ∪ pr) new) as [H1 H2]; auto.
        { intros x Hx. apply elem_of_union. right. apply Hpr. right. exact Hx. }
        assert (Hsub2 : sublist (product2 :: picked.*2) later.*2).
        { apply (sublist_fmap snd) in Hsub. exact Hsub. }
        split; [|split; [|split; [|split]]].
        -- etrans; [exact E'|]. rewrite <- app_assoc. reflexivity.
        -- constructor; [|exact Hstar].
           change (Forall (fun m => similar_names fields cfg product1 m = true)
                     (((j, product2) :: picked).*2)).
           apply Forall_fmap. eapply Forall_impl; [exact Hall|].
           intros jp [_ H]. exact H.
        -- constructor; [|exact H1]. constructor. exact Hsub2.
        -- change (NoDup ((product1 :: product2 :: picked.*2) ++ concat new)).
           apply NoDup_app. split; [|split; [|exact Hnd']].
           ++ apply NoDup_cons. split.
              ** intros Hin. apply Hfresh. eapply elem_of_sublist; eassumption.
              ** eapply sublist_NoDup; [exact Hnd | exact Hsub2].
           ++ intros x Hx Hx'. destruct (Hfrom x Hx') as (i0 & Hi0 & Hn).
              apply elem_of_cons in Hx as [-> | Hx].
              ** apply Hfresh. apply (list_elem_of_fmap_2 snd) in Hi0. exact Hi0.
              ** change (x ∈ ((j, product2) :: picked).*2) in Hx.
                 apply list_elem_of_fmap in Hx as ([j0 y] & -> & Hy). simpl in *.
                 assert (j0 = i0).
                 { eapply snd_unique; [exact Hnd | | exact Hi0].
                   eapply elem_of_sublist; eassumption. }
                 subst j0. apply Hn. apply elem_of_union. right. apply Hpr. left.
                 apply (list_elem_of_fmap_2 fst) in Hy. exact Hy.
        -- intros x Hx. change (x ∈ (product1 :: product2 :: picked.*2) ++ concat new) in Hx.
           apply elem_of_app in Hx as [Hx | Hx]; [|apply H2, Hx].
           apply elem_of_cons in Hx as [-> | Hx].
           ++ exists i. split; [left | exact Hi].
           ++ change (x ∈ ((j, product2) :: picked).*2) in Hx.
              apply list_elem_of_fmap in Hx as ([j0 y] & -> & Hy). simpl.
              exists j0. split.
              ** right. eapply elem_of_sublist; eassumption.
              ** rewrite Forall_forall in Hall. apply (Hall _ Hy).
Qed.

End FuzzyFacts.

Section FuzzyClusters.
Context {Obj : Type}.
Variable fields : Obj -> gmap string string.
Variable cfg : Config.t.

(** The loop over the buckets. *)
Lemma fuzzy_buckets_spec (buckets : list (string * list Obj)) (acc : list (list Obj)) :
  NoDup (concat (map snd buckets)) ->
  exists new,
    foldl (fun duplicates '(brand, brand_products) =>
             if length brand_products <=? 1 then duplicates
             else sweep fields cfg (enumerate brand_products) ∅ duplicates)
          acc buckets = acc ++ new
    /\ Forall (star_shaped fields cfg) new
    /\ NoDup (concat new)
    /\ Forall (fun c => exists g, g ∈ buckets /\ sublist c g.2) new.
Proof.
  revert acc. induction buckets as [|[k xs] rest IH]; intros acc Hnd; simpl.
  - exists []. rewrite app_nil_r. repeat split; constructor.
  - simpl in Hnd. apply NoDup_app in Hnd as (Hxs & Hdisj & Hrest).
    assert (Hweaken : forall new,
              Forall (fun c => exists g, g ∈ rest /\ sublist c g.2) new ->
              Forall (fun c => exists g, g ∈ (k, xs) :: rest /\ sublist c g.2) new).
    { intros new H. eapply Forall_impl; [exact H|].
      intros c (g & Hg & Hc). exists g. split; [right; exact Hg | exact Hc]. }
    destruct (length xs <=? 1).
    + destruct (IH acc Hrest) as (new & E & Hstar & Hnd' & Hfrom).
      exists new. auto.
    + destruct (sweep_spec fields cfg (enumerate xs) ∅ acc) as (new1 & E1 & Hs1 & Hsub1 & Hnd1 & _).
      { rewrite enumerate_snd. exact Hxs. }
      rewrite enumerate_snd in Hsub1.
      destruct (IH (acc ++ new1) Hrest) as (new2 & E2 & Hs2 & Hnd2 & Hfrom2).
      exists (new1 ++ new2). split; [|split; [|split]].
      * rewrite E1, E2, <- app_assoc. reflexivity.
      * apply Forall_app. auto.
      * rewrite concat_app. apply NoDup_app. split; [exact Hnd1|]. split; [|exact Hnd2].
        intros x Hx1 Hx2. apply (Hdisj x).
        -- apply elem_of_concat in Hx1 as (c & Hc & Hx1).
           rewrite Forall_forall in Hsub1.
           eapply elem_of_sublist; [exact Hx1 | apply Hsub1, Hc].
        -- apply elem_of_concat in Hx2 as (c & Hc & Hx2).
           rewrite Forall_forall in Hfrom2. destruct (Hfrom2 c Hc) as (g & Hg & Hcg).
           apply elem_of_concat. exists g.2. split.
           ++ apply (list_elem_of_fmap_2 snd), Hg.
           ++ eapply elem_of_sublist; eassumption.
      * apply Forall_app. split; [|auto].
        eapply Forall_impl; [exact Hsub1|].
        intros c Hc. exists (k, xs). split; [left | exact Hc].
Qed.

Lemma fuzzy_duplicates_spec (products : list Obj) :
  NoDup products ->
  Forall (star_shaped fields cfg) (fuzzy_duplicates fields cfg products)
  /\ NoDup (concat (fuzzy_duplicates fields cfg products))
  /\ Forall (fun c => sublist c products
                      /\ exists k, Forall (fun p => brand_key fields p = k) c)
            (fuzzy_duplicates fields cfg products).
Proof.
  intros Hnd. unfold fuzzy_duplicates.
  destruct (fuzzy_buckets_spec (brand_buckets fields products) [])
    as (new & E & Hstar & Hnd' & Hfrom).
  { apply grouped_NoDup, Hnd. }
  rewrite E. simpl. split; [exact Hstar|]. split; [exact Hnd'|].
  eapply Forall_impl; [exact Hfrom|].
  intros c (g & Hg & Hc).
  pose proof (grouped_ok (fun p => Some (brand_key fields p)) products) as Hok.
  rewrite Forall_forall in Hok. destruct (Hok g Hg) as (_ & Hsub & Hkeys).
  split; [etrans; eassumption|].
  exists g.1. rewrite Forall_forall in Hkeys |- *.
  intros p Hp. specialize (Hkeys p (elem_of_sublist _ _ _ Hp Hc)).
  congruence.
Qed.

Lemma similar_names_inv (product1 product2 : Obj) :
  similar_names fields cfg product1 product2 = true ->
  get fields "product_name" product1 <> EmptyString
  /\ get fields "product_name" product2 <> EmptyString
  /\ (Config.similarity_threshold cfg
      <= Difflib.ratio (PyStr.lower (get fields "product_name" product1))
                       (PyStr.lower (get fields "product_name" product2)))%Q.
Proof.
  unfold similar_names. rewrite !andb_true_iff, !lower_truthy.
  intros [[H1 H2] H3]. repeat split; try (apply truthy_true; assumption).
  apply Qle_bool_iff, H3.
Qed.

End FuzzyClusters.

(** C3. In fuzzy mode every returned cluster is a first record followed by
    at least one other; its records keep the order of the input and share the
    lower-cased brand, so that the bucket of that brand has more than one
    record; every record after the first has a lower-cased product name whose
    ratio with that of the first is at least the configured threshold; no
    record of a cluster has an empty product name; no record occurs twice in
    the clusters. Both scripts compute the same clusters. *)
Theorem fuzzy_star_clusters (Obj : Type) (fields : Obj -> gmap string string)
    (cfg : Config.t) (products : list Obj) :
  NoDup products ->
  (forall cluster, cluster ∈ Processor.find_duplicates fields cfg products false ->
     exists first others,
       cluster = first :: others /\ others <> []
       /\ sublist cluster products
       /\ (forall m, m ∈ others ->
             (Config.similarity_threshold cfg
              <= Difflib.ratio (PyStr.lower (get fields "product_name" first))
                               (PyStr.lower (get fields "product_name" m)))%Q)
       /\ (forall m, m ∈ cluster ->
             get fields "product_name" m <> EmptyString
             /\ PyStr.lower (get fields "brand_name" m)
                = PyStr.lower (get fields "brand_name" first))
       /\ 1 < length (filter (fun p => PyStr.lower (get fields "brand_name" p)
                                       = PyStr.lower (get fields "brand_name" first))
                             products))
  /\ NoDup (concat (Processor.find_duplicates fields cfg products false))
  /\ Integrity.find_duplicates fields cfg products
     = Processor.find_duplicates fields cfg products false.
Proof.
  intros Hnd. unfold Processor.find_duplicates, Integrity.find_duplicates.
  destruct (fuzzy_duplicates_spec fields cfg products Hnd) as (Hstar & Hnd' & Hfrom).
  split; [|split; [exact Hnd' | reflexivity]].
  intros cluster Hin. rewrite Forall_forall in Hstar, Hfrom.
  specialize (Hstar cluster Hin). destruct (Hfrom cluster Hin) as (Hsub & k & Hk).
  destruct cluster as [|first [|second others]]; simpl in Hstar; try contradiction.
  exists first, (second :: others).
  assert (Hsame : forall m, m ∈ first :: second :: others ->
            PyStr.lower (get fields "brand_name" m)
            = PyStr.lower (get fields "brand_name" first)).
  { rewrite Forall_forall in Hk. intros m Hm.
    change (brand_key fields m = brand_key fields first).
    rewrite (Hk m Hm). symmetry. apply Hk. left. }
  rewrite Forall_forall in Hstar.
  split; [reflexivity|]. split; [discriminate|]. split; [exact Hsub|].
  split; [|split].
  - intros m Hm. apply (similar_names_inv fields cfg), Hstar, Hm.
  - intros m Hm. split; [|apply Hsame, Hm].
    apply elem_of_cons in Hm as [-> | Hm].
    + apply (similar_names_inv fields cfg first second), Hstar. left.
    + apply (similar_names_inv fields cfg first m), Hstar, Hm.
  - apply (sublist_filter_all
             (fun p => PyStr.lower (get fields "brand_name" p)
                       = PyStr.lower (get fields "brand_name" first))) in Hsub.
    + apply sublist_length in Hsub. simpl in Hsub. lia.
    + apply Forall_forall. exact Hsame.
Qed.

(** The hypothesis of C3 holds of the three Smirnoff records. *)
Lemma fuzzy_star_clusters_witness :
  NoDup [Scenario.smirnoff_750; Scenario.smirnoff_750_caps; Scenario.smirnoff_1l]
  /\ NoDup (concat (Processor.find_duplicates id Config.CONFIG
       [Scenario.smirnoff_750; Scenario.smirnoff_750_caps; Scenario.smirnoff_1l] false)).
Proof.
  assert (H : NoDup [Scenario.smirnoff_750; Scenario.smirnoff_750_caps;
                     Scenario.smirnoff_1l]).
  { apply (bool_decide_unpack (NoDup _)). vm_compute. exact I. }
  split; [exact H|].
  apply (fuzzy_star_clusters (gmap string string) id Config.CONFIG _ H).
Defined.

(** The clusters are stars, not cliques: the second and third record below
    are both within the threshold of the first and join its cluster, while
    their own ratio is under the threshold. *)
Lemma star_not_clique :
  Processor.find_duplicates id Config.CONFIG
    [Scenario.star_centre; Scenario.star_left; Scenario.star_right] false
  = [[Scenario.star_centre; Scenario.star_left; Scenario.star_right]]
  /\ similar_names id Config.CONFIG Scenario.star_left Scenario.star_right = false.
Proof. split; vm_compute; reflexivity. Qed.

(** ** Buckets are determined by their key *)

Section BucketFacts.
Context {A : Type}.
Variable key : A -> option string.

Lemma group_add_keys (k : string) (x : A) (G : list (string * list A)) :
  (group_add k x G).*1 = if bool_decide (k ∈ G.*1) then G.*1 else G.*1 ++ [k].
Proof.
  induction G as [|[k' xs] G IH]; csimpl; [reflexivity|].
  destruct (String.eqb_spec k k') as [->|Hne]; csimpl.
  - rewrite bool_decide_eq_true_2 by left. reflexivity.
  - rewrite IH. destruct (bool_decide (k ∈ G.*1)) eqn:E.
    + apply bool_decide_eq_true_1 in E.
      rewrite bool_decide_eq_true_2 by (right; exact E). reflexivity.
    + apply bool_decide_eq_false_1 in E.
      rewrite bool_decide_eq_false_2; [reflexivity|].
      intros [?|?]%elem_of_cons; auto.
Qed.

Lemma grouped_keys_NoDup (l : list A) : NoDup (grouped key l).*1.
Proof.
  induction l as [|x l IH] using rev_ind; [constructor|].
  rewrite grouped_snoc. destruct (key x) as [k|]; [|exact IH].
  rewrite group_add_keys. destruct (bool_decide (k ∈ (grouped key l).*1)) eqn:E; [exact IH|].
  apply bool_decide_eq_false_1 in E.
  apply NoDup_app. split; [exact IH|]. split.
  - intros y Hy ->%list_elem_of_singleton. auto.
  - apply NoDup_singleton.
Qed.

Lemma fst_unique {B C : Type} (l : list (B * C)) (k : B) (x y : C) :
  NoDup l.*1 -> (k, x) ∈ l -> (k, y) ∈ l -> x = y.
Proof.
  induction l as [|[c z] l IH]; simpl; intros Hnd Ha Hb.
  - inversion Ha.
  - apply NoDup_cons in Hnd as [Hy Hnd].
    apply elem_of_cons in Ha as [Ha | Ha];
      apply elem_of_cons in Hb as [Hb | Hb]; simplify_eq; auto.
    + exfalso. apply Hy. apply (list_elem_of_fmap_2 fst) in Hb. exact Hb.
    + exfalso. apply Hy. apply (list_elem_of_fmap_2 fst) in Ha. exact Ha.
Qed.

(** Every record with a key sits in the one group of that key. *)
Lemma grouped_complete (l : list A) (x : A) (k : string) :
  x ∈ l -> key x = Some k ->
  exists xs, (k, xs) ∈ grouped key l /\ x ∈ xs
             /\ forall ys, (k, ys) ∈ grouped key l -> ys = xs.
Proof.
  intros Hx Hk.
  assert (Hc : x ∈ concat (map snd (grouped key l))).
  { rewrite grouped_concat. apply list_elem_of_filter. split; [rewrite Hk; eauto | exact Hx]. }
  apply elem_of_concat in Hc as (xs & Hxs & Hin).
  apply list_elem_of_fmap in Hxs as ([k' xs'] & -> & Hg). simpl in *.
  pose proof (grouped_ok key l) as Hok. rewrite Forall_forall in Hok.
  destruct (Hok _ Hg) as (_ & _ & Hkeys). simpl in Hkeys.
  rewrite Forall_forall in Hkeys. specialize (Hkeys x Hin).
  assert (k' = k) by congruence. subst k'.
  exists xs'. repeat split; auto.
  intros ys Hys. eapply fst_unique; [apply grouped_keys_NoDup | exact Hys | exact Hg].
Qed.

End BucketFacts.

(** C10. In fuzzy mode the records with an empty brand share the one bucket
    keyed by the empty string, and they are clustered there: the two records
    with an empty brand and the product names "Vodka 750ml" and "Vodka 750 ml",
    whose ratio reaches the shipped threshold, come back as one cluster from
    both scripts, while exact mode returns no cluster for them. *)
Theorem empty_brand_fuzzy_cluster :
  (forall (Obj : Type) (fields : Obj -> gmap string string) (products : list Obj)
          (p q : Obj),
     p ∈ products -> q ∈ products ->
     get fields "brand_name" p = EmptyString ->
     get fields "brand_name" q = EmptyString ->
     exists bucket,
       (EmptyString, bucket) ∈ brand_buckets fields products
       /\ p ∈ bucket /\ q ∈ bucket)
  /\ get id "brand_name" Scenario.nameless_1 = EmptyString
  /\ get id "brand_name" Scenario.nameless_2 = EmptyString
  /\ get id "product_name" Scenario.nameless_1 = "Vodka 750ml"
  /\ get id "product_name" Scenario.nameless_2 = "Vodka 750 ml"
  /\ (Config.similarity_threshold Config.CONFIG
      <= Difflib.ratio "vodka 750ml" "vodka 750 ml")%Q
  /\ Processor.find_duplicates id Config.CONFIG
       [Scenario.nameless_1; Scenario.nameless_2] false
     = [[Scenario.nameless_1; Scenario.nameless_2]]
  /\ Integrity.find_duplicates id Config.CONFIG
       [Scenario.nameless_1; Scenario.nameless_2]
     = [[Scenario.nameless_1; Scenario.nameless_2]]
  /\ Processor.find_duplicates id Config.CONFIG
       [Scenario.nameless_1; Scenario.nameless_2] true = [].
Proof.
  split.
  - intros Obj fields products p q Hp Hq Ep Eq.
    destruct (grouped_complete (fun x => Some (brand_key fields x)) products p EmptyString Hp)
      as (xs & Hxs & Hpx & Huniq).
    { unfold brand_key. rewrite Ep. reflexivity. }
    destruct (grouped_complete (fun x => Some (brand_key fields x)) products q EmptyString Hq)
      as (ys & Hys & Hqy & _).
    { unfold brand_key. rewrite Eq. reflexivity. }
    exists xs. split; [exact Hxs|]. split; [exact Hpx|].
    rewrite <- (Huniq ys Hys). exact Hqy.
  - repeat split; try (vm_compute; reflexivity).
    apply Qle_bool_iff. vm_compute. reflexivity.
Qed.

(** The hypotheses of C10 hold of the two records without a brand. *)
Lemma empty_brand_fuzzy_cluster_witness :
  exists bucket,
    (EmptyString, bucket)
      ∈ brand_buckets id [Scenario.nameless_1; Scenario.nameless_2]
    /\ Scenario.nameless_1 ∈ bucket /\ Scenario.nameless_2 ∈ bucket.
Proof.
  apply (proj1 empty_brand_fuzzy_cluster (gmap string string) id
           [Scenario.nameless_1; Scenario.nameless_2]
           Scenario.nameless_1 Scenario.nameless_2).
  - left.
  - right. left.
  - vm_compute. reflexivity.
  - vm_compute. reflexivity.
Defined.

(** ** The record merger *)

Lemma key_ltb_irrefl (x : list nat) : key_ltb x x = false.
Proof.
  induction x as [|a x IH]; simpl; [reflexivity|].
  rewrite Nat.ltb_irrefl, Nat.eqb_refl, IH. reflexivity.
Qed.

Lemma key_ltb_asym (x y : list nat) : key_ltb x y = true -> key_ltb y x = false.
Proof.
  revert y. induction x as [|a x IH]; intros [|b y]; simpl; try congruence.
  destruct (Nat.ltb_spec a b), (Nat.ltb_spec b a), (Nat.eqb_spec a b),
    (Nat.eqb_spec b a); simpl; try lia; try congruence.
  apply IH.
Qed.

(** The order on keys is total: what is below [z] is below [y], or [y] is
    below [z]. *)
Lemma key_ltb_cotrans (x y z : list nat) :
  key_ltb x z = true -> key_ltb x y = true \/ key_ltb y z = true.
Proof.
  revert y z. induction x as [|a x IH]; intros [|b y] [|c z]; simpl; auto; try discriminate.
  destruct (Nat.ltb_spec a c), (Nat.ltb_spec a b), (Nat.ltb_spec b c),
    (Nat.eqb_spec a c), (Nat.eqb_spec a b), (Nat.eqb_spec b c);
    simpl; auto; try lia; try discriminate.
Qed.

Lemma insert_by_in {A : Type} (key : A -> list nat) (x z : A) (l : list A) :
  In z (insert_by key x l) <-> z = x \/ In z l.
Proof.
  induction l as [|y l IH]; simpl; [intuition congruence|].
  destruct (key_ltb (key y) (key x)); simpl; [rewrite IH|]; intuition congruence.
Qed.

Section SortedFacts.
Context {A : Type}.
Variable key : A -> list nat.

(** [sorted] is Python's [sorted]: its result is in ascending order of the
    key, and records with the same key keep their order. *)
Lemma insert_by_ascending (x : A) (l : list A) :
  StronglySorted (fun u v => key_ltb (key v) (key u) = false) l ->
  StronglySorted (fun u v => key_ltb (key v) (key u) = false) (insert_by key x l).
Proof.
  induction 1 as [|y l Hs IH Hy]; simpl.
  - constructor; constructor.
  - destruct (key_ltb (key y) (key x)) eqn:E.
    + constructor; [exact IH|]. rewrite Forall_forall in Hy |- *.
      intros z Hz. apply list_elem_of_In in Hz.
      rewrite insert_by_in in Hz. destruct Hz as [-> | Hz].
      * apply key_ltb_asym, E.
      * apply Hy, list_elem_of_In, Hz.
    + constructor; [constructor; assumption|]. constructor; [exact E|].
      rewrite Forall_forall in Hy |- *. intros z Hz.
      destruct (key_ltb (key z) (key x)) eqn:E'; [|reflexivity].
      destruct (key_ltb_cotrans _ (key y) _ E') as [H | H]; [|congruence].
      rewrite (Hy z Hz) in H. discriminate.
Qed.

Lemma sorted_ascending (l : list A) :
  StronglySorted (fun u v => key_ltb (key v) (key u) = false) (sorted key l).
Proof.
  induction l as [|x l IH]; simpl; [constructor|]. apply insert_by_ascending, IH.
Qed.

Lemma insert_by_stable (k : list nat) (x : A) (l : list A) :
  filter (fun u => key u = k) (insert_by key x l)
  = filter (fun u => key u = k) (x :: l).
Proof.
  induction l as [|y l IH]; simpl; [reflexivity|].
  destruct (key_ltb (key y) (key x)) eqn:E; [|reflexivity].
  rewrite (filter_cons _ y), IH, !(filter_cons _ x), (filter_cons _ y).
  destruct (decide (key x = k)) as [Hx|Hx], (decide (key y = k)) as [Hy|Hy];
    try reflexivity.
  rewrite Hx, Hy, key_ltb_irrefl in E. discriminate.
Qed.

Lemma sorted_stable (k : list nat) (l : list A) :
  filter (fun u => key u = k) (sorted key l) = filter (fun u => key u = k) l.
Proof.
  induction l as [|x l IH]; simpl; [reflexivity|].
  rewrite insert_by_stable, !filter_cons, IH. reflexivity.
Qed.

Lemma insert_by_perm (x : A) (l : list A) : insert_by key x l ≡ₚ x :: l.
Proof.
  induction l as [|y l IH]; simpl; [reflexivity|].
  destruct (key_ltb (key y) (key x)); [|reflexivity].
  rewrite IH. apply perm_swap.
Qed.

Lemma sorted_perm (l : list A) : sorted key l ≡ₚ l.
Proof.
  induction l as [|x l IH]; simpl; [reflexivity|].
  rewrite insert_by_perm, IH. reflexivity.
Qed.

Lemma sorted_nonempty (l : list A) : l <> [] -> sorted key l <> [].
Proof.
  intros Hl E. apply Hl. pose proof (sorted_perm l) as H.
  rewrite E in H. apply Permutation_nil in H. exact H.
Qed.

End SortedFacts.

Section MergeFacts.
Context {Obj : Type}.
Variable fields : Obj -> gmap string string.

Lemma fill_lookup_ne (k k' : string) (best : gmap string string) (d : Obj) :
  k <> k' -> fill fields k' best d !! k = best !! k.
Proof.
  intros Hne. unfold fill. destruct (_ && _); [|reflexivity].
  apply lookup_insert_ne. congruence.
Qed.

Lemma fill_lookup (k : string) (best : gmap string string) (d : Obj) :
  fill fields k best d !! k =
  if negb (PyStr.truthy (dict_get k best)) && PyStr.truthy (get fields k d)
  then Some (get fields k d) else best !! k.
Proof.
  unfold fill. destruct (_ && _); [|reflexivity]. apply lookup_insert_eq.
Qed.

Lemma add_missing_lookup (k : string) (best : gmap string string) (d : Obj) :
  add_missing fields best d !! k =
  if bool_decide (copied k) then fill fields k best d !! k else best !! k.
Proof.
  unfold add_missing. destruct (bool_decide (copied k)) eqn:E.
  - apply bool_decide_eq_true_1 in E. destruct E as [-> | [-> | ->]].
    + rewrite !fill_lookup_ne by discriminate. reflexivity.
    + rewrite fill_lookup_ne by discriminate.
      rewrite !fill_lookup. unfold dict_get.
      rewrite fill_lookup_ne by discriminate. reflexivity.
    + rewrite !fill_lookup. unfold dict_get.
      rewrite !fill_lookup_ne by discriminate. reflexivity.
  - apply bool_decide_eq_false_1 in E. unfold copied in E.
    rewrite !fill_lookup_ne; [reflexivity | | |]; intros ->; tauto.
Qed.

Lemma merged_value_step (k : string) (best : gmap string string) (d : Obj)
    (ds : list Obj) :
  copied k ->
  merged_value fields k (add_missing fields best d) ds
  = merged_value fields k best (d :: ds).
Proof.
  intros Hk. unfold merged_value, dict_get. cbn [List.find].
  rewrite add_missing_lookup, bool_decide_eq_true_2 by exact Hk.
  rewrite fill_lookup. unfold dict_get.
  destruct (PyStr.truthy (default EmptyString (best !! k))) eqn:E1; simpl.
  - rewrite E1. reflexivity.
  - destruct (PyStr.truthy (get fields k d)) eqn:E2; simpl.
    + rewrite E2. reflexivity.
    + rewrite E1. reflexivity.
Qed.

Lemma merged_value_nil (k : string) (best : gmap string string) :
  merged_value fields k best [] = best !! k.
Proof. unfold merged_value. simpl. destruct (PyStr.truthy _); reflexivity. Qed.

(** The merging loop, field by field. *)
Lemma foldl_add_missing_lookup (k : string) (others : list Obj)
    (best : gmap string string) :
  foldl (add_missing fields) best others !! k =
  if bool_decide (copied k) then merged_value fields k best others else best !! k.
Proof.
  revert best. induction others as [|d ds IH]; intros best; simpl.
  - rewrite merged_value_nil. destruct (bool_decide _); reflexivity.
  - rewrite IH. destruct (bool_decide (copied k)) eqn:E.
    + apply merged_value_step. apply bool_decide_eq_true_1 in E. exact E.
    + rewrite add_missing_lookup, E. reflexivity.
Qed.

(** The loop over the clusters never raises; empty clusters add nothing. *)
Lemma merge_groups_returns (key : Obj -> list nat) (duplicates : list (list Obj))
    (acc : list (gmap string string)) :
  exists new,
    merge_groups fields key duplicates acc = Returns (acc ++ new)
    /\ length new = length (filter (fun g => g <> []) duplicates)
    /\ merge_groups fields key (filter (fun g => g <> []) duplicates) acc
       = Returns (acc ++ new).
Proof.
  revert acc. induction duplicates as [|g gs IH]; intros acc; simpl.
  - exists []. rewrite app_nil_r. auto.
  - destruct g as [|x g].
    + rewrite filter_cons_False by tauto. apply IH.
    + rewrite filter_cons_True by discriminate.
      unfold merge_group. simpl merge_groups. unfold merge_group.
      destruct (sorted key (x :: g)) as [|b others] eqn:E.
      { exfalso. eapply (sorted_nonempty key (x :: g)); [discriminate | exact E]. }
      simpl. destruct (IH (acc ++ [foldl (add_missing fields) (fields b) others]))
        as (new & E1 & E2 & E3).
      exists (foldl (add_missing fields) (fields b) others :: new).
      rewrite E1, E3, <- app_assoc. simpl. rewrite E2. auto.
Qed.

End MergeFacts.

(** C5. For a non-empty cluster the merger returns one record, built on the
    first record of the sorted cluster (the base). Outside [image_url],
    [price] and [lcbo_id] every field of the merged record, [brand_name],
    [product_name], [category] and [subcategory] among them, is that of the
    base. Each of the three copied fields is the base's own value when that
    is not empty, and otherwise the value of the first record after the base,
    in the order of the sorted cluster, that has a non-empty one. Hence a
    cluster with an image somewhere gives a merged record with an image. *)
Theorem merge_field_provenance (Obj : Type) (fields : Obj -> gmap string string)
    (cluster : list Obj) :
  cluster <> [] ->
  exists base others merged,
    sorted (Processor.quality fields) cluster = base :: others
    /\ Processor.merge_duplicates fields [cluster] = Returns [merged]
    /\ (forall k, ~ copied k -> merged !! k = fields base !! k)
    /\ merged !! "brand_name" = fields base !! "brand_name"
    /\ merged !! "product_name" = fields base !! "product_name"
    /\ merged !! "category" = fields base !! "category"
    /\ merged !! "subcategory" = fields base !! "subcategory"
    /\ (forall k, copied k -> merged !! k = merged_value fields k (fields base) others)
    /\ (forall k, copied k -> get fields k base <> EmptyString ->
          merged !! k = fields base !! k)
    /\ ((exists m, m ∈ cluster /\ get fields "image_url" m <> EmptyString) ->
        dict_get "image_url" merged <> EmptyString).
Proof.
  intros Hne.
  destruct (sorted (Processor.quality fields) cluster) as [|base others] eqn:E.
  { exfalso. eapply sorted_nonempty; eassumption. }
  exists base, others, (foldl (add_missing fields) (fields base) others).
  assert (Hother : forall k, ~ copied k ->
            foldl (add_missing fields) (fields base) others !! k = fields base !! k).
  { intros k Hk. rewrite foldl_add_missing_lookup.
    rewrite bool_decide_eq_false_2 by exact Hk. reflexivity. }
  assert (Hcopy : forall k, copied k ->
            foldl (add_missing fields) (fields base) others !! k
            = merged_value fields k (fields base) others).
  { intros k Hk. rewrite foldl_add_missing_lookup.
    rewrite bool_decide_eq_true_2 by exact Hk. reflexivity. }
  split; [reflexivity|]. split.
  { unfold Processor.merge_duplicates. destruct cluster as [|x cluster]; [congruence|].
    simpl. unfold merge_group. rewrite E. reflexivity. }
  split; [exact Hother|].
  do 4 (split; [apply Hother; unfold copied; intros [H|[H|H]]; discriminate|]).
  split; [exact Hcopy|]. split.
  - intros k Hk Hbase. rewrite (Hcopy k Hk). unfold merged_value.
    fold (get fields k base).
    destruct (PyStr.truthy (get fields k base)) eqn:T; [reflexivity|].
    apply truthy_false in T. contradiction.
  - intros (m & Hm & Himg). unfold dict_get.
    rewrite (Hcopy "image_url") by (left; reflexivity).
    unfold merged_value. fold (get fields "image_url" base).
    destruct (PyStr.truthy (get fields "image_url" base)) eqn:T.
    + apply truthy_true. exact T.
    + destruct (List.find _ others) as [d|] eqn:F.
      * apply find_some in F as [_ F]. simpl. apply truthy_true, F.
      * exfalso. apply truthy_false in T.
        assert (Hin : m ∈ base :: others).
        { rewrite <- E. rewrite sorted_perm. exact Hm. }
        apply elem_of_cons in Hin as [-> | Hin]; [contradiction|].
        apply list_elem_of_In in Hin.
        pose proof (find_none _ _ F m Hin) as Hnone. simpl in Hnone.
        apply truthy_false in Hnone. contradiction.
Qed.

(** The hypothesis of C5 holds of the two Baileys records. *)
Lemma merge_field_provenance_witness :
  exists base others merged,
    sorted (Processor.quality id) [Scenario.baileys; Scenario.baileys_apostrophe]
      = base :: others
    /\ Processor.merge_duplicates id [[Scenario.baileys; Scenario.baileys_apostrophe]]
       = Returns [merged].
Proof.
  destruct (merge_field_provenance (gmap string string) id
              [Scenario.baileys; Scenario.baileys_apostrophe])
    as (base & others & merged & H1 & H2 & _).
  - discriminate.
  - exists base, others, merged. split; assumption.
Defined.

(** The order in which the other records are consulted is that of the
    sorted cluster: below, the base takes the price of the record with the
    shorter name, which was given second. *)
Lemma merge_follows_sorted_order :
  sorted (Processor.quality id)
    [Scenario.priced_long; Scenario.priced_short; Scenario.pictured]
  = [Scenario.pictured; Scenario.priced_short; Scenario.priced_long]
  /\ Processor.merge_duplicates id
       [[Scenario.priced_long; Scenario.priced_short; Scenario.pictured]]
     = Returns [<["price" := "6"]> Scenario.pictured].
Proof. split; vm_compute; reflexivity. Qed.

(** C1, the behaviour of the code at a cluster of two records of the primary
    source that differ in the product name only: both scripts sort the record
    with the shorter name first and take it as the base, although the key is
    commented "Longer product name first". The components before the length
    are as described: source, then image, then price. *)
Theorem merge_base_takes_shorter_name :
  Integrity.quality id Scenario.vodka_short = [0; 0; 0; 5]
  /\ Integrity.quality id Scenario.vodka_long = [0; 0; 0; 11]
  /\ sorted (Integrity.quality id) [Scenario.vodka_long; Scenario.vodka_short]
     = [Scenario.vodka_short; Scenario.vodka_long]
  /\ Integrity.merge_duplicates id [[Scenario.vodka_long; Scenario.vodka_short]]
     = Returns [Scenario.vodka_short]
  /\ sorted (Processor.quality id) [Scenario.vodka_long; Scenario.vodka_short]
     = [Scenario.vodka_short; Scenario.vodka_long]
  /\ Processor.merge_duplicates id [[Scenario.vodka_long; Scenario.vodka_short]]
     = Returns [Scenario.vodka_short].
Proof. repeat split; vm_compute; reflexivity. Qed.

(** ** Failures *)

(** C9 as stated fails: an empty header row gives the empty mapping, not a
    [SchemaError], and an empty cluster is passed over, not reported as an
    [InvariantViolation]. *)
Lemma failure_surfacing_counterexample :
  Sheets.get_column_mapping [] <> Raises "SchemaError"
  /\ Processor.merge_duplicates (@id (gmap string string)) [[]]
     <> Raises "InvariantViolation".
Proof. split; vm_compute; discriminate. Qed.

(** C9, amended. The schema mapper and the merger raise on no input: the
    mapper returns a mapping for every header row, the empty one for the
    empty row; the merger returns one record for each non-empty cluster and
    passes over the empty ones, in both scripts. *)
Theorem failures_are_absorbed :
  Sheets.get_column_mapping [] = Returns ∅
  /\ (forall headers, exists mapping, Sheets.get_column_mapping headers = Returns mapping)
  /\ (forall (Obj : Type) (fields : Obj -> gmap string string)
             (duplicates : list (list Obj)),
        exists merged,
          Processor.merge_duplicates fields duplicates = Returns merged
          /\ length merged = length (filter (fun g => g <> []) duplicates)
          /\ Processor.merge_duplicates fields (filter (fun g => g <> []) duplicates)
             = Returns merged)
  /\ (forall (Obj : Type) (fields : Obj -> gmap string string)
             (duplicates : list (list Obj)),
        exists merged,
          Integrity.merge_duplicates fields duplicates = Returns merged
          /\ length merged = length (filter (fun g => g <> []) duplicates)
          /\ Integrity.merge_duplicates fields (filter (fun g => g <> []) duplicates)
             = Returns merged)
  /\ (forall (Obj : Type) (fields : Obj -> gmap string string),
        Processor.merge_duplicates fields [[]] = Returns []
        /\ Integrity.merge_duplicates fields [[]] = Returns []).
Proof.
  split; [reflexivity|]. split; [intros headers; eexists; reflexivity|].
  split; [|split].
  - intros Obj fields duplicates.
    apply (merge_groups_returns fields (Processor.quality fields) duplicates []).
  - intros Obj fields duplicates.
    apply (merge_groups_returns fields (Integrity.quality fields) duplicates []).
  - intros Obj fields. split; reflexivity.
Qed.

(** ** Brand consolidation *)

Section GroupContent.
Context {A : Type}.
Variable key : A -> option string.

Lemma group_add_content (l : list A) (k : string) (x : A) (G : list (string * list A)) :
  key x = Some k ->
  NoDup G.*1 ->
  (k ∉ G.*1 -> filter (fun y => key y = Some k) l = []) ->
  Forall (fun g => g.2 = filter (fun y => key y = Some g.1) l) G ->
  Forall (fun g => g.2 = filter (fun y => key y = Some g.1) (l ++ [x])) (group_add k x G).
Proof.
  intros Hk. induction G as [|[k' xs] G IH]; intros Hnd Hnew HG; csimpl.
  - constructor; [|constructor]. simpl. rewrite filter_app, Hnew by (intros H; inversion H).
    rewrite filter_cons_True by exact Hk. reflexivity.
  - apply Forall_cons in HG as [Hxs HG]. simpl in Hxs.
    csimpl in Hnd. apply NoDup_cons in Hnd as [Hfresh Hnd].
    destruct (String.eqb_spec k k') as [->|Hne].
    + constructor; simpl.
      * rewrite filter_app, <- Hxs. rewrite filter_cons_True by exact Hk. reflexivity.
      * rewrite Forall_forall in HG |- *. intros g Hin.
        rewrite filter_app, <- (HG g Hin).
        rewrite filter_cons_False; [rewrite app_nil_r; reflexivity|].
        rewrite Hk. intros [= ->]. apply Hfresh.
        apply (list_elem_of_fmap_2 fst) in Hin. exact Hin.
    + constructor; simpl.
      * rewrite filter_app, <- Hxs.
        rewrite filter_cons_False by congruence. rewrite app_nil_r. reflexivity.
      * apply IH; [exact Hnd | | exact HG]. intros Hk'. apply Hnew.
        csimpl. intros [?|?]%elem_of_cons; auto.
Qed.

Lemma grouped_content (l : list A) :
  Forall (fun g => g.2 = filter (fun y => key y = Some g.1) l) (grouped key l).
Proof.
  induction l as [|x l IH] using rev_ind; [constructor|].
  rewrite grouped_snoc. destruct (key x) as [k|] eqn:E.
  - apply group_add_content; [exact E | apply grouped_keys_NoDup | | exact IH].
    intros Hk. destruct (filter (fun y => key y = Some k) l) as [|y ys] eqn:F; [reflexivity|].
    exfalso. assert (Hy : y ∈ filter (fun y => key y = Some k) l) by (rewrite F; left).
    apply list_elem_of_filter in Hy as [Hy1 Hy2].
    destruct (grouped_complete key l y k Hy2 Hy1) as (xs & Hxs & _).
    apply Hk. apply (list_elem_of_fmap_2 fst) in Hxs. exact Hxs.
  - eapply Forall_impl; [exact IH|]. intros g Hg. rewrite filter_app, <- Hg.
    rewrite filter_cons_False by (rewrite E; discriminate).
    rewrite app_nil_r. reflexivity.
Qed.

End GroupContent.

Lemma brand_groups_grouped (products : list (gmap string string)) :
  Brands.brand_groups products
  = grouped Brands.form_key (map (dict_get "brand_name") products).
Proof.
  unfold Brands.brand_groups, grouped.
  induction products as [|p products IH] using rev_ind; [reflexivity|].
  rewrite map_app. cbn [map]. rewrite !foldl_snoc, IH. unfold Brands.form_key.
  destruct (PyStr.truthy (dict_get "brand_name" p)); reflexivity.
Qed.

(** The code's score is the score of the design on every brand that is not
    empty. *)
Lemma score_brand_design (brand : string) :
  brand <> EmptyString -> Brands.score_brand brand = Returns (Brands.design_score brand).
Proof.
  intros Hne. unfold Brands.score_brand, Brands.design_score.
  destruct brand as [|c s]; [congruence|].
  destruct (PyStr.isupper (String c s)) eqn:U;
    destruct (PyStr.char_isupper c), (PyStr.has_char "'" (String c s));
    cbn [negb andb mbind outcome_bind]; f_equal; lia.
Qed.

Lemma mapM_score (forms : list string) :
  Forall (fun f => f <> EmptyString) forms ->
  mapM (fun brand => s ← Brands.score_brand brand; Returns (brand, s)) forms
  = Returns (map (fun f => (f, Brands.design_score f)) forms).
Proof.
  induction 1 as [|f forms Hf _ IH]; [reflexivity|].
  simpl. rewrite (score_brand_design f Hf). simpl. rewrite IH. reflexivity.
Qed.

Lemma max_scored_spec (rest : list (string * Z)) :
  forall (best : string * Z) (pre mid : list (string * Z)),
    (forall y, y ∈ pre -> (y.2 < best.2)%Z) ->
    (forall y, y ∈ mid -> (y.2 <= best.2)%Z) ->
    exists before after,
      pre ++ best :: mid ++ rest = before ++ Brands.max_scored best rest :: after
      /\ (forall y, y ∈ before -> (y.2 < (Brands.max_scored best rest).2)%Z)
      /\ (forall y, y ∈ after -> (y.2 <= (Brands.max_scored best rest).2)%Z).
Proof.
  induction rest as [|x rest IH]; intros best pre mid Hpre Hmid; simpl.
  - exists pre, mid. rewrite app_nil_r. auto.
  - destruct (Z.ltb_spec best.2 x.2) as [Hlt|Hge].
    + destruct (IH x (pre ++ best :: mid) []) as (before & after & E & H1 & H2).
      * intros y [Hy | [-> | Hy]%elem_of_cons]%elem_of_app.
        -- specialize (Hpre y Hy). lia.
        -- exact Hlt.
        -- specialize (Hmid y Hy). lia.
      * intros y Hy. inversion Hy.
      * exists before, after. split; [|auto].
        rewrite <- E. rewrite <- !app_assoc. simpl. reflexivity.
    + destruct (IH best pre (mid ++ [x])) as (before & after & E & H1 & H2).
      * exact Hpre.
      * intros y [Hy | ->%list_elem_of_singleton]%elem_of_app; [auto | lia].
      * exists before, after. split; [|auto].
        rewrite <- E. rewrite <- !app_assoc. simpl. reflexivity.
Qed.

Lemma choose_best_brand_name_spec (forms : list string) :
  forms <> [] ->
  Forall (fun f => f <> EmptyString) forms ->
  exists winner,
    Brands.choose_best_brand_name forms = Returns winner
    /\ Brands.first_best forms winner.
Proof.
  intros Hne Hall. unfold Brands.choose_best_brand_name.
  destruct forms as [|f forms]; [congruence|].
  rewrite (mapM_score _ Hall). simpl.
  set (score := fun f => (f, Brands.design_score f)).
  destruct (max_scored_spec (map score forms) (score f) [] [])
    as (before & after & E & H1 & H2); try (intros y Hy; inversion Hy).
  simpl in E.
  set (r := Brands.max_scored (score f) (map score forms)) in *.
  change (score f :: map score forms) with (score <$> (f :: forms)) in E.
  apply fmap_app_inv in E as (bs & rs & -> & Hrs & E).
  symmetry in Hrs. apply fmap_cons_inv in Hrs as (w & as' & Hw & -> & ->).
  exists r.1. split; [reflexivity|].
  exists bs, as'. rewrite Hw. simpl. split; [exact E|]. split.
  - intros g Hg. specialize (H1 (score g) (list_elem_of_fmap_2 score _ _ Hg)).
    rewrite Hw in H1. exact H1.
  - intros g Hg. specialize (H2 (score g) (list_elem_of_fmap_2 score _ _ Hg)).
    rewrite Hw in H2. exact H2.
Qed.

Lemma map_alternatives_lookup (w : string) (alts : list string)
    (m : gmap string string) (b : string) :
  Brands.map_alternatives w alts m !! b
  = if decide (b ∈ alts /\ b <> w) then Some w else m !! b.
Proof.
  unfold Brands.map_alternatives. revert m.
  induction alts as [|a alts IH]; intros m; cbn [foldl].
  - rewrite decide_False; [reflexivity|]. intros [H _]. inversion H.
  - rewrite IH. destruct (String.eqb_spec a w) as [->|Hne].
    + destruct (decide (b ∈ alts /\ b <> w)) as [[H1 H2]|H].
      * rewrite decide_True; [reflexivity|]. split; [right|]; assumption.
      * rewrite decide_False; [reflexivity|].
        intros [[->|H1]%elem_of_cons H2]; [congruence|]. apply H. auto.
    + destruct (decide (b ∈ alts /\ b <> w)) as [[H1 H2]|H].
      * rewrite decide_True; [reflexivity|]. split; [right|]; assumption.
      * destruct (decide (a = b)) as [->|Hab].
        -- rewrite lookup_insert_eq. rewrite decide_True; [reflexivity|].
           split; [left | exact Hne].
        -- rewrite lookup_insert_ne by exact Hab.
           rewrite decide_False; [reflexivity|].
           intros [[->|H1]%elem_of_cons H2]; [congruence|]. apply H. auto.
Qed.

Lemma first_best_single (a : string) : Brands.first_best [a] a.
Proof.
  exists [], []. split; [reflexivity|]. split; intros f Hf; inversion Hf.
Qed.

Lemma build_mapping_spec (groups : list (string * list string)) :
  forall m0 : gmap string string,
    Forall (fun g => g.2 <> [] /\ Forall (fun f => Brands.form_key f = Some g.1) g.2)
           groups ->
    NoDup groups.*1 ->
    exists m,
      Brands.build_mapping groups m0 = Returns m
      /\ (forall b, (forall g, g ∈ groups -> b ∉ g.2) -> m !! b = m0 !! b)
      /\ (forall g b, g ∈ groups -> b ∈ g.2 ->
            exists w, Brands.first_best g.2 w
                      /\ m !! b = if decide (b = w) then m0 !! b else Some w).
Proof.
  induction groups as [|[k alts] rest IH]; intros m0 Hok Hnd; simpl.
  - exists m0. split; [reflexivity|]. split; [reflexivity|].
    intros g b Hg. inversion Hg.
  - apply Forall_cons in Hok as [[Hne Hkeys] Hok]. simpl in Hne, Hkeys.
    csimpl in Hnd. apply NoDup_cons in Hnd as [Hfresh Hnd].
    assert (Hapart : forall b, b ∈ alts -> forall g, g ∈ rest -> b ∉ g.2).
    { intros b Hb g Hg Hbg. apply Hfresh.
      rewrite Forall_forall in Hkeys. rewrite Forall_forall in Hok.
      destruct (Hok g Hg) as [_ Hg2]. rewrite Forall_forall in Hg2.
      assert (k = g.1) by (specialize (Hkeys b Hb); specialize (Hg2 b Hbg); congruence).
      subst k. apply (list_elem_of_fmap_2 fst) in Hg. exact Hg. }
    assert (Hnonempty : Forall (fun f => f <> EmptyString) alts).
    { eapply Forall_impl; [exact Hkeys|]. intros f Hf ->. discriminate Hf. }
    destruct (Nat.ltb_spec 1 (length alts)) as [Hlen|Hlen].
    + destruct (choose_best_brand_name_spec alts Hne Hnonempty) as (w & Ew & Hw).
      rewrite Ew. simpl.
      destruct (IH (Brands.map_alternatives w alts m0) Hok Hnd) as (m & Em & H1 & H2).
      exists m. split; [exact Em|]. split.
      * intros b Hb. rewrite H1 by (intros g Hg; apply Hb; right; exact Hg).
        rewrite map_alternatives_lookup. rewrite decide_False; [reflexivity|].
        intros [Hin _]. apply (Hb (k, alts)); [left | exact Hin].
      * intros g b [->|Hg]%elem_of_cons Hb; simpl in *.
        -- exists w. split; [exact Hw|].
           rewrite H1 by (apply Hapart; exact Hb).
           rewrite map_alternatives_lookup.
           destruct (decide (b = w)) as [->|Hbw].
           ++ rewrite decide_False; [reflexivity|]. intros [_ H]. congruence.
           ++ rewrite decide_True; [reflexivity|]. auto.
        -- destruct (H2 g b Hg Hb) as (w' & Hw' & E). exists w'. split; [exact Hw'|].
           rewrite E. destruct (decide (b = w')); [|reflexivity].
           rewrite map_alternatives_lookup.
           rewrite decide_False; [reflexivity|].
           intros [Hin _]. apply (Hapart b Hin g Hg Hb).
    + destruct (IH m0 Hok Hnd) as (m & Em & H1 & H2).
      exists m. split; [exact Em|]. split.
      * intros b Hb. apply H1. intros g Hg. apply Hb. right. exact Hg.
      * intros g b [->|Hg]%elem_of_cons Hb; simpl in *; [|apply H2; assumption].
        destruct alts as [|a [|a' alts]]; [congruence | | simpl in Hlen; lia].
        apply list_elem_of_singleton in Hb. subst b.
        exists a. split; [apply first_best_single|].
        rewrite decide_True by reflexivity. apply H1.
        apply Hapart. left.
Qed.

(** C8. Brand consolidation never raises. A record without a brand is left
    as it is; any other record gets, as its brand, the first of the surface
    forms of its group with the highest score, the group being the brands
    with the same lower-cased key once apostrophes and double quotes are
    removed, and nothing else in the record changes. The score computed by
    the code is the one of the design. The two Baileys records both come
    back as "Bailey's". *)
Theorem brand_consolidation :
  (forall products : list (gmap string string),
     exists result,
       Brands.normalize_brand_alternatives products = Returns result
       /\ Forall2 (fun product product' =>
                     let brand := dict_get "brand_name" product in
                     if PyStr.truthy brand then
                       exists winner,
                         Brands.first_best (Brands.surface_forms products brand) winner
                         /\ product' = <["brand_name" := winner]> product
                     else product' = product)
                  products result)
  /\ (forall brand, brand <> EmptyString ->
        Brands.score_brand brand = Returns (Brands.design_score brand))
  /\ Brands.normalize_brand_alternatives [Scenario.baileys; Scenario.baileys_apostrophe]
     = Returns [Scenario.baileys_apostrophe; Scenario.baileys_apostrophe].
Proof.
  split; [|split; [exact score_brand_design | vm_compute; reflexivity]].
  intros products. unfold Brands.normalize_brand_alternatives.
  rewrite brand_groups_grouped.
  set (names := map (dict_get "brand_name") products).
  pose proof (grouped_ok Brands.form_key names) as Hok.
  pose proof (grouped_content Brands.form_key names) as Hcontent.
  destruct (build_mapping_spec (grouped Brands.form_key names) ∅) as (m & Em & H1 & H2).
  { eapply Forall_impl; [exact Hok|]. intros g (Hne & _ & Hkeys). auto. }
  { apply grouped_keys_NoDup. }
  rewrite Em. simpl. eexists. split; [reflexivity|].
  apply Forall2_fmap_r, Forall_Forall2_diag, Forall_forall.
  intros product Hin. simpl.
  destruct (PyStr.truthy (dict_get "brand_name" product)) eqn:T; unfold Brands.apply_mapping.
  - set (b := dict_get "brand_name" product) in *.
    assert (Hb : b ∈ names).
    { apply (list_elem_of_fmap_2 (dict_get "brand_name")) in Hin. exact Hin. }
    assert (Hkey : Brands.form_key b = Some (Brands.normalized_key b)).
    { unfold Brands.form_key. rewrite T. reflexivity. }
    destruct (grouped_complete Brands.form_key names b _ Hb Hkey) as (alts & Hg & Hba & _).
    destruct (H2 _ b Hg Hba) as (w & Hw & E). simpl in Hw.
    assert (Halts : alts = Brands.surface_forms products b).
    { rewrite Forall_forall in Hcontent.
      pose proof (Hcontent _ Hg) as Hc. cbn [fst snd] in Hc. rewrite Hc.
      unfold Brands.surface_forms. fold names.
      apply list_filter_iff. intros f. unfold Brands.form_key.
      destruct (PyStr.truthy f) eqn:Tf.
      - apply truthy_true in Tf. split; [intros [= ->]; auto | intros [_ ->]; reflexivity].
      - apply truthy_false in Tf. split; [discriminate | intros [? _]; contradiction]. }
    rewrite Halts in Hw. exists w. split; [exact Hw|].
    rewrite E. destruct (decide (b = w)) as [<-|Hbw]; [|reflexivity].
    rewrite lookup_empty. symmetry. apply insert_id.
    unfold b, dict_get in T |- *. destruct (product !! "brand_name") as [v|]; [reflexivity|].
    discriminate T.
  - apply truthy_false in T. rewrite T.
    rewrite H1; [rewrite lookup_empty; reflexivity|].
    intros g Hg Hbg.
    rewrite Forall_forall in Hok. destruct (Hok g Hg) as (_ & _ & Hkeys).
    rewrite Forall_forall in Hkeys. specialize (Hkeys _ Hbg). discriminate Hkeys.
Qed.

(** The hypothesis of C8 holds of the brand "Bailey's". *)
Lemma brand_consolidation_witness :
  Brands.score_brand "Bailey's" = Returns (Brands.design_score "Bailey's").
Proof.
  apply (proj1 (proj2 brand_consolidation) "Bailey's"). discriminate.
Defined.

(** ** The cross-dataset reconciler *)

Lemma Qgtb_true (x y : Q) : Qgtb x y = true <-> (y < x)%Q.
Proof.
  unfold Qgtb. rewrite negb_true_iff. split.
  - intros H. apply Qnot_le_lt. intros Hle. apply Qle_bool_iff in Hle. congruence.
  - intros H. destruct (Qle_bool x y) eqn:E; [|reflexivity].
    apply Qle_bool_iff in E. exfalso. exact (Qlt_not_le _ _ H E).
Qed.


Section RestorerFacts.
Variable cfg : Config.t.





End RestorerFacts.



(** ** The reconciler in double precision *)





Section FloatRestorerFacts.
Variable cfg : Config.t.




End FloatRestorerFacts.


(** ** The matcher: every block it returns is a block of equal elements *)

Section DifflibFacts.
Variables a b : list ascii.

Lemma eq_at_Some (i j : nat) (x y : ascii) :
  a !! i = Some x -> b !! j = Some y -> Ascii.eqb x y = true ->
  Difflib.eq_at a b i j = true.
Proof. intros Ha Hb E. unfold Difflib.eq_at. rewrite Ha, Hb. exact E. Qed.

Section Window.
Variables alo ahi blo bhi : nat.

Local Abbreviation run_at := (Difflib.run_at a b alo ahi blo bhi).
Local Abbreviation block_ok := (Difflib.block_ok a b alo ahi blo bhi).

(** A run that ends at [(i, j)] is the block that starts [k - 1] earlier. *)
Lemma run_at_block (i j k : nat) :
  0 < k -> run_at i j k -> block_ok (S i - k, S j - k, k).
Proof.
  intros Hk (H1 & H2 & H3 & H4 & H5). unfold Difflib.block_ok. simpl.
  repeat split; try lia.
  intros t Ht. replace (S i - k + t) with (i - (k - 1 - t)) by lia.
  replace (S j - k + t) with (j - (k - 1 - t)) by lia.
  apply H5. lia.
Qed.

(** A match at [(i, j)] prolongs the run that ends on its diagonal. *)
Lemma run_at_extend (i j diag : nat) (x y : ascii) :
  a !! i = Some x -> b !! j = Some y -> Ascii.eqb x y = true ->
  alo <= i -> i < ahi -> blo <= j -> j < bhi ->
  (diag = 0 \/ (0 < j /\ 0 < i /\ run_at (i - 1) (j - 1) diag)) ->
  run_at i j (S diag).
Proof.
  intros Ha Hb E Hi1 Hi2 Hj1 Hj2 [-> | (Hj & Hi & H1 & H2 & H3 & H4 & H5)].
  - repeat split; try lia. intros t Ht. assert (t = 0) as -> by lia.
    rewrite !Nat.sub_0_r. eapply eq_at_Some; eassumption.
  - repeat split; try lia. intros [|t] Ht.
    + rewrite !Nat.sub_0_r. eapply eq_at_Some; eassumption.
    + replace (i - S t) with (i - 1 - t) by lia.
      replace (j - S t) with (j - 1 - t) by lia. apply H5. lia.
Qed.

Lemma scan_row_spec (x : ascii) (i : nat) :
  a !! i = Some x -> alo <= i -> i < ahi ->
  forall (bs : list ascii) (j diag : nat) (j2len : list nat) (best : Difflib.block),
    drop j b = bs ->
    (diag = 0 \/ (0 < j /\ 0 < i /\ run_at (i - 1) (j - 1) diag)) ->
    (forall t, nth t j2len 0 = 0
               \/ (0 < i /\ run_at (i - 1) (j + t) (nth t j2len 0))) ->
    block_ok best ->
    (forall t, nth t (Difflib.scan_row b x i blo bhi j bs diag j2len best).1 0 = 0
               \/ run_at i (j + t)
                    (nth t (Difflib.scan_row b x i blo bhi j bs diag j2len best).1 0))
    /\ block_ok (Difflib.scan_row b x i blo bhi j bs diag j2len best).2.
Proof.
  intros Hx Hi1 Hi2.
  induction bs as [|y bs IH]; intros j diag j2len best Hdrop Hdiag Hrow Hbest.
  - simpl. split; [|exact Hbest]. intros [|t]; left; reflexivity.
  - assert (Hy : b !! j = Some y).
    { rewrite <- (Nat.add_0_r j), <- lookup_drop, Hdrop. reflexivity. }
    assert (Hdrop' : drop (S j) b = bs).
    { rewrite (drop_S _ _ _ Hy) in Hdrop. congruence. }
    assert (Hhere : hd 0 j2len = nth 0 j2len 0) by (destruct j2len; reflexivity).
    assert (Hdiag' : hd 0 j2len = 0
                     \/ (0 < S j /\ 0 < i /\ run_at (i - 1) (S j - 1) (hd 0 j2len))).
    { rewrite Hhere. destruct (Hrow 0) as [H | [H1 H2]]; [left; exact H | right].
      rewrite Nat.add_0_r in H2. simpl. rewrite Nat.sub_0_r.
      split; [lia | split; [exact H1 | exact H2]]. }
    assert (Hrow' : forall t, nth t (tl j2len) 0 = 0
                      \/ (0 < i /\ run_at (i - 1) (S j + t) (nth t (tl j2len) 0))).
    { intros t. replace (nth t (tl j2len) 0) with (nth (S t) j2len 0)
        by (destruct j2len; [destruct t|]; reflexivity).
      replace (S j + t) with (j + S t) by lia. apply Hrow. }
    cbn [Difflib.scan_row].
    destruct (Ascii.eqb x y && negb (Difflib.popular b y) && (blo <=? j) && (j <? bhi))
      eqn:C.
    + apply andb_true_iff in C as [C C4]. apply andb_true_iff in C as [C C3].
      apply andb_true_iff in C as [C1 _].
      apply Nat.leb_le in C3. apply Nat.ltb_lt in C4.
      assert (Hk : run_at i j (S diag)) by (eapply run_at_extend; eassumption).
      set (best' := if best.2 <? S diag then (S i - S diag, S j - S diag, S diag)
                    else best).
      assert (Hbest' : block_ok best').
      { unfold best'. destruct (best.2 <? S diag); [|exact Hbest].
        apply run_at_block; [lia | exact Hk]. }
      specialize (IH (S j) (hd 0 j2len) (tl j2len) best' Hdrop' Hdiag' Hrow' Hbest').
      destruct (Difflib.scan_row b x i blo bhi (S j) bs (hd 0 j2len) (tl j2len) best')
        as [row best''].
      simpl in IH |- *. destruct IH as [IH1 IH2]. split; [|exact IH2].
      intros [|t].
      * right. rewrite Nat.add_0_r. exact Hk.
      * replace (j + S t) with (S j + t) by lia. apply IH1.
    + specialize (IH (S j) (hd 0 j2len) (tl j2len) best Hdrop' Hdiag' Hrow' Hbest).
      destruct (Difflib.scan_row b x i blo bhi (S j) bs (hd 0 j2len) (tl j2len) best)
        as [row best''].
      simpl in IH |- *. destruct IH as [IH1 IH2]. split; [|exact IH2].
      intros [|t].
      * left. reflexivity.
      * replace (j + S t) with (S j + t) by lia. apply IH1.
Qed.

Lemma scan_rows_spec (xs : list ascii) :
  forall (i : nat) (j2len : list nat) (best : Difflib.block),
    (forall t x, xs !! t = Some x -> a !! (i + t) = Some x) ->
    alo <= i -> i + length xs <= ahi ->
    (forall t, nth t j2len 0 = 0 \/ (0 < i /\ run_at (i - 1) t (nth t j2len 0))) ->
    block_ok best ->
    block_ok (Difflib.scan_rows b xs i blo bhi j2len best).
Proof.
  induction xs as [|x xs IH]; intros i j2len best Hxs Hi1 Hi2 Hrow Hbest; simpl.
  - exact Hbest.
  - simpl in Hi2.
    assert (Hx : a !! i = Some x).
    { rewrite <- (Nat.add_0_r i). apply Hxs. reflexivity. }
    destruct (scan_row_spec x i Hx Hi1 ltac:(lia) b 0 0 j2len best)
      as [H1 H2]; auto.
    destruct (Difflib.scan_row b x i blo bhi 0 b 0 j2len best) as [row best'].
    simpl in H1, H2. apply IH; auto; try lia.
    + intros t y Hy. replace (S i + t) with (i + S t) by lia. apply Hxs. exact Hy.
    + intros t. destruct (H1 t) as [H | H]; [left; exact H | right].
      split; [lia|]. simpl. rewrite Nat.sub_0_r. exact H.
Qed.

Lemma extend_left_spec (besti : nat) :
  forall bestj bestsize,
    block_ok (besti, bestj, bestsize) ->
    block_ok (Difflib.extend_left a b alo blo besti bestj bestsize).
Proof.
  induction besti as [|i' IH]; intros bestj bestsize Hok; simpl; [exact Hok|].
  destruct ((alo <? S i') && (blo <? bestj) && Difflib.eq_at a b i' (bestj - 1)) eqn:C;
    [|exact Hok].
  apply andb_true_iff in C as [C C3]. apply andb_true_iff in C as [C1 C2].
  apply Nat.ltb_lt in C1. apply Nat.ltb_lt in C2.
  apply IH. destruct Hok as (H1 & H2 & H3 & H4 & H5). simpl in *.
  unfold Difflib.block_ok. simpl. repeat split; try lia.
  intros [|t] Ht.
  - rewrite !Nat.add_0_r. exact C3.
  - replace (i' + S t) with (S i' + t) by lia.
    replace (bestj - 1 + S t) with (bestj + t) by lia. apply H5. lia.
Qed.

Lemma extend_right_spec (n : nat) :
  forall besti bestj bestsize,
    block_ok (besti, bestj, bestsize) ->
    block_ok (Difflib.extend_right a b n ahi bhi besti bestj bestsize).
Proof.
  induction n as [|n IH]; intros besti bestj bestsize Hok; simpl; [exact Hok|].
  destruct ((besti + bestsize <? ahi) && (bestj + bestsize <? bhi)
            && Difflib.eq_at a b (besti + bestsize) (bestj + bestsize)) eqn:C;
    [|exact Hok].
  apply andb_true_iff in C as [C C3]. apply andb_true_iff in C as [C1 C2].
  apply Nat.ltb_lt in C1. apply Nat.ltb_lt in C2.
  apply IH. destruct Hok as (H1 & H2 & H3 & H4 & H5). simpl in *.
  unfold Difflib.block_ok. simpl. repeat split; try lia.
  intros t Ht. destruct (decide (t = bestsize)) as [->|Hne]; [exact C3|].
  apply H5. lia.
Qed.

(** [find_longest_match] returns a block of equal elements inside the window. *)
Lemma find_longest_match_ok :
  alo <= ahi -> blo <= bhi ->
  block_ok (Difflib.find_longest_match a b alo ahi blo bhi).
Proof.
  intros Ha Hb. unfold Difflib.find_longest_match.
  assert (H0 : block_ok (Difflib.scan_rows b (take (ahi - alo) (drop alo a))
                           alo blo bhi [] (alo, blo, 0))).
  { apply scan_rows_spec.
    - intros t x Ht. rewrite lookup_take in Ht. destruct (decide (t < ahi - alo)); [|discriminate].
      rewrite lookup_drop in Ht. exact Ht.
    - lia.
    - rewrite length_take. lia.
    - intros t. left. destruct t; reflexivity.
    - unfold Difflib.block_ok. simpl. repeat split; try lia. }
  destruct (Difflib.scan_rows _ _ _ _ _ _ _) as [[i j] k].
  pose proof (extend_left_spec i j k H0) as H1.
  destruct (Difflib.extend_left a b alo blo i j k) as [[i' j'] k'].
  apply extend_right_spec, H1.
Qed.

End Window.
End DifflibFacts.

(** ** The matched elements form a common subsequence *)

Lemma take_add_drop {A : Type} (n m : nat) (l : list A) :
  take (n + m) l = take n l ++ take m (drop n l).
Proof.
  revert l. induction n as [|n IH]; intros l; [reflexivity|].
  destruct l as [|x l]; simpl; [destruct m; reflexivity|].
  rewrite IH. reflexivity.
Qed.

Lemma slice_split {A : Type} (l : list A) (lo mid hi : nat) :
  lo <= mid -> mid <= hi ->
  Difflib.slice l lo hi = Difflib.slice l lo mid ++ Difflib.slice l mid hi.
Proof.
  intros H1 H2. unfold Difflib.slice.
  replace (hi - lo) with ((mid - lo) + (hi - mid)) by lia.
  rewrite take_add_drop, drop_drop. do 3 f_equal. lia.
Qed.

Lemma slice_lookup {A : Type} (l : list A) (lo k t : nat) :
  Difflib.slice l lo (lo + k) !! t = if decide (t < k) then l !! (lo + t) else None.
Proof.
  unfold Difflib.slice. replace (lo + k - lo) with k by lia.
  rewrite lookup_take. destruct (decide (t < k)); [apply lookup_drop | reflexivity].
Qed.

Lemma slice_full {A : Type} (l : list A) : Difflib.slice l 0 (length l) = l.
Proof. unfold Difflib.slice. rewrite Nat.sub_0_r. simpl. apply firstn_all. Qed.

Lemma total_size_app (l k : list Difflib.block) :
  Difflib.total_size (l ++ k) = Difflib.total_size l + Difflib.total_size k.
Proof.
  unfold Difflib.total_size. induction l as [|x l IH]; simpl; [reflexivity|].
  rewrite IH. lia.
Qed.

Section BlocksFacts.
Variables a b : list ascii.

Lemma eq_at_inv (i j : nat) :
  Difflib.eq_at a b i j = true -> exists x, a !! i = Some x /\ b !! j = Some x.
Proof.
  unfold Difflib.eq_at. destruct (a !! i) as [x|], (b !! j) as [y|]; try discriminate.
  intros E. apply Ascii.eqb_eq in E. subst. eauto.
Qed.

(** The two sides of a block are the same list, of the length of the block. *)
Lemma block_slices (alo ahi blo bhi i j k : nat) :
  Difflib.block_ok a b alo ahi blo bhi (i, j, k) ->
  Difflib.slice a i (i + k) = Difflib.slice b j (j + k)
  /\ length (Difflib.slice a i (i + k)) = k.
Proof.
  intros (_ & _ & _ & _ & H). simpl in H. split.
  - apply list_eq. intros t. rewrite !slice_lookup.
    destruct (decide (t < k)) as [Ht|]; [|reflexivity].
    destruct (eq_at_inv _ _ (H t Ht)) as (x & -> & ->). reflexivity.
  - unfold Difflib.slice. rewrite length_take, length_drop.
    replace (i + k - i) with k by lia.
    destruct k as [|k]; [reflexivity|].
    destruct (eq_at_inv _ _ (H k ltac:(lia))) as (x & Hx & _).
    apply lookup_lt_Some in Hx. lia.
Qed.

Lemma matching_blocks_common (fuel : nat) :
  forall alo ahi blo bhi,
    alo <= ahi -> blo <= bhi ->
    exists c,
      sublist c (Difflib.slice a alo ahi) /\ sublist c (Difflib.slice b blo bhi)
      /\ length c = Difflib.total_size (Difflib.matching_blocks a b fuel alo ahi blo bhi).
Proof.
  induction fuel as [|fuel IH]; intros alo ahi blo bhi Ha Hb; simpl.
  - exists []. repeat split; apply sublist_nil_l.
  - pose proof (find_longest_match_ok a b alo ahi blo bhi Ha Hb) as Hok.
    destruct (Difflib.find_longest_match a b alo ahi blo bhi) as [[i j] k].
    destruct (Nat.eqb_spec k 0) as [->|Hk].
    { exists []. repeat split; apply sublist_nil_l. }
    destruct (block_slices _ _ _ _ _ _ _ Hok) as [Hmid Hlen].
    destruct Hok as (H1 & H2 & H3 & H4 & _). simpl in H1, H2, H3, H4.
    assert (HL : exists c,
               sublist c (Difflib.slice a alo i) /\ sublist c (Difflib.slice b blo j)
               /\ length c = Difflib.total_size
                    (if (alo <? i) && (blo <? j)
                     then Difflib.matching_blocks a b fuel alo i blo j else [])).
    { destruct ((alo <? i) && (blo <? j)); [apply IH; lia|].
      exists []. repeat split; apply sublist_nil_l. }
    assert (HR : exists c,
               sublist c (Difflib.slice a (i + k) ahi)
               /\ sublist c (Difflib.slice b (j + k) bhi)
               /\ length c = Difflib.total_size
                    (if (i + k <? ahi) && (j + k <? bhi)
                     then Difflib.matching_blocks a b fuel (i + k) ahi (j + k) bhi
                     else [])).
    { destruct ((i + k <? ahi) && (j + k <? bhi)); [apply IH; lia|].
      exists []. repeat split; apply sublist_nil_l. }
    destruct HL as (cl & Hl1 & Hl2 & Hl3). destruct HR as (cr & Hr1 & Hr2 & Hr3).
    exists (cl ++ Difflib.slice a i (i + k) ++ cr). split; [|split].
    + rewrite (slice_split a alo i ahi), (slice_split a i (i + k) ahi) by lia.
      apply sublist_app; [exact Hl1|]. apply sublist_app; [reflexivity | exact Hr1].
    + rewrite (slice_split b blo j bhi), (slice_split b j (j + k) bhi) by lia.
      rewrite Hmid.
      apply sublist_app; [exact Hl2|]. apply sublist_app; [reflexivity | exact Hr2].
    + rewrite !length_app, Hlen, Hl3, Hr3, total_size_app.
      change (Difflib.total_size ((i, j, k) :: ?R)) with (k + Difflib.total_size R).
      reflexivity.
Qed.

(** The matches of [ratio] are at most the length of a common subsequence. *)
Lemma matches_common :
  exists c, sublist c a /\ sublist c b /\ length c = Difflib.matches a b.
Proof.
  destruct (matching_blocks_common (S (length a)) 0 (length a) 0 (length b))
    as (c & H1 & H2 & H3); try lia.
  rewrite slice_full in H1, H2. exists c. auto.
Qed.

(** More fuel than the window is long changes nothing. *)
Lemma matching_blocks_fuel (f1 : nat) :
  forall f2 alo ahi blo bhi,
    alo <= ahi -> blo <= bhi -> ahi - alo < f1 -> ahi - alo < f2 ->
    Difflib.matching_blocks a b f1 alo ahi blo bhi
    = Difflib.matching_blocks a b f2 alo ahi blo bhi.
Proof.
  induction f1 as [|f1 IH]; intros f2 alo ahi blo bhi Ha Hb H1 H2; [lia|].
  destruct f2 as [|f2]; [lia|]. simpl.
  pose proof (find_longest_match_ok a b alo ahi blo bhi Ha Hb) as Hok.
  destruct (Difflib.find_longest_match a b alo ahi blo bhi) as [[i j] k].
  destruct (Nat.eqb_spec k 0) as [->|Hk]; [reflexivity|].
  destruct Hok as (K1 & K2 & K3 & K4 & _). simpl in K1, K2, K3, K4.
  f_equal; [|f_equal].
  - destruct ((alo <? i) && (blo <? j)); [apply IH; lia | reflexivity].
  - destruct ((i + k <? ahi) && (j + k <? bhi)); [apply IH; lia | reflexivity].
Qed.

End BlocksFacts.

(** ** Common subsequences *)

(** Two subsequences of [s] share a subsequence that is short of neither by
    more than [s] allows. *)
Lemma sublist_meet {A : Type} (s : list A) :
  forall c1 c2,
    sublist c1 s -> sublist c2 s ->
    exists c, sublist c c1 /\ sublist c c2
              /\ length c1 + length c2 <= length c + length s.
Proof.
  induction s as [|x s IH]; intros c1 c2 H1 H2.
  - apply sublist_nil_r in H1, H2. subst. exists []. simpl.
    repeat split; try constructor; try lia.
  - apply sublist_cons_r in H1 as [H1 | (c1' & -> & H1)];
      apply sublist_cons_r in H2 as [H2 | (c2' & -> & H2)].
    + destruct (IH c1 c2 H1 H2) as (c & Hc1 & Hc2 & Hlen).
      exists c. simpl. repeat split; auto. lia.
    + destruct (IH c1 c2' H1 H2) as (c & Hc1 & Hc2 & Hlen).
      exists c. simpl. repeat split; auto; [constructor; exact Hc2 | lia].
    + destruct (IH c1' c2 H1 H2) as (c & Hc1 & Hc2 & Hlen).
      exists c. simpl. repeat split; auto; [constructor; exact Hc1 | lia].
    + destruct (IH c1' c2' H1 H2) as (c & Hc1 & Hc2 & Hlen).
      exists (x :: c). simpl. repeat split; try (constructor; assumption). lia.
Qed.

Lemma sublist_tail {A : Type} (x : A) (c l : list A) :
  sublist (x :: c) l -> sublist c l.
Proof. intros H. etrans; [|exact H]. constructor. reflexivity. Qed.

Lemma lcs_step_bound (x : ascii) (a' : list ascii) (b : list ascii) :
  forall old,
    length old = S (length b) ->
    (forall j c, sublist c a' -> sublist c (drop j b) -> length c <= nth j old 0) ->
    (forall j c, sublist c (x :: a') -> sublist c (drop j b) ->
                 length c <= nth j (lcs_step x b old) 0)
    /\ length (lcs_step x b old) = S (length b).
Proof.
  induction b as [|y b IH]; intros old Hlen Hold.
  - destruct old; simpl; (split; [|reflexivity]);
      intros j c _ Hc; rewrite drop_nil in Hc; apply sublist_nil_r in Hc; subst; simpl; lia.
  - destruct old as [|o old]; [discriminate|]. simpl in Hlen.
    destruct (IH old) as [Hnew Hnewlen]; [lia | |].
    { intros j c Hc1 Hc2. apply (Hold (S j) c Hc1 Hc2). }
    simpl. split; [|rewrite Hnewlen; reflexivity].
    assert (Hhd_old : forall c, sublist c a' -> sublist c b -> length c <= hd 0 old).
    { intros c Hc1 Hc2. specialize (Hold 1 c Hc1 Hc2). destruct old; simpl in *; lia. }
    assert (Hhd_new : forall c, sublist c (x :: a') -> sublist c b ->
                        length c <= hd 0 (lcs_step x b old)).
    { intros c Hc1 Hc2. specialize (Hnew 0 c Hc1 Hc2).
      destruct (lcs_step x b old); simpl in *; lia. }
    intros [|j] c Hc1 Hc2; [|apply (Hnew j c Hc1 Hc2)].
    simpl in Hc2 |- *.
    destruct (Ascii.eqb_spec x y) as [->|Hxy].
    + destruct c as [|z c]; [simpl; lia|]. simpl.
      apply le_n_S. apply Hhd_old.
      * apply sublist_cons_r in Hc1 as [Hc1 | (c' & [= _ <-] & Hc1)];
          [eapply sublist_tail; exact Hc1 | exact Hc1].
      * apply sublist_cons_r in Hc2 as [Hc2 | (c' & [= _ <-] & Hc2)];
          [eapply sublist_tail; exact Hc2 | exact Hc2].
    + apply sublist_cons_r in Hc1 as [Hc1 | (c' & -> & Hc1)].
      * specialize (Hold 0 c Hc1 Hc2). simpl in Hold. lia.
      * apply sublist_cons_r in Hc2 as [Hc2 | (c'' & [= -> _] & _)]; [|congruence].
        assert (length (x :: c') <= hd 0 (lcs_step x b old)); [|lia].
        apply Hhd_new; [constructor; exact Hc1 | exact Hc2].
Qed.

Lemma lcs_row_bound (a b : list ascii) :
  (forall j c, sublist c a -> sublist c (drop j b) -> length c <= nth j (lcs_row a b) 0)
  /\ length (lcs_row a b) = S (length b).
Proof.
  induction a as [|x a [IH1 IH2]].
  - split; [|unfold lcs_row; cbn [foldr]; apply repeat_length].
    intros j c Hc _. apply sublist_nil_r in Hc. subst. simpl. lia.
  - change (lcs_row (x :: a) b) with (lcs_step x b (lcs_row a b)).
    apply lcs_step_bound; assumption.
Qed.

(** No common subsequence is longer than [lcs] says. *)
Lemma lcs_bound (a b c : list ascii) :
  sublist c a -> sublist c b -> length c <= lcs a b.
Proof.
  intros Ha Hb. destruct (lcs_row_bound a b) as [H _].
  specialize (H 0 c Ha Hb). unfold lcs. destruct (lcs_row a b); simpl in *; lia.
Qed.

(** ** Subcategory normalisation: the contract *)

Lemma ratio_above (a b : list ascii) :
  b <> [] ->
  Qgtb (Difflib.seq_ratio a b) (9 # 10) = true ->
  9 * (length a + length b) < 20 * Difflib.matches a b.
Proof.
  intros Hb H. apply Qgtb_true in H. unfold Difflib.seq_ratio in H.
  destruct (length a + length b) as [|n] eqn:E.
  - destruct b; [congruence | simpl in E; lia].
  - unfold Qlt in H. simpl in H. rewrite Zpos_P_of_succ_nat in H. lia.
Qed.

(** A sequence close to two others forces them to share a long subsequence. *)
Lemma close_to_both (c k1 k2 : list ascii) :
  k1 <> [] -> k2 <> [] ->
  Qgtb (Difflib.seq_ratio c k1) (9 # 10) = true ->
  Qgtb (Difflib.seq_ratio c k2) (9 # 10) = true ->
  feasible (length k1) (length k2) (lcs k1 k2) = true.
Proof.
  intros Hk1 Hk2 H1 H2.
  apply ratio_above in H1; [|exact Hk1]. apply ratio_above in H2; [|exact Hk2].
  destruct (matches_common c k1) as (c1 & Hc1 & Hc1' & E1).
  destruct (matches_common c k2) as (c2 & Hc2 & Hc2' & E2).
  destruct (sublist_meet c c1 c2 Hc1 Hc2) as (m & Hm1 & Hm2 & Hm).
  assert (HL : length m <= lcs k1 k2).
  { apply lcs_bound; [etrans; [exact Hm1 | exact Hc1'] | etrans; [exact Hm2 | exact Hc2']]. }
  apply sublist_length in Hc1, Hc1', Hc2, Hc2'.
  rewrite E1 in *. rewrite E2 in *.
  set (n := length c) in *. set (l1 := length k1) in *. set (l2 := length k2) in *.
  set (M1 := Difflib.matches c k1) in *. set (M2 := Difflib.matches c k2) in *.
  assert (D1 : 9 * (n + l1) / 20 < M1) by (apply Nat.Div0.div_lt_upper_bound; lia).
  assert (D2 : 9 * (n + l2) / 20 < M2) by (apply Nat.Div0.div_lt_upper_bound; lia).
  unfold feasible. apply existsb_exists. exists n. split.
  - apply in_seq. lia.
  - unfold feasible_at. rewrite !andb_true_iff, !Nat.leb_le. repeat split; lia.
Qed.

Section CloseKeys.
Variable table : list (string * string).
Hypothesis table_checked : close_keys_agree table = true.

Lemma lowered_nonempty (k v : string) : In (k, v) table -> lowered k <> [].
Proof.
  intros Hin. pose proof table_checked as H. unfold close_keys_agree in H.
  rewrite forallb_forall in H. specialize (H _ Hin).
  apply andb_true_iff in H as [H _]. apply Nat.ltb_lt in H. cbn [fst] in H.
  intros E. rewrite E in H. inversion H.
Qed.

(** The keys of a checked table that are close to one string share their
    canonical name. *)
Lemma close_keys_same_name (cleaned k1 v1 k2 v2 : string) :
  In (k1, v1) table -> In (k2, v2) table ->
  Qgtb (Difflib.ratio cleaned (PyStr.lower k1)) (9 # 10) = true ->
  Qgtb (Difflib.ratio cleaned (PyStr.lower k2)) (9 # 10) = true ->
  v1 = v2.
Proof.
  intros Hin1 Hin2 H1 H2.
  pose proof table_checked as H. unfold close_keys_agree in H.
  rewrite forallb_forall in H. specialize (H _ Hin1).
  apply andb_true_iff in H as [_ H].
  rewrite forallb_forall in H. specialize (H _ Hin2). cbn [fst snd] in H.
  apply orb_true_iff in H as [H | H]; [apply String.eqb_eq, H|].
  exfalso. apply negb_true_iff in H.
  rewrite (close_to_both (list_ascii_of_string cleaned) (lowered k1) (lowered k2)) in H;
    [discriminate | | | exact H1 | exact H2].
  - eapply lowered_nonempty; exact Hin1.
  - eapply lowered_nonempty; exact Hin2.
Qed.

Lemma empty_matches_nothing (b : list ascii) : Difflib.matches [] b = 0.
Proof.
  destruct (matches_common [] b) as (c & Hc & _ & E).
  apply sublist_nil_r in Hc. subst. simpl in E. lia.
Qed.

Lemma empty_is_far (k v : string) :
  In (k, v) table ->
  Qgtb (Difflib.ratio EmptyString (PyStr.lower k)) (9 # 10) = false.
Proof.
  intros Hin. destruct (Qgtb _ _) eqn:E; [|reflexivity].
  unfold Difflib.ratio in E.
  change (list_ascii_of_string EmptyString) with (@nil ascii) in E.
  apply ratio_above in E; [|eapply lowered_nonempty; exact Hin].
  rewrite empty_matches_nothing in E. lia.
Qed.

End CloseKeys.

(** The shipped table passes the check. *)
Lemma shipped_keys_agree : close_keys_agree Config.SUBCATEGORY_NORMALIZATIONS = true.
Proof. vm_compute. reflexivity. Qed.

Lemma close_match_Some (cleaned : string) (d : list (string * string)) (v : string) :
  close_match cleaned d = Some v ->
  exists k, In (k, v) d
            /\ Qgtb (Difflib.ratio (PyStr.lower cleaned) (PyStr.lower k)) (9 # 10) = true.
Proof.
  induction d as [|[k' v'] d IH]; simpl; [discriminate|].
  destruct (Qgtb _ _) eqn:E.
  - intros [= <-]. exists k'. split; [left; reflexivity | exact E].
  - intros H. destruct (IH H) as (k & Hk & Hr). exists k. split; [right; exact Hk | exact Hr].
Qed.

Lemma close_match_None (cleaned : string) (d : list (string * string)) :
  close_match cleaned d = None <->
  forall k v, In (k, v) d ->
    Qgtb (Difflib.ratio (PyStr.lower cleaned) (PyStr.lower k)) (9 # 10) = false.
Proof.
  induction d as [|[k' v'] d IH]; simpl.
  - split; [intros _ k v [] | reflexivity].
  - destruct (Qgtb _ _) eqn:E.
    + split; [discriminate|]. intros H. rewrite (H k' v') in E by (left; reflexivity).
      discriminate.
    + rewrite IH. split.
      * intros H k v [[= <- <-] | Hin]; [exact E | eapply H; exact Hin].
      * intros H k v Hin. eapply H. right. exact Hin.
Qed.

(** C6. For every string [s]: when [trim(s)] is a key of the shipped alias
    table the result is that key's canonical name; otherwise, when the key
    with the best ratio to [trim(s)] (lower case on both sides) has a ratio
    above nine tenths, the result is that key's canonical name; otherwise
    the result is [trim(s)]. "Beer & Cider" and "Beer and Ciders" both give
    "Beer". *)
Theorem normalize_subcategory_contract (s : string) :
  (forall v, table_get (PyStr.strip s) Config.SUBCATEGORY_NORMALIZATIONS = Some v ->
             normalize_subcategory s = v)
  /\ (table_get (PyStr.strip s) Config.SUBCATEGORY_NORMALIZATIONS = None ->
      forall k v,
        In (k, v) Config.SUBCATEGORY_NORMALIZATIONS ->
        (forall k' v', In (k', v') Config.SUBCATEGORY_NORMALIZATIONS ->
                       (key_ratio s k' <= key_ratio s k)%Q) ->
        (9 # 10 < key_ratio s k)%Q ->
        normalize_subcategory s = v)
  /\ (table_get (PyStr.strip s) Config.SUBCATEGORY_NORMALIZATIONS = None ->
      (forall k v, In (k, v) Config.SUBCATEGORY_NORMALIZATIONS ->
                   ~ (9 # 10 < key_ratio s k)%Q) ->
      normalize_subcategory s = PyStr.strip s)
  /\ normalize_subcategory "Beer & Cider" = "Beer"
  /\ normalize_subcategory "Beer and Ciders" = "Beer".
Proof.
  split; [|split; [|split; [|split; vm_compute; reflexivity]]].
  - intros v Hv. unfold normalize_subcategory, normalize_subcategory_with.
    destruct s as [|c s]; [vm_compute in Hv; discriminate|].
    cbn [PyStr.truthy negb]. rewrite Hv. reflexivity.
  - intros Hnone k v Hin _ Hclose. apply Qgtb_true in Hclose. unfold key_ratio in Hclose.
    unfold normalize_subcategory, normalize_subcategory_with.
    destruct s as [|c s].
    { change (PyStr.lower (PyStr.strip EmptyString)) with EmptyString in Hclose.
      rewrite (empty_is_far _ shipped_keys_agree k v Hin) in Hclose. discriminate. }
    cbn [PyStr.truthy negb]. rewrite Hnone.
    destruct (close_match (PyStr.strip (String c s)) Config.SUBCATEGORY_NORMALIZATIONS)
      as [v'|] eqn:E.
    + apply close_match_Some in E as (k' & Hin' & Hclose').
      eapply (close_keys_same_name _ shipped_keys_agree); eassumption.
    + rewrite close_match_None in E. rewrite (E k v Hin) in Hclose. discriminate.
  - intros Hnone Hfar. unfold normalize_subcategory, normalize_subcategory_with.
    destruct s as [|c s]; [reflexivity|].
    cbn [PyStr.truthy negb]. rewrite Hnone.
    destruct (close_match (PyStr.strip (String c s)) Config.SUBCATEGORY_NORMALIZATIONS)
      as [v'|] eqn:E; [|reflexivity].
    apply close_match_Some in E as (k' & Hin' & Hclose').
    exfalso. apply (Hfar k' v' Hin'). apply Qgtb_true. exact Hclose'.
Qed.

(** The hypotheses of C6 hold of "Scotch Whisky", which is no key and is
    closest to the key "Scotch Whiskey". *)
Lemma normalize_subcategory_contract_witness :
  normalize_subcategory "Scotch Whisky" = "Scotch Whisky".
Proof.
  apply (proj1 (proj2 (normalize_subcategory_contract "Scotch Whisky")))
    with (k := "Scotch Whiskey").
  - vm_compute. reflexivity.
  - vm_compute. tauto.
  - intros k' v' Hin.
    assert (H : forallb (fun kv => Qle_bool (key_ratio "Scotch Whisky" kv.1)
                                            (key_ratio "Scotch Whisky" "Scotch Whiskey"))
                        Config.SUBCATEGORY_NORMALIZATIONS = true)
      by (vm_compute; reflexivity).
    rewrite forallb_forall in H. apply Qle_bool_iff. apply (H _ Hin).
  - apply Qgtb_true. vm_compute. reflexivity.
Defined.

(** * Further properties of the scripts *)

(** ** Case folding and trimming commute *)

Lemma char_lower_idempotent (c : ascii) :
  PyStr.char_lower (PyStr.char_lower c) = PyStr.char_lower c.
Proof. destruct c as [[] [] [] [] [] [] [] []]; vm_compute; reflexivity. Qed.

Lemma isspace_char_lower (c : ascii) :
  PyStr.isspace (PyStr.char_lower c) = PyStr.isspace c.
Proof. destruct c as [[] [] [] [] [] [] [] []]; vm_compute; reflexivity. Qed.

Lemma lower_idempotent (s : string) : PyStr.lower (PyStr.lower s) = PyStr.lower s.
Proof.
  induction s as [|c s IH]; cbn [PyStr.lower]; [reflexivity|].
  rewrite char_lower_idempotent, IH. reflexivity.
Qed.

Lemma lower_lstrip (s : string) :
  PyStr.lstrip (PyStr.lower s) = PyStr.lower (PyStr.lstrip s).
Proof.
  induction s as [|c s IH]; cbn [PyStr.lower PyStr.lstrip]; [reflexivity|].
  rewrite isspace_char_lower. destruct (PyStr.isspace c); [exact IH | reflexivity].
Qed.

Lemma lower_rstrip (s : string) :
  PyStr.rstrip (PyStr.lower s) = PyStr.lower (PyStr.rstrip s).
Proof.
  induction s as [|c s IH]; cbn [PyStr.lower PyStr.rstrip]; [reflexivity|].
  rewrite IH, isspace_char_lower.
  destruct (PyStr.rstrip s); cbn [PyStr.lower]; [|reflexivity].
  destruct (PyStr.isspace c); reflexivity.
Qed.

Lemma lower_strip (s : string) :
  PyStr.strip (PyStr.lower s) = PyStr.lower (PyStr.strip s).
Proof. unfold PyStr.strip. rewrite lower_lstrip, lower_rstrip. reflexivity. Qed.

(** ** Brand names: [normalize_brand_name] *)

Lemma brand_names_checked :
  forallb (fun kv => String.eqb (Processor.normalize_brand_name kv.2) kv.2)
          Config.BRAND_VARIATIONS = true.
Proof. vm_compute. reflexivity. Qed.

(** X1. [normalize_brand_name] is idempotent and does not see the blanks
    around its argument: a canonical name of [BRAND_VARIATIONS] is mapped
    to itself, and a name outside the table is only trimmed. *)
Theorem normalize_brand_name_idempotent (brand_name : string) :
  Processor.normalize_brand_name (Processor.normalize_brand_name brand_name)
  = Processor.normalize_brand_name brand_name
  /\ Processor.normalize_brand_name (PyStr.strip brand_name)
     = Processor.normalize_brand_name brand_name.
Proof.
  assert (Hstrip : forall x, Processor.normalize_brand_name (PyStr.strip x)
                             = Processor.normalize_brand_name x).
  { intros x. unfold Processor.normalize_brand_name.
    destruct (PyStr.truthy x) eqn:Tx; cbn [negb].
    - rewrite strip_idempotent.
      destruct (PyStr.truthy (PyStr.strip x)) eqn:T; cbn [negb]; [reflexivity|].
      apply truthy_false in T. rewrite T. reflexivity.
    - apply truthy_false in Tx. subst x. reflexivity. }
  split; [|apply Hstrip].
  unfold Processor.normalize_brand_name at 2 3.
  destruct (PyStr.truthy brand_name); cbn [negb]; [|reflexivity].
  destruct (table_get (PyStr.strip brand_name) Config.BRAND_VARIATIONS)
    as [canonical|] eqn:E.
  - apply table_get_In in E.
    pose proof brand_names_checked as F. rewrite forallb_forall in F.
    specialize (F _ E). apply String.eqb_eq, F.
  - rewrite Hstrip. unfold Processor.normalize_brand_name.
    destruct (PyStr.truthy brand_name) eqn:T; cbn [negb].
    + rewrite E. reflexivity.
    + apply truthy_false in T. subst. reflexivity.
Qed.

(** ** Placeholder product names: [is_valid_product_name] *)

(** X2. Whether a product name is valid does not depend on the blanks
    around it, and a name is valid exactly when, trimmed, it has at least
    three characters and, also in lower case, is not one of
    [INVALID_PRODUCT_NAMES]: the test for the empty name adds nothing. *)
Theorem is_valid_product_name_spec (product_name : string) :
  Processor.is_valid_product_name (PyStr.strip product_name)
  = Processor.is_valid_product_name product_name
  /\ (Processor.is_valid_product_name product_name = true
      <-> 3 <= String.length (PyStr.strip product_name)
          /\ PyStr.lower (PyStr.strip product_name) ∉ Config.INVALID_PRODUCT_NAMES).
Proof.
  assert (Hspec : forall x,
    Processor.is_valid_product_name x = true
    <-> 3 <= String.length (PyStr.strip x)
        /\ PyStr.lower (PyStr.strip x) ∉ Config.INVALID_PRODUCT_NAMES).
  { intros x. unfold Processor.is_valid_product_name. rewrite lower_strip.
    destruct (PyStr.truthy x) eqn:T; cbn [negb].
    - case_bool_decide as Hin.
      + split; [discriminate | tauto].
      + destruct (String.length (PyStr.strip x) <? 3) eqn:L.
        * apply Nat.ltb_lt in L. split; [discriminate | lia].
        * apply Nat.ltb_ge in L. tauto.
    - apply truthy_false in T. subst x. cbn. split; [discriminate | lia]. }
  assert (Hbool : forall x y,
    (Processor.is_valid_product_name x = true
     <-> Processor.is_valid_product_name y = true) ->
    Processor.is_valid_product_name x = Processor.is_valid_product_name y).
  { intros x y H. destruct (Processor.is_valid_product_name x),
      (Processor.is_valid_product_name y); try reflexivity;
      [apply proj1 in H | apply proj2 in H]; specialize (H eq_refl); congruence. }
  split; [|apply Hspec]. apply Hbool. rewrite !Hspec, strip_idempotent.
  reflexivity.
Qed.

(** ** The reconciler: the range of the scores *)










Section ScoreFacts.
Variable cfg : Config.t.





End ScoreFacts.


(** ** The reconciler: a record that agrees on the compared fields *)




(** ** The reconciler: running it twice *)





(** X6. With a backup sheet that has no row below its header, or no row
    at all, the reconciler returns the catalogue as it was. *)
Theorem restore_without_backup_rows (cfg : Config.t)
    (current_products : list (gmap string string))
    (backup_data : list (list string)) (backup_column_mapping : gmap string nat) :
  length backup_data <= 1 ->
  Restorer.restore_from_backup cfg current_products backup_data backup_column_mapping
  = Returns current_products.
Proof.
  intros H. unfold Restorer.restore_from_backup.
  destruct (1 <? length backup_data) eqn:L; [apply Nat.ltb_lt in L; lia|].
  cbn [mbind outcome_bind]. f_equal.
  rewrite <- (map_id current_products) at 2. apply map_ext. reflexivity.
Qed.

Lemma restore_without_backup_rows_witness :
  Restorer.restore_from_backup Config.CONFIG [Scenario.baileys]
    [["Brand"; "Product"]] {["brand_name" := 0]}
  = Returns [Scenario.baileys].
Proof.
  apply (restore_without_backup_rows Config.CONFIG [Scenario.baileys]
           [["Brand"; "Product"]] {["brand_name" := 0]}).
  cbn [length]. lia.
Defined.

(** ** The schema mapper: which column a field is read from *)

Lemma enumerate_snoc {A : Type} (l : list A) (x : A) :
  enumerate (l ++ [x]) = enumerate l ++ [(length l, x)].
Proof.
  unfold enumerate. rewrite length_app. cbn [length].
  rewrite seq_app. cbn [seq]. rewrite Nat.add_0_l.
  rewrite zip_with_app by (rewrite length_seq; reflexivity). reflexivity.
Qed.

Lemma get_column_mapping_snoc (headers : list string) (header : string) :
  Sheets.get_column_mapping (headers ++ [header])
  = (column_mapping ← Sheets.get_column_mapping headers;
     Returns match Sheets.canonical_field (Sheets.clean_header header) with
             | Some field => <[field := length headers]> column_mapping
             | None => column_mapping
             end).
Proof.
  unfold Sheets.get_column_mapping. rewrite enumerate_snoc, foldl_app. reflexivity.
Qed.

Lemma get_column_mapping_returns (headers : list string) :
  exists column_mapping, Sheets.get_column_mapping headers = Returns column_mapping.
Proof. eexists. reflexivity. Qed.

Lemma last_header_of_snoc (headers : list string) (header field : string) (i : nat) :
  Sheets.last_header_of (headers ++ [header]) field i
  <-> if decide (Sheets.canonical_field (Sheets.clean_header header) = Some field)
      then i = length headers
      else Sheets.last_header_of headers field i.
Proof.
  unfold Sheets.last_header_of. destruct (decide _) as [E | E]; split.
  - intros [(h & Hi & Hh) Hlast].
    apply lookup_app_Some in Hi as [Hi | [Hge Hi]].
    + exfalso. apply lookup_lt_Some in Hi.
      apply (Hlast (length headers) header); [lia | | exact E].
      apply list_lookup_middle. reflexivity.
    + apply list_lookup_singleton_Some in Hi as [Hi _]. lia.
  - intros ->. split.
    + exists header. split; [apply list_lookup_middle; reflexivity | exact E].
    + intros j h Hj Hh. apply lookup_lt_Some in Hh.
      rewrite length_app in Hh. cbn [length] in Hh. lia.
  - intros [(h & Hi & Hh) Hlast].
    apply lookup_app_Some in Hi as [Hi | [Hge Hi]].
    + split; [exists h; auto|].
      intros j h' Hj Hj'. apply (Hlast j h' Hj).
      apply lookup_app_Some. left. exact Hj'.
    + apply list_lookup_singleton_Some in Hi as [_ <-]. contradiction.
  - intros [(h & Hi & Hh) Hlast]. split.
    + exists h. split; [|exact Hh]. apply lookup_app_Some. left. exact Hi.
    + intros j h' Hj Hj'. apply lookup_app_Some in Hj' as [Hj' | [Hge Hj']].
      * apply (Hlast j h' Hj Hj').
      * apply list_lookup_singleton_Some in Hj' as [_ <-]. exact E.
Qed.

Lemma column_mapping_lookup (headers : list string) :
  forall column_mapping,
    Sheets.get_column_mapping headers = Returns column_mapping ->
    forall field i, column_mapping !! field = Some i <-> Sheets.last_header_of headers field i.
Proof.
  induction headers as [|header headers IH] using rev_ind;
    intros column_mapping Hm field i.
  - injection Hm as <-. rewrite lookup_empty. split; [discriminate|].
    intros [(h & Hi & _) _]. discriminate.
  - rewrite get_column_mapping_snoc in Hm.
    destruct (get_column_mapping_returns headers) as [m0 E0].
    rewrite E0 in Hm. cbn [mbind outcome_bind] in Hm. injection Hm as <-.
    rewrite last_header_of_snoc. specialize (IH m0 E0 field i).
    destruct (Sheets.canonical_field (Sheets.clean_header header)) as [f|].
    + destruct (decide (Some f = Some field)) as [[= ->] | Hne].
      * rewrite lookup_insert_eq. split; congruence.
      * rewrite lookup_insert_ne by congruence. exact IH.
    + destruct (decide _); [discriminate | exact IH].
Qed.

Lemma column_mapping_facts (headers : list string)
    (column_mapping : gmap string nat) :
  Sheets.get_column_mapping headers = Returns column_mapping ->
  (forall field i, column_mapping !! field = Some i -> i < length headers)
  /\ (forall field1 field2 i,
        column_mapping !! field1 = Some i -> column_mapping !! field2 = Some i ->
        field1 = field2).
Proof.
  intros E. pose proof (column_mapping_lookup headers column_mapping E) as H. split.
  - intros field i Hi. apply H in Hi as [(h & Hh & _) _].
    apply lookup_lt_Some in Hh. exact Hh.
  - intros f1 f2 i H1 H2.
    apply H in H1 as [(h1 & Hh1 & E1) _]. apply H in H2 as [(h2 & Hh2 & E2) _].
    congruence.
Qed.

(** X7. [get_column_mapping] never fails, and it maps a field to the last
    column whose header names that field: the index is inside the header
    row, and two fields are never read from the same column. *)
Theorem column_mapping_last_header (headers : list string) :
  exists column_mapping,
    Sheets.get_column_mapping headers = Returns column_mapping
    /\ (forall field i,
          column_mapping !! field = Some i <-> Sheets.last_header_of headers field i)
    /\ (forall field i, column_mapping !! field = Some i -> i < length headers)
    /\ (forall field1 field2 i,
          column_mapping !! field1 = Some i -> column_mapping !! field2 = Some i ->
          field1 = field2).
Proof.
  destruct (get_column_mapping_returns headers) as [m E]. exists m.
  split; [exact E|]. split; [exact (column_mapping_lookup headers m E)|].
  exact (column_mapping_facts headers m E).
Qed.

Lemma column_mapping_last_header_witness :
  exists column_mapping,
    Sheets.get_column_mapping ["Brand"; "Product Name"; "Brand Name"]
    = Returns column_mapping
    /\ (forall field i,
          column_mapping !! field = Some i
          <-> Sheets.last_header_of ["Brand"; "Product Name"; "Brand Name"] field i)
    /\ (forall field i, column_mapping !! field = Some i ->
                        i < length ["Brand"; "Product Name"; "Brand Name"])
    /\ (forall field1 field2 i,
          column_mapping !! field1 = Some i -> column_mapping !! field2 = Some i ->
          field1 = field2).
Proof. apply (column_mapping_last_header ["Brand"; "Product Name"; "Brand Name"]). Defined.

(** ** The schema mapper: case and blanks of the headers *)

Lemma clean_header_lower (header : string) :
  Sheets.clean_header (PyStr.lower header) = Sheets.clean_header header.
Proof. unfold Sheets.clean_header. rewrite lower_idempotent. reflexivity. Qed.

Lemma clean_header_strip (header : string) :
  Sheets.clean_header (PyStr.strip header) = Sheets.clean_header header.
Proof.
  unfold Sheets.clean_header. rewrite !lower_strip, strip_idempotent. reflexivity.
Qed.

Lemma get_column_mapping_ext (g : string -> string) (headers : list string) :
  (forall header, Sheets.clean_header (g header) = Sheets.clean_header header) ->
  Sheets.get_column_mapping (map g headers) = Sheets.get_column_mapping headers.
Proof.
  intros Hg. induction headers as [|header headers IH] using rev_ind; [reflexivity|].
  rewrite map_app. cbn [map]. rewrite !get_column_mapping_snoc, IH, Hg, length_map.
  reflexivity.
Qed.

(** X8. The column mapping does not depend on the case of the headers nor
    on the blanks around them. *)
Theorem column_mapping_ignores_case_and_blanks (headers : list string) :
  Sheets.get_column_mapping (map PyStr.lower headers)
  = Sheets.get_column_mapping headers
  /\ Sheets.get_column_mapping (map PyStr.strip headers)
     = Sheets.get_column_mapping headers.
Proof.
  split; apply get_column_mapping_ext; [exact clean_header_lower | exact clean_header_strip].
Qed.

(** ** Reading the sheet: [process_existing_data] *)

Lemma named_truthy (product : gmap string string) :
  PyStr.truthy (dict_get "brand_name" product)
  || PyStr.truthy (dict_get "product_name" product) = bool_decide (Restorer.named product).
Proof.
  unfold Restorer.named. case_bool_decide as H.
  - destruct H as [H | H].
    + destruct (dict_get "brand_name" product); [congruence | reflexivity].
    + destruct (dict_get "product_name" product); [congruence|].
      apply orb_true_r.
  - destruct (dict_get "brand_name" product) eqn:E1; [|exfalso; apply H; left; congruence].
    destruct (dict_get "product_name" product) eqn:E2; [reflexivity|].
    exfalso. apply H. right. congruence.
Qed.

Lemma process_rows_spec (column_mapping : gmap string nat) (rows : list (list string)) :
  forall processed_existing,
    foldl (fun processed_existing row =>
             if 3 <=? length row then
               let product := Restorer.existing_product column_mapping row in
               if PyStr.truthy (dict_get "brand_name" product)
                  || PyStr.truthy (dict_get "product_name" product)
               then processed_existing ++ [product]
               else processed_existing
             else processed_existing) processed_existing rows
    = processed_existing
      ++ filter Restorer.named
           (map (Restorer.existing_product column_mapping)
                (filter (fun row => 3 <= length row) rows)).
Proof.
  induction rows as [|row rows IH]; intros acc; cbn [foldl].
  - rewrite app_nil_r. reflexivity.
  - rewrite IH. rewrite (filter_cons (fun row => 3 <= length row)).
    destruct (3 <=? length row) eqn:L.
    + apply Nat.leb_le in L. rewrite decide_True by exact L.
      cbn [map]. rewrite (filter_cons Restorer.named), named_truthy.
      case_bool_decide as Hn.
      * rewrite decide_True by exact Hn. rewrite <- app_assoc. reflexivity.
      * rewrite decide_False by exact Hn. reflexivity.
    + apply Nat.leb_gt in L. rewrite decide_False by lia. reflexivity.
Qed.

Lemma process_existing_data_eq (existing_data : list (list string)) :
  Restorer.process_existing_data existing_data
  = if 1 <? length existing_data then
      column_mapping ← Sheets.get_column_mapping (hd [] existing_data);
      Returns (filter Restorer.named
                 (map (Restorer.existing_product column_mapping)
                      (filter (fun row => 3 <= length row) (tail existing_data))))
    else Returns [].
Proof.
  unfold Restorer.process_existing_data. destruct (1 <? _); [|reflexivity].
  destruct (get_column_mapping_returns (hd [] existing_data)) as [m E].
  rewrite E. cbn [mbind outcome_bind]. rewrite process_rows_spec. reflexivity.
Qed.

(** X9. [process_existing_data] never fails. A sheet with at most its
    header row gives no record; otherwise every record comes from a row
    of at least three cells below the header, carries a brand or a product
    name, holds under each mapped field other than [source] the cell of the
    mapped column (empty when the row is too short), and has the source
    [Existing] whatever the sheet says. *)
Theorem process_existing_data_spec (existing_data : list (list string)) :
  exists column_mapping processed_existing,
    Sheets.get_column_mapping (hd [] existing_data) = Returns column_mapping
    /\ Restorer.process_existing_data existing_data = Returns processed_existing
    /\ (length existing_data <= 1 -> processed_existing = [])
    /\ length processed_existing <= length existing_data - 1
    /\ Forall (fun product =>
                 product !! "source" = Some "Existing"
                 /\ Restorer.named product
                 /\ exists row,
                      row ∈ tail existing_data /\ 3 <= length row
                      /\ forall field_name,
                           field_name <> "source" ->
                           product !! field_name
                           = (fun col_idx => default EmptyString (row !! col_idx))
                               <$> column_mapping !! field_name)
              processed_existing.
Proof.
  destruct (get_column_mapping_returns (hd [] existing_data)) as [m E].
  exists m. rewrite process_existing_data_eq, E.
  destruct (1 <? length existing_data) eqn:L.
  - apply Nat.ltb_lt in L. cbn [mbind outcome_bind].
    eexists. split; [reflexivity|]. split; [reflexivity|].
    split; [lia|]. split.
    + etrans; [apply length_filter|]. rewrite length_map.
      etrans; [apply length_filter|].
      destruct existing_data; cbn [tail length]; lia.
    + apply Forall_forall. intros product Hp.
      apply list_elem_of_filter in Hp as [Hn Hp].
      apply list_elem_of_fmap in Hp as (row & -> & Hrow).
      apply list_elem_of_filter in Hrow as [Hlen Hrow].
      unfold Restorer.existing_product at 1.
      split; [apply lookup_insert_eq|]. split; [exact Hn|].
      exists row. split; [exact Hrow|]. split; [exact Hlen|].
      intros field_name Hf. unfold Restorer.existing_product.
      rewrite lookup_insert_ne by congruence. apply lookup_fmap.
  - apply Nat.ltb_ge in L. exists []. split; [reflexivity|]. split; [reflexivity|].
    split; [reflexivity|]. split; [cbn [length]; lia | constructor].
Qed.

Lemma process_existing_data_spec_witness :
  exists column_mapping processed_existing,
    Sheets.get_column_mapping (hd [] [["Brand"; "Product"; "Source"]])
    = Returns column_mapping
    /\ Restorer.process_existing_data [["Brand"; "Product"; "Source"]]
       = Returns processed_existing
    /\ (length [["Brand"; "Product"; "Source"]] <= 1 -> processed_existing = [])
    /\ length processed_existing <= length [["Brand"; "Product"; "Source"]] - 1
    /\ Forall (fun product =>
                 product !! "source" = Some "Existing"
                 /\ Restorer.named product
                 /\ exists row,
                      row ∈ tail [["Brand"; "Product"; "Source"]] /\ 3 <= length row
                      /\ forall field_name,
                           field_name <> "source" ->
                           product !! field_name
                           = (fun col_idx => default EmptyString (row !! col_idx))
                               <$> column_mapping !! field_name)
              processed_existing.
Proof. apply (process_existing_data_spec [["Brand"; "Product"; "Source"]]). Defined.

(** ** Writing the sheet and reading it back *)

Section RowFacts.
Variable product : gmap string string.

Lemma new_row_fold (fields : list (string * nat)) :
  NoDup fields.*2 ->
  forall row : list string,
    let filled :=
      foldl (fun new_row '(field_name, col_idx) =>
               if col_idx <? length new_row
               then <[col_idx := dict_get field_name product]> new_row
               else new_row) row fields in
    length filled = length row
    /\ (forall field_name col_idx,
          (field_name, col_idx) ∈ fields -> col_idx < length row ->
          filled !! col_idx = Some (dict_get field_name product))
    /\ (forall col_idx, col_idx ∉ fields.*2 -> filled !! col_idx = row !! col_idx).
Proof.
  induction fields as [|[f c] fields IH]; intros Hnd row; cbn [foldl].
  - split; [reflexivity|]. split; [|reflexivity].
    intros ? ? H. apply elem_of_nil in H. contradiction.
  - rewrite fmap_cons in Hnd. cbn [snd] in Hnd. apply NoDup_cons in Hnd as [Hc Hnd].
    set (row' := if c <? length row then <[c := dict_get f product]> row else row).
    assert (Hlen : length row' = length row).
    { subst row'. destruct (c <? length row); [apply length_insert | reflexivity]. }
    destruct (IH Hnd row') as (IH1 & IH2 & IH3).
    split; [rewrite IH1; exact Hlen|]. split.
    + intros f' c' Hin Hlt. apply elem_of_cons in Hin as [[= -> ->] | Hin].
      * rewrite IH3 by exact Hc. subst row'.
        rewrite (proj2 (Nat.ltb_lt _ _) Hlt). apply list_lookup_insert_eq, Hlt.
      * apply IH2; [exact Hin | rewrite Hlen; exact Hlt].
    + intros c' Hc'. rewrite fmap_cons in Hc'. cbn [snd] in Hc'.
      apply not_elem_of_cons in Hc' as [Hne Hc'].
      rewrite IH3 by exact Hc'. subst row'.
      destruct (c <? length row); [|reflexivity].
      apply list_lookup_insert_ne. congruence.
Qed.

Lemma new_row_spec (original_headers : list string) (column_mapping : gmap string nat) :
  (forall field1 field2 i,
     column_mapping !! field1 = Some i -> column_mapping !! field2 = Some i ->
     field1 = field2) ->
  length (Sheets.new_row original_headers column_mapping product)
  = length original_headers
  /\ (forall field_name col_idx,
        column_mapping !! field_name = Some col_idx ->
        col_idx < length original_headers ->
        Sheets.new_row original_headers column_mapping product !! col_idx
        = Some (dict_get field_name product))
  /\ (forall col_idx,
        col_idx < length original_headers ->
        (forall field_name, column_mapping !! field_name <> Some col_idx) ->
        Sheets.new_row original_headers column_mapping product !! col_idx
        = Some EmptyString).
Proof.
  intros Hinj.
  assert (Hnd : NoDup (map_to_list column_mapping).*2).
  { apply NoDup_fmap_2_strong; [|apply NoDup_map_to_list].
    intros [f1 c1] [f2 c2] H1 H2 Hc. cbn [snd] in Hc. subst c2.
    apply elem_of_map_to_list in H1, H2. f_equal. eapply Hinj; eassumption. }
  destruct (new_row_fold (map_to_list column_mapping) Hnd
              (replicate (length original_headers) EmptyString)) as (H1 & H2 & H3).
  rewrite length_replicate in H1, H2. unfold Sheets.new_row.
  split; [exact H1|]. split.
  - intros f c Hf Hc. apply H2; [|exact Hc]. apply elem_of_map_to_list, Hf.
  - intros c Hc Hnone. rewrite H3.
    + apply lookup_replicate_2, Hc.
    + intros Hin. apply list_elem_of_fmap in Hin as ([f c'] & -> & Hin).
      apply elem_of_map_to_list in Hin. exact (Hnone f Hin).
Qed.

End RowFacts.

Lemma existing_product_new_row (original_headers : list string)
    (column_mapping : gmap string nat) (product : gmap string string) :
  Sheets.get_column_mapping original_headers = Returns column_mapping ->
  Restorer.existing_product column_mapping
    (Sheets.new_row original_headers column_mapping product)
  = Restorer.read_back column_mapping product.
Proof.
  intros E.
  destruct (column_mapping_facts original_headers column_mapping E)
    as [Hlt Hinj].
  destruct (new_row_spec product original_headers column_mapping Hinj) as (_ & H2 & _).
  unfold Restorer.existing_product, Restorer.read_back. f_equal.
  apply map_eq. intros f. rewrite lookup_fmap, map_lookup_imap.
  destruct (column_mapping !! f) as [c|] eqn:Ef; [|reflexivity].
  cbn. rewrite (H2 f c Ef (Hlt f c Ef)). reflexivity.
Qed.

(** X10. Writing a catalogue under a header row of at least three columns
    and reading the written sheet back gives, in the same order, the
    records that have a brand or a product name in a mapped column, each
    cut down to the mapped fields, a missing field read as the empty
    string, and with the source [Existing]. Every written row is as wide
    as the header row. *)
Theorem sheet_round_trip (processed_products : list (gmap string string))
    (original_headers : list string) (old_rows : list (list string)) :
  3 <= length original_headers ->
  exists column_mapping sheet,
    Sheets.get_column_mapping original_headers = Returns column_mapping
    /\ Sheets.new_sheet_data processed_products (original_headers :: old_rows)
       = Returns (Some sheet)
    /\ Forall (fun row => length row = length original_headers) sheet
    /\ length sheet = S (length processed_products)
    /\ Restorer.process_existing_data sheet
       = Returns (filter Restorer.named (map (Restorer.read_back column_mapping) processed_products)).
Proof.
  intros Hwide.
  destruct (get_column_mapping_returns original_headers) as [m E].
  pose proof (column_mapping_facts original_headers m E) as [Hlt Hinj].
  exists m. eexists. split; [exact E|].
  unfold Sheets.new_sheet_data. rewrite E. cbn [mbind outcome_bind].
  split; [reflexivity|].
  assert (Hrows : Forall (fun row => length row = length original_headers)
                    (map (Sheets.new_row original_headers m) processed_products)).
  { apply Forall_forall. intros row Hrow.
    apply list_elem_of_fmap in Hrow as (p & -> & _).
    apply (new_row_spec p original_headers m Hinj). }
  split; [constructor; [reflexivity | exact Hrows]|].
  split; [cbn [length]; rewrite length_map; reflexivity|].
  rewrite process_existing_data_eq. cbn [length hd tail]. rewrite length_map.
  destruct processed_products as [|p ps] eqn:Eps; [reflexivity|]. rewrite <- Eps in *.
  replace (1 <? S (length processed_products)) with true
    by (symmetry; apply Nat.ltb_lt; rewrite Eps; cbn [length]; lia).
  rewrite E. cbn [mbind outcome_bind]. do 2 f_equal.
  assert (Hall : filter (fun row => 3 <= length row)
                   (map (Sheets.new_row original_headers m) processed_products)
                 = map (Sheets.new_row original_headers m) processed_products).
  { clear Eps. induction Hrows as [|row rows Hrow _ IH]; [reflexivity|].
    rewrite filter_cons, decide_True by lia. rewrite IH. reflexivity. }
  rewrite Hall, map_map. apply map_ext. intros q.
  apply (existing_product_new_row original_headers m q E).
Qed.

Lemma sheet_round_trip_witness :
  exists column_mapping sheet,
    Sheets.get_column_mapping ["Brand"; "Product"; "Price"] = Returns column_mapping
    /\ Sheets.new_sheet_data [Scenario.baileys] (["Brand"; "Product"; "Price"] :: [])
       = Returns (Some sheet)
    /\ Forall (fun row => length row = length ["Brand"; "Product"; "Price"]) sheet
    /\ length sheet = S (length [Scenario.baileys])
    /\ Restorer.process_existing_data sheet
       = Returns (filter Restorer.named (map (Restorer.read_back column_mapping) [Scenario.baileys])).
Proof.
  apply (sheet_round_trip [Scenario.baileys] ["Brand"; "Product"; "Price"] []).
  cbn [length]. lia.
Defined.

(** ** Rows taken out of the sheet: [_rebuild_products_for_updated_sheet] *)

Lemma rebuild_products_fold {A : Type} (removed : gset nat) (items : list (nat * A)) :
  forall remaining_products,
    foldl (fun remaining_products '(i, product) =>
             if decide (i ∉ removed)
             then remaining_products ++ [product]
             else remaining_products) remaining_products items
    = remaining_products ++ (filter (fun ip => ip.1 ∉ removed) items).*2.
Proof.
  induction items as [|[i p] items IH]; intros acc; cbn [foldl].
  - rewrite app_nil_r. reflexivity.
  - rewrite IH, filter_cons. cbn [fst]. destruct (decide (i ∉ removed)).
    + rewrite fmap_cons, <- app_assoc. reflexivity.
    + reflexivity.
Qed.

(** X11. Taking rows out keeps the other products in their order: the
    result is a sublist of the catalogue, a product stays exactly when its
    index is not listed, an index outside the catalogue or listed twice
    changes nothing, and with no index listed the catalogue is returned
    as it is. *)
Theorem rebuild_products_spec {A : Type} (original_products : list A)
    (removed_row_indices : list nat) :
  sublist (Sheets._rebuild_products_for_updated_sheet original_products removed_row_indices)
          original_products
  /\ Sheets._rebuild_products_for_updated_sheet original_products removed_row_indices
     = (filter (fun ip => ip.1 ∉ removed_row_indices) (enumerate original_products)).*2
  /\ length (Sheets._rebuild_products_for_updated_sheet original_products
               removed_row_indices)
     + length (filter (fun i => i ∈ removed_row_indices)
                      (seq 0 (length original_products)))
     = length original_products
  /\ Sheets._rebuild_products_for_updated_sheet original_products [] = original_products.
Proof.
  assert (Hfold : forall removed,
    Sheets._rebuild_products_for_updated_sheet original_products removed
    = (filter (fun ip => ip.1 ∉ removed) (enumerate original_products)).*2).
  { intros removed. unfold Sheets._rebuild_products_for_updated_sheet.
    rewrite rebuild_products_fold. cbn [app]. f_equal.
    apply list_filter_iff. intros [i p]. cbn [fst]. rewrite elem_of_list_to_set.
    reflexivity. }
  split; [|split; [apply Hfold|split]].
  - rewrite Hfold. rewrite <- (enumerate_snd original_products) at 2.
    apply sublist_fmap, sublist_filter.
  - rewrite Hfold, length_fmap.
    assert (Haux : forall items : list (nat * A),
      length (filter (fun ip => ip.1 ∉ removed_row_indices) items)
      + length (filter (fun i => i ∈ removed_row_indices) items.*1) = length items).
    { induction items as [|[i p] items IH]; [reflexivity|].
      rewrite fmap_cons, !filter_cons. cbn [fst length].
      destruct (decide (i ∉ removed_row_indices)) as [Hi | Hi].
      - rewrite decide_False by tauto. cbn [length]. lia.
      - rewrite decide_True by (destruct (decide (i ∈ removed_row_indices)); tauto).
        cbn [length]. lia. }
    specialize (Haux (enumerate original_products)).
    rewrite enumerate_fst in Haux. rewrite Haux.
    rewrite <- (length_fmap snd (enumerate original_products)), enumerate_snd.
    reflexivity.
  - rewrite Hfold. rewrite <- (enumerate_snd original_products) at 2. f_equal.
    generalize (enumerate original_products). intros items.
    induction items as [|[i p] items IH]; [reflexivity|].
    rewrite filter_cons, decide_True by (cbn; apply not_elem_of_nil).
    rewrite IH. reflexivity.
Qed.

(** ** Exact duplicates: the clusters are the key classes *)

Lemma two_in_filter {A : Type} (P : A -> Prop) `{forall x, Decision (P x)}
    (l : list A) :
  forall i j p q,
    i <> j -> l !! i = Some p -> l !! j = Some q -> P p -> P q ->
    1 < length (filter P l).
Proof.
  induction l as [|a l IH]; intros i j p q Hij Hi Hj Hp Hq; [discriminate|].
  assert (Hone : forall k x, l !! k = Some x -> P x -> 0 < length (filter P l)).
  { intros k x Hk Hx. assert (Hin : x ∈ filter P l).
    { apply list_elem_of_filter. split; [exact Hx|].
      apply list_elem_of_lookup. exists k. exact Hk. }
    destruct (filter P l); [inversion Hin | cbn [length]; lia]. }
  destruct i as [|i], j as [|j]; cbn in Hi, Hj.
  - congruence.
  - injection Hi as ->. rewrite filter_cons_True by exact Hp.
    cbn [length]. specialize (Hone j q Hj Hq). lia.
  - injection Hj as ->. rewrite filter_cons_True by exact Hq.
    cbn [length]. specialize (Hone i p Hi Hp). lia.
  - assert (Hl : 1 < length (filter P l)) by (apply (IH i j p q); auto).
    rewrite filter_cons. destruct (decide (P a)); cbn [length]; lia.
Qed.

Section ExactClasses.
Context {Obj : Type}.
Variable fields : Obj -> gmap string string.

Lemma exact_group_class (products : list Obj) (key : string) (group : list Obj) :
  (key, group) ∈ exact_groups fields products ->
  group = key_class fields products key.
Proof.
  intros Hin. pose proof (grouped_content (exact_key fields) products) as H.
  rewrite Forall_forall in H. exact (H _ Hin).
Qed.

Lemma exact_class_group (products : list Obj) (key : string) :
  key_class fields products key <> [] ->
  (key, key_class fields products key) ∈ exact_groups fields products.
Proof.
  intros Hne. destruct (key_class fields products key) as [|p class] eqn:E; [congruence|].
  assert (Hp : p ∈ key_class fields products key) by (rewrite E; left).
  apply list_elem_of_filter in Hp as [Hk Hp].
  destruct (grouped_complete (exact_key fields) products p key Hp Hk) as (xs & Hin & _).
  rewrite <- E. rewrite <- (exact_group_class products key xs Hin). exact Hin.
Qed.

Lemma find_exact_duplicates_classes (products : list Obj) (cluster : list Obj) :
  cluster ∈ find_exact_duplicates fields products
  <-> exists key, cluster = key_class fields products key /\ 1 < length cluster.
Proof.
  rewrite find_exact_duplicates_filter, list_elem_of_filter, list_elem_of_fmap. split.
  - intros (Hlen & [key group] & -> & Hin). exists key.
    split; [apply exact_group_class, Hin | exact Hlen].
  - intros (key & -> & Hlen). split; [exact Hlen|].
    exists (key, key_class fields products key). split; [reflexivity|].
    apply exact_class_group. intros E. rewrite E in Hlen. cbn in Hlen. lia.
Qed.

End ExactClasses.

(** X12. In exact mode the clusters are exactly the key classes with at
    least two records: a cluster holds every record of the catalogue that
    has its key, and two records at different places with the same key are
    in one cluster together. *)
Theorem exact_duplicates_complete (Obj : Type) (fields : Obj -> gmap string string)
    (products : list Obj) :
  (forall cluster,
     cluster ∈ find_exact_duplicates fields products
     <-> exists key, cluster = key_class fields products key /\ 1 < length cluster)
  /\ (forall i j p q key,
        i <> j -> products !! i = Some p -> products !! j = Some q ->
        exact_key fields p = Some key -> exact_key fields q = Some key ->
        key_class fields products key ∈ find_exact_duplicates fields products
        /\ p ∈ key_class fields products key
        /\ q ∈ key_class fields products key).
Proof.
  split; [apply find_exact_duplicates_classes|].
  intros i j p q key Hij Hi Hj Hp Hq. split; [|split].
  - apply find_exact_duplicates_classes. exists key. split; [reflexivity|].
    unfold key_class.
    apply (two_in_filter (fun x => exact_key fields x = Some key) products i j p q);
      assumption.
  - apply list_elem_of_filter. split; [exact Hp|].
    apply list_elem_of_lookup. exists i. exact Hi.
  - apply list_elem_of_filter. split; [exact Hq|].
    apply list_elem_of_lookup. exists j. exact Hj.
Qed.

Lemma exact_duplicates_complete_witness :
  key_class id [Scenario.smirnoff_750; Scenario.smirnoff_1l; Scenario.smirnoff_750_caps]
    "smirnoff|vodka 750ml"
    ∈ find_exact_duplicates id
        [Scenario.smirnoff_750; Scenario.smirnoff_1l; Scenario.smirnoff_750_caps]
  /\ Scenario.smirnoff_750
       ∈ key_class id
           [Scenario.smirnoff_750; Scenario.smirnoff_1l; Scenario.smirnoff_750_caps]
           "smirnoff|vodka 750ml"
  /\ Scenario.smirnoff_750_caps
       ∈ key_class id
           [Scenario.smirnoff_750; Scenario.smirnoff_1l; Scenario.smirnoff_750_caps]
           "smirnoff|vodka 750ml".
Proof.
  apply (proj2 (exact_duplicates_complete (gmap string string) id
                  [Scenario.smirnoff_750; Scenario.smirnoff_1l;
                   Scenario.smirnoff_750_caps])
           0 2 Scenario.smirnoff_750 Scenario.smirnoff_750_caps "smirnoff|vodka 750ml");
    [lia | reflexivity | reflexivity | vm_compute; reflexivity | vm_compute; reflexivity].
Defined.

(** ** Merging: which record is the base *)

Section BaseFacts.
Context {A : Type}.
Variable key : A -> list nat.

Lemma first_least_least (l : list A) (x y : A) :
  first_least key l x -> y ∈ l -> key_ltb (key y) (key x) = false.
Proof.
  intros (before & after & -> & Hb & Ha) Hy.
  apply elem_of_app in Hy as [Hy | Hy].
  - apply key_ltb_asym, Hb, Hy.
  - apply elem_of_cons in Hy as [-> | Hy]; [apply key_ltb_irrefl | apply Ha, Hy].
Qed.

Lemma sorted_first_least (l : list A) :
  forall x rest, sorted key l = x :: rest -> first_least key l x.
Proof.
  induction l as [|y l IH]; intros x rest E; [discriminate|].
  cbn [sorted foldr] in E. fold (sorted key l) in E.
  destruct (sorted key l) as [|z r] eqn:Es.
  - assert (l = []) as ->.
    { apply Permutation_nil. rewrite <- Es. apply sorted_perm. }
    cbn in E. injection E as <- <-. exists [], [].
    split; [reflexivity|]. split; intros ? H; inversion H.
  - specialize (IH z r eq_refl). cbn [insert_by] in E.
    destruct (key_ltb (key z) (key y)) eqn:L; injection E as <- <-.
    + destruct IH as (before & after & -> & Hb & Ha).
      exists (y :: before), after. split; [reflexivity|]. split; [|exact Ha].
      intros m Hm. apply elem_of_cons in Hm as [-> | Hm]; [exact L | apply Hb, Hm].
    + exists [], l. split; [reflexivity|]. split; [intros ? H; inversion H|].
      intros m Hm. pose proof (first_least_least l z m IH Hm) as Hmz.
      destruct (key_ltb (key m) (key y)) eqn:Hmy; [|reflexivity].
      destruct (key_ltb_cotrans _ (key z) _ Hmy); congruence.
Qed.

End BaseFacts.

Section MergeBase.
Context {Obj : Type}.
Variable fields : Obj -> gmap string string.

Lemma merge_group_base (key : Obj -> list nat) (cluster : list Obj) :
  cluster <> [] ->
  exists base others,
    sorted key cluster = base :: others
    /\ first_least key cluster base
    /\ merge_group fields key cluster
       = Returns (foldl (add_missing fields) (fields base) others).
Proof.
  intros Hne. unfold merge_group.
  destruct (sorted key cluster) as [|base others] eqn:E.
  - exfalso. exact (sorted_nonempty key cluster Hne E).
  - exists base, others. split; [reflexivity|].
    split; [exact (sorted_first_least key cluster base others E) | reflexivity].
Qed.

Lemma merge_single (key : Obj -> list nat) (cluster : list Obj) :
  cluster <> [] ->
  exists base merged,
    first_least key cluster base
    /\ merge_groups fields key [cluster] [] = Returns [merged]
    /\ (forall k, ~ copied k -> merged !! k = fields base !! k).
Proof.
  intros Hne. destruct (merge_group_base key cluster Hne) as (base & others & _ & Hb & E).
  exists base, (foldl (add_missing fields) (fields base) others).
  split; [exact Hb|]. split.
  - cbn [merge_groups]. destruct cluster; [congruence|]. rewrite E. reflexivity.
  - intros k Hk. rewrite foldl_add_missing_lookup.
    rewrite bool_decide_eq_false_2 by exact Hk. reflexivity.
Qed.

End MergeBase.

(** X13. The base of a merge is the first record of the cluster among
    those with the least quality key: the records before it in the cluster
    have a greater key, no record has a smaller one, and the merged record
    takes every field but the three copied ones from it. This holds of both
    scripts, each with its own key. *)
Theorem merge_base_is_first_least (Obj : Type) (fields : Obj -> gmap string string)
    (cluster : list Obj) :
  cluster <> [] ->
  (exists base merged,
     first_least (Processor.quality fields) cluster base
     /\ Processor.merge_duplicates fields [cluster] = Returns [merged]
     /\ (forall k, ~ copied k -> merged !! k = fields base !! k))
  /\ (exists base merged,
        first_least (Integrity.quality fields) cluster base
        /\ Integrity.merge_duplicates fields [cluster] = Returns [merged]
        /\ (forall k, ~ copied k -> merged !! k = fields base !! k)).
Proof.
  intros Hne. split.
  - apply (merge_single fields (Processor.quality fields) cluster Hne).
  - apply (merge_single fields (Integrity.quality fields) cluster Hne).
Qed.

Lemma merge_base_is_first_least_witness :
  (exists base merged,
     first_least (Processor.quality id)
       [Scenario.priced_long; Scenario.priced_short; Scenario.pictured] base
     /\ Processor.merge_duplicates id
          [[Scenario.priced_long; Scenario.priced_short; Scenario.pictured]]
        = Returns [merged]
     /\ (forall k, ~ copied k -> merged !! k = id base !! k))
  /\ (exists base merged,
        first_least (Integrity.quality id)
          [Scenario.priced_long; Scenario.priced_short; Scenario.pictured] base
        /\ Integrity.merge_duplicates id
             [[Scenario.priced_long; Scenario.priced_short; Scenario.pictured]]
           = Returns [merged]
        /\ (forall k, ~ copied k -> merged !! k = id base !! k)).
Proof.
  apply (merge_base_is_first_least (gmap string string) id
           [Scenario.priced_long; Scenario.priced_short; Scenario.pictured]).
  discriminate.
Defined.

(** ** Removing duplicates: [remove_duplicates] *)

Lemma count_NoDup {A : Type} `{EqDecision A} (ks : list A) (k : A) :
  NoDup ks ->
  length (filter (fun k' => k' = k) ks) <= 1
  /\ (k ∉ ks -> filter (fun k' => k' = k) ks = []).
Proof.
  induction 1 as [|k0 ks Hk0 _ [IH1 IH2]]; [split; [cbn; lia | reflexivity]|].
  rewrite filter_cons. destruct (decide (k0 = k)) as [-> | Hne].
  - rewrite (IH2 Hk0). split; [cbn; lia|]. intros Hk. exfalso. apply Hk. left.
  - split; [exact IH1|]. intros Hk. apply IH2. intros Hin. apply Hk. right. exact Hin.
Qed.

Lemma concat_length_twice {A : Type} (ls : list (list A)) :
  Forall (fun l => 2 <= length l) ls -> 2 * length ls <= length (concat ls).
Proof.
  induction 1 as [|l ls Hl _ IH]; [reflexivity|].
  cbn [concat length]. rewrite length_app. lia.
Qed.

Lemma not_copied_names :
  ~ copied "brand_name" /\ ~ copied "product_name".
Proof. split; intros [H | [H | H]]; discriminate. Qed.

Lemma exact_key_ext (product1 product2 : gmap string string) :
  product1 !! "brand_name" = product2 !! "brand_name" ->
  product1 !! "product_name" = product2 !! "product_name" ->
  exact_key id product1 = exact_key id product2.
Proof.
  intros H1 H2. unfold exact_key, get, dict_get, id. rewrite H1, H2. reflexivity.
Qed.

Section RemoveFacts.
Context {Obj : Type}.
Variable fields : Obj -> gmap string string.

(** Every merged record has the brand and the product name of a member of
    its cluster. *)
Lemma merge_groups_spec (key : Obj -> list nat) (duplicates : list (list Obj)) :
  Forall (fun g => g <> []) duplicates ->
  forall acc, exists new,
    merge_groups fields key duplicates acc = Returns (acc ++ new)
    /\ Forall2 (fun g merged =>
                  exists base,
                    base ∈ g /\ forall k, ~ copied k -> merged !! k = fields base !! k)
               duplicates new.
Proof.
  induction 1 as [|g gs Hg _ IH]; intros acc.
  - exists []. rewrite app_nil_r. split; [reflexivity | constructor].
  - destruct (merge_group_base fields key g Hg) as (base & others & _ & Hb & E).
    cbn [merge_groups]. destruct g as [|x g]; [congruence|].
    rewrite E. cbn [mbind outcome_bind].
    destruct (IH (acc ++ [foldl (add_missing fields) (fields base) others]))
      as (new & E1 & H2).
    exists (foldl (add_missing fields) (fields base) others :: new).
    rewrite E1, <- app_assoc. split; [reflexivity|].
    constructor; [|exact H2]. exists base. split.
    + destruct Hb as (before & after & -> & _).
      apply elem_of_app. right. left.
    + intros k Hk. rewrite foldl_add_missing_lookup.
      rewrite bool_decide_eq_false_2 by exact Hk. reflexivity.
Qed.

Lemma key_class_fmap (products : list Obj) (key : string) :
  key_class id (map fields products) key = map fields (key_class fields products key).
Proof.
  unfold key_class. induction products as [|p products IH]; [reflexivity|].
  cbn [map]. rewrite !filter_cons, IH.
  change (exact_key id (fields p)) with (exact_key fields p).
  destruct (decide (exact_key fields p = Some key)); reflexivity.
Qed.

(** The clusters of exact mode, listed by their keys. *)
Lemma exact_clusters_keys_of (products : list Obj) (groups : list (string * list Obj)) :
  NoDup groups.*1 ->
  Forall (fun g => g.2 = key_class fields products g.1) groups ->
  exists keys,
    NoDup keys
    /\ (forall k, k ∈ keys -> k ∈ groups.*1)
    /\ filter (fun g => 1 < length g) (map snd groups)
       = map (key_class fields products) keys
    /\ Forall (fun k => 1 < length (key_class fields products k)) keys.
Proof.
  induction groups as [|[k xs] groups IH]; intros Hnd Hc.
  - exists []. split; [constructor|]. split; [intros ? H; inversion H|].
    split; [reflexivity | constructor].
  - rewrite fmap_cons in Hnd. cbn [fst] in Hnd. apply NoDup_cons in Hnd as [Hk Hnd].
    apply Forall_cons in Hc as [Hxs Hc]. cbn [fst snd] in Hxs.
    destruct (IH Hnd Hc) as (keys & Hkeys & Hsub & E & Hlen).
    cbn [map snd]. rewrite filter_cons. destruct (decide (1 < length xs)) as [Hl | Hl].
    + exists (k :: keys). split; [|split; [|split]].
      * apply NoDup_cons. split; [|exact Hkeys]. intros Hin. apply Hk, Hsub, Hin.
      * intros k' Hk'. rewrite fmap_cons. cbn [fst].
        apply elem_of_cons in Hk' as [-> | Hk']; [left | right; apply Hsub, Hk'].
      * cbn [map]. rewrite E, Hxs. reflexivity.
      * constructor; [rewrite <- Hxs; exact Hl | exact Hlen].
    + exists keys. split; [exact Hkeys|]. split; [|split; [exact E | exact Hlen]].
      intros k' Hk'. rewrite fmap_cons. right. apply Hsub, Hk'.
Qed.

Lemma exact_clusters_keys (products : list Obj) :
  exists keys,
    NoDup keys
    /\ find_exact_duplicates fields products = map (key_class fields products) keys
    /\ Forall (fun k => 1 < length (key_class fields products k)) keys.
Proof.
  destruct (exact_clusters_keys_of products (exact_groups fields products))
    as (keys & Hnd & _ & E & Hlen).
  - apply grouped_keys_NoDup.
  - apply grouped_content.
  - exists keys. rewrite find_exact_duplicates_filter. auto.
Qed.

Lemma no_exact_duplicates (products : list Obj) :
  (forall key, length (key_class fields products key) <= 1) ->
  find_exact_duplicates fields products = [].
Proof.
  intros H. destruct (find_exact_duplicates fields products) as [|c cs] eqn:E;
    [reflexivity|].
  assert (Hc : c ∈ find_exact_duplicates fields products) by (rewrite E; left).
  apply find_exact_duplicates_classes in Hc as (key & -> & Hlen).
  specialize (H key). lia.
Qed.

Lemma key_class_member (products : list Obj) (key : string) (p : Obj) :
  p ∈ key_class fields products key <-> exact_key fields p = Some key /\ p ∈ products.
Proof.
  unfold key_class.
  apply (list_elem_of_filter (fun product => exact_key fields product = Some key)).
Qed.

Lemma key_class_filter (Q : Obj -> Prop) `{forall p, Decision (Q p)}
    (products : list Obj) (key : string) :
  key_class fields (filter Q products) key = filter Q (key_class fields products key).
Proof.
  unfold key_class. rewrite !list_filter_filter. apply list_filter_iff.
  intros p. tauto.
Qed.

Lemma remove_duplicates_eq (cfg : Config.t) (products : list Obj)
    (use_exact_matching : bool) :
  Processor.remove_duplicates fields cfg products use_exact_matching
  = if length (Processor.find_duplicates fields cfg products use_exact_matching) =? 0
    then Returns (map fields products)
    else
      merged_products ←
        Processor.merge_duplicates fields
          (Processor.find_duplicates fields cfg products use_exact_matching);
      Returns
        (map fields
           (filter (fun product =>
                      Processor.product_id fields product
                        ∉ (list_to_set
                             (map (Processor.product_id fields)
                                (concat (Processor.find_duplicates fields cfg products
                                           use_exact_matching)))
                           : gset string)) products)
         ++ merged_products).
Proof.
  unfold Processor.remove_duplicates.
  destruct (Processor.find_duplicates fields cfg products use_exact_matching);
    reflexivity.
Qed.

End RemoveFacts.

Lemma merged_keys (new : list (gmap string string)) (keys : list string) (key : string) :
  Forall2 (fun k merged => exact_key id merged = Some k) keys new ->
  length (key_class id new key) = length (filter (fun k => k = key) keys).
Proof.
  unfold key_class. induction 1 as [|k m keys new Hm _ IH]; [reflexivity|].
  rewrite !filter_cons, Hm.
  destruct (decide (Some k = Some key)) as [[= ->] | Hne].
  - rewrite decide_True by reflexivity. cbn [length]. rewrite IH. reflexivity.
  - rewrite decide_False by congruence. exact IH.
Qed.

Lemma remove_exact_result {Obj : Type} (fields : Obj -> gmap string string)
    (cfg : Config.t) (products : list Obj) :
  exists result,
    Processor.remove_duplicates fields cfg products true = Returns result
    /\ find_exact_duplicates id result = [].
Proof.
  rewrite remove_duplicates_eq. unfold Processor.find_duplicates.
  destruct (exact_clusters_keys fields products) as (keys & Hnd & ED & Hlen).
  assert (Hclass : forall key, key ∉ keys ->
                     length (key_class fields products key) <= 1).
  { intros key Hkey.
    destruct (decide (1 < length (key_class fields products key))) as [Hl | Hl]; [|lia].
    exfalso. apply Hkey.
    assert (Hc : key_class fields products key ∈ find_exact_duplicates fields products).
    { apply find_exact_duplicates_classes. exists key. auto. }
    rewrite ED in Hc. apply list_elem_of_fmap in Hc as (key' & Ec & Hin).
    destruct (key_class fields products key) as [|p class] eqn:E;
      [cbn in Hl; lia|].
    assert (Hp : p ∈ key_class fields products key) by (rewrite E; left).
    pose proof Hp as Hp'. rewrite E, Ec in Hp'.
    apply key_class_member in Hp as [Hk _]. apply key_class_member in Hp' as [Hk' _].
    congruence. }
  rewrite ED. destruct (length (map (key_class fields products) keys) =? 0) eqn:L.
  - eexists. split; [reflexivity|]. apply no_exact_duplicates. intros key.
    rewrite key_class_fmap, length_map. apply Hclass.
    destruct keys; [apply not_elem_of_nil | discriminate].
  - clear L. unfold Processor.merge_duplicates.
    destruct (merge_groups_spec fields (Processor.quality fields)
                (map (key_class fields products) keys)) with (acc := @nil (gmap string string))
      as (new & E & Hnew).
    { apply Forall_fmap. eapply Forall_impl; [exact Hlen|].
      intros key Hl Hnil. cbn in Hl. rewrite Hnil in Hl. cbn in Hl. lia. }
    rewrite E. cbn [mbind outcome_bind app]. eexists. split; [reflexivity|].
    assert (Hkeys : Forall2 (fun k merged => exact_key id merged = Some k) keys new).
    { apply Forall2_fmap_l in Hnew. eapply Forall2_impl; [exact Hnew|].
      intros key merged (base & Hb & Hsame). cbn in Hb.
      apply key_class_member in Hb as [Hk _]. rewrite <- Hk.
      change (exact_key fields base) with (exact_key id (fields base)).
      apply exact_key_ext; apply Hsame, not_copied_names. }
    apply no_exact_duplicates. intros key.
    unfold key_class at 1. rewrite filter_app, length_app.
    fold (key_class id (map fields
            (filter (fun product =>
                       Processor.product_id fields product
                         ∉ (list_to_set
                              (map (Processor.product_id fields)
                                 (concat (map (key_class fields products) keys)))
                            : gset string)) products)) key).
    fold (key_class id new key).
    rewrite key_class_fmap, length_map, key_class_filter, (merged_keys new keys key Hkeys).
    destruct (count_NoDup keys key Hnd) as [Hone Hnone].
    destruct (decide (key ∈ keys)) as [Hin | Hout].
    + assert (Hkept : filter (fun product =>
                        Processor.product_id fields product
                          ∉ (list_to_set
                               (map (Processor.product_id fields)
                                  (concat (map (key_class fields products) keys)))
                             : gset string))
                        (key_class fields products key) = []).
      { destruct (filter _ (key_class fields products key)) as [|p l] eqn:Ef;
          [reflexivity|]. exfalso.
        assert (Hp : p ∈ p :: l) by left. rewrite <- Ef in Hp.
        apply list_elem_of_filter in Hp as [Hid Hp]. apply Hid.
        apply elem_of_list_to_set, (list_elem_of_fmap_2 (Processor.product_id fields)).
        apply elem_of_concat. exists (key_class fields products key).
        split; [|exact Hp]. apply (list_elem_of_fmap_2 (key_class fields products)), Hin. }
      rewrite Hkept. cbn [length]. lia.
    + rewrite (Hnone Hout). cbn [length].
      pose proof (length_filter
                    (fun product =>
                       Processor.product_id fields product
                         ∉ (list_to_set
                              (map (Processor.product_id fields)
                                 (concat (map (key_class fields products) keys)))
                            : gset string))
                    (key_class fields products key)) as Hle.
      specialize (Hclass key Hout). lia.
Qed.

(** X14. In exact mode [remove_duplicates] never fails, and the catalogue
    it returns is free of exact duplicates: no two of its records have the
    same key. *)
Theorem remove_duplicates_leaves_no_exact_duplicates (Obj : Type)
    (fields : Obj -> gmap string string) (cfg : Config.t) (products : list Obj) :
  exists result,
    Processor.remove_duplicates fields cfg products true = Returns result
    /\ find_exact_duplicates id result = [].
Proof. apply remove_exact_result. Qed.

(** ** Removing duplicates: the size of the result *)

Section ShrinkFacts.
Context {Obj : Type}.
Variable fields : Obj -> gmap string string.

Lemma kept_bound (products : list Obj) (duplicates : list (list Obj)) :
  NoDup products ->
  NoDup (concat duplicates) ->
  (forall p, p ∈ concat duplicates -> p ∈ products) ->
  Forall (fun c => 2 <= length c) duplicates ->
  length (filter (fun product =>
                    Processor.product_id fields product
                      ∉ (list_to_set
                           (map (Processor.product_id fields) (concat duplicates))
                         : gset string)) products)
  + 2 * length duplicates <= length products.
Proof.
  intros Hnd Hndc Hsub Hlen.
  set (kept := filter _ products).
  assert (Hle : length (kept ++ concat duplicates) <= length products).
  { apply submseteq_length, NoDup_submseteq.
    - apply NoDup_app. split; [apply NoDup_filter, Hnd|]. split; [|exact Hndc].
      intros p Hp Hc. apply list_elem_of_filter in Hp as [Hid _]. apply Hid.
      apply elem_of_list_to_set, (list_elem_of_fmap_2 (Processor.product_id fields)), Hc.
    - intros p Hp. apply elem_of_app in Hp as [Hp | Hp]; [|apply Hsub, Hp].
      apply list_elem_of_filter in Hp as [_ Hp]. exact Hp. }
  rewrite length_app in Hle. pose proof (concat_length_twice duplicates Hlen). lia.
Qed.

Lemma remove_with (cfg : Config.t) (products : list Obj) (use_exact_matching : bool) :
  NoDup products ->
  NoDup (concat (Processor.find_duplicates fields cfg products use_exact_matching)) ->
  (forall p, p ∈ concat (Processor.find_duplicates fields cfg products use_exact_matching)
             -> p ∈ products) ->
  Forall (fun c => 2 <= length c)
         (Processor.find_duplicates fields cfg products use_exact_matching) ->
  exists result,
    Processor.remove_duplicates fields cfg products use_exact_matching = Returns result
    /\ (Processor.find_duplicates fields cfg products use_exact_matching = [] ->
        result = map fields products)
    /\ length result
       + length (Processor.find_duplicates fields cfg products use_exact_matching)
       <= length products.
Proof.
  intros Hnd Hndc Hsub Hlen. rewrite remove_duplicates_eq.
  pose proof (kept_bound products _ Hnd Hndc Hsub Hlen) as Hkept.
  destruct (length (Processor.find_duplicates fields cfg products use_exact_matching)
            =? 0) eqn:L.
  - apply Nat.eqb_eq in L. eexists. split; [reflexivity|]. split; [reflexivity|].
    rewrite length_map. lia.
  - apply Nat.eqb_neq in L. unfold Processor.merge_duplicates.
    destruct (merge_groups_spec fields (Processor.quality fields)
                (Processor.find_duplicates fields cfg products use_exact_matching))
      with (acc := @nil (gmap string string)) as (new & E & Hnew).
    { eapply Forall_impl; [exact Hlen|]. intros g Hg ->. cbn in Hg. lia. }
    rewrite E. cbn [mbind outcome_bind app]. eexists. split; [reflexivity|].
    apply Forall2_length in Hnew.
    split.
    + intros Hnil. rewrite Hnil in L. cbn in L. congruence.
    + rewrite length_app, length_map, <- Hnew. lia.
Qed.

(** The clusters of either mode on a catalogue of distinct records. *)
Lemma find_duplicates_facts (cfg : Config.t) (products : list Obj)
    (use_exact_matching : bool) :
  NoDup products ->
  NoDup (concat (Processor.find_duplicates fields cfg products use_exact_matching))
  /\ (forall p,
        p ∈ concat (Processor.find_duplicates fields cfg products use_exact_matching) ->
        p ∈ products)
  /\ Forall (fun c => 2 <= length c)
            (Processor.find_duplicates fields cfg products use_exact_matching).
Proof.
  intros Hnd. split; [|split]; destruct use_exact_matching;
    unfold Processor.find_duplicates.
  - rewrite find_exact_duplicates_filter.
    eapply sublist_NoDup; [|apply concat_filter_sublist].
    apply grouped_NoDup, Hnd.
  - apply (fuzzy_duplicates_spec fields cfg products Hnd).
  - intros p Hp. apply elem_of_concat in Hp as (c & Hc & Hp).
    apply find_exact_duplicates_classes in Hc as (key & -> & _).
    apply key_class_member in Hp as [_ Hp]. exact Hp.
  - intros p Hp. apply elem_of_concat in Hp as (c & Hc & Hp).
    destruct (fuzzy_duplicates_spec fields cfg products Hnd) as (_ & _ & Hsub).
    rewrite Forall_forall in Hsub. destruct (Hsub c Hc) as [Hsubc _].
    exact (elem_of_sublist _ _ _ Hp Hsubc).
  - apply Forall_forall. intros c Hc.
    apply find_exact_duplicates_classes in Hc as (key & -> & Hl). lia.
  - destruct (fuzzy_duplicates_spec fields cfg products Hnd) as (Hstar & _ & _).
    eapply Forall_impl; [exact Hstar|]. intros c Hc.
    destruct c as [|x [|y c]]; cbn in Hc; [contradiction | contradiction|].
    cbn [length]. lia.
Qed.

End ShrinkFacts.

(** X15. On a catalogue of distinct records [remove_duplicates] never
    fails, in either mode. Without duplicates it returns the catalogue as
    it is; otherwise it returns at least one record fewer for every
    cluster that was found. *)
Theorem remove_duplicates_shrinks (Obj : Type) (fields : Obj -> gmap string string)
    (cfg : Config.t) (products : list Obj) (use_exact_matching : bool) :
  NoDup products ->
  exists result,
    Processor.remove_duplicates fields cfg products use_exact_matching = Returns result
    /\ (Processor.find_duplicates fields cfg products use_exact_matching = [] ->
        result = map fields products)
    /\ length result
       + length (Processor.find_duplicates fields cfg products use_exact_matching)
       <= length products.
Proof.
  intros Hnd.
  destruct (find_duplicates_facts fields cfg products use_exact_matching Hnd)
    as (Hndc & Hsub & Hlen).
  apply remove_with; assumption.
Qed.

Lemma remove_duplicates_shrinks_witness :
  exists result,
    Processor.remove_duplicates id Config.CONFIG
      [Scenario.smirnoff_750; Scenario.smirnoff_750_caps; Scenario.smirnoff_1l] true
    = Returns result
    /\ (Processor.find_duplicates id Config.CONFIG
          [Scenario.smirnoff_750; Scenario.smirnoff_750_caps; Scenario.smirnoff_1l] true
        = [] ->
        result = map id [Scenario.smirnoff_750; Scenario.smirnoff_750_caps;
                         Scenario.smirnoff_1l])
    /\ length result
       + length (Processor.find_duplicates id Config.CONFIG
                   [Scenario.smirnoff_750; Scenario.smirnoff_750_caps;
                    Scenario.smirnoff_1l] true)
       <= length [Scenario.smirnoff_750; Scenario.smirnoff_750_caps;
                  Scenario.smirnoff_1l].
Proof.
  apply (remove_duplicates_shrinks (gmap string string) id Config.CONFIG
           [Scenario.smirnoff_750; Scenario.smirnoff_750_caps; Scenario.smirnoff_1l]
           true).
  apply (bool_decide_unpack (NoDup _)). vm_compute. exact I.
Defined.

(** ** Brand names: when [choose_best_brand_name] fails *)

Lemma mapM_score_raises (forms : list string) :
  EmptyString ∈ forms ->
  mapM (fun brand => s ← Brands.score_brand brand; Returns (brand, s)) forms
  = Raises "IndexError".
Proof.
  induction forms as [|f forms IH]; intros H; [inversion H|].
  destruct f as [|c f]; [reflexivity|].
  apply elem_of_cons in H as [H | H]; [discriminate|].
  cbn [mapM]. rewrite (score_brand_design (String c f)) by discriminate.
  cbn [mbind outcome_bind]. rewrite (IH H). reflexivity.
Qed.

Lemma first_best_in (forms : list string) (winner : string) :
  Brands.first_best forms winner -> winner ∈ forms.
Proof.
  intros (before & after & -> & _). apply elem_of_app. right. left.
Qed.

(** X16. [choose_best_brand_name] returns the empty string for no
    alternative, fails with [IndexError] as soon as one alternative is the
    empty string, and otherwise returns one of the alternatives, the first
    among those with the highest score. *)
Theorem choose_best_brand_name_cases (alternatives : list string) :
  Brands.choose_best_brand_name [] = Returns EmptyString
  /\ (EmptyString ∈ alternatives ->
      Brands.choose_best_brand_name alternatives = Raises "IndexError")
  /\ (alternatives <> [] -> EmptyString ∉ alternatives ->
      exists winner,
        Brands.choose_best_brand_name alternatives = Returns winner
        /\ winner ∈ alternatives
        /\ Brands.first_best alternatives winner).
Proof.
  split; [reflexivity|]. split.
  - intros H. unfold Brands.choose_best_brand_name.
    destruct alternatives as [|a alternatives]; [inversion H|].
    rewrite (mapM_score_raises _ H). reflexivity.
  - intros Hne Hnone.
    destruct (choose_best_brand_name_spec alternatives Hne) as (winner & E & Hw).
    { apply Forall_forall. intros f Hf ->. contradiction. }
    exists winner. split; [exact E|]. split; [apply first_best_in, Hw | exact Hw].
Qed.

Lemma choose_best_brand_name_cases_witness :
  Brands.choose_best_brand_name ["Baileys"; EmptyString] = Raises "IndexError"
  /\ exists winner,
       Brands.choose_best_brand_name ["Baileys"; "Bailey's"] = Returns winner
       /\ winner ∈ ["Baileys"; "Bailey's"]
       /\ Brands.first_best ["Baileys"; "Bailey's"] winner.
Proof.
  split.
  - apply (proj1 (proj2 (choose_best_brand_name_cases ["Baileys"; EmptyString]))).
    right. left.
  - apply (proj2 (proj2 (choose_best_brand_name_cases ["Baileys"; "Bailey's"]))).
    + discriminate.
    + intros H. apply list_elem_of_In in H. destruct H as [H | [H | []]]; discriminate.
Defined.

(** ** Brand names: consolidating twice *)

Lemma first_best_unique (forms : list string) (w1 w2 : string) :
  Brands.first_best forms w1 -> Brands.first_best forms w2 -> w1 = w2.
Proof.
  intros (b1 & a1 & E1 & Hb1 & Ha1) (b2 & a2 & E2 & Hb2 & Ha2).
  rewrite E1 in E2. apply app_eq_app in E2 as [l [[Eb Ea] | [Eb Ea]]].
  - destruct l as [|x l]; [injection Ea as <- _; reflexivity|].
    injection Ea as <- Ea.
    assert (H1 : (Brands.design_score w2 < Brands.design_score w1)%Z).
    { apply Hb1. rewrite Eb. apply elem_of_app. right. left. }
    assert (H2 : (Brands.design_score w1 <= Brands.design_score w2)%Z).
    { apply Ha2. rewrite Ea. apply elem_of_app. right. left. }
    lia.
  - destruct l as [|x l]; [injection Ea as <- _; reflexivity|].
    injection Ea as <- Ea.
    assert (H1 : (Brands.design_score w1 < Brands.design_score w2)%Z).
    { apply Hb2. rewrite Eb. apply elem_of_app. right. left. }
    assert (H2 : (Brands.design_score w2 <= Brands.design_score w1)%Z).
    { apply Ha1. rewrite Ea. apply elem_of_app. right. left. }
    lia.
Qed.

(** The mapping built from the groups of [names]: every name of a group is
    sent to the one winner of the group, which is left alone. *)
Lemma grouped_mapping (names : list string) :
  exists brand_mapping,
    Brands.build_mapping (grouped Brands.form_key names) ∅ = Returns brand_mapping
    /\ (forall b, (forall g, g ∈ grouped Brands.form_key names -> b ∉ g.2) ->
                  brand_mapping !! b = None)
    /\ (forall g, g ∈ grouped Brands.form_key names ->
          exists w, w ∈ g.2
                    /\ forall b, b ∈ g.2 ->
                         brand_mapping !! b = if decide (b = w) then None else Some w).
Proof.
  pose proof (grouped_ok Brands.form_key names) as Hok.
  destruct (build_mapping_spec (grouped Brands.form_key names) ∅) as (m & Em & H1 & H2).
  { eapply Forall_impl; [exact Hok|]. intros g (Hne & _ & Hkeys). auto. }
  { apply grouped_keys_NoDup. }
  exists m. split; [exact Em|]. split.
  - intros b Hb. rewrite (H1 b Hb). apply lookup_empty.
  - intros g Hg. rewrite Forall_forall in Hok. destruct (Hok g Hg) as (Hne & _ & _).
    destruct (g.2) as [|b0 alts] eqn:Eg; [congruence|].
    destruct (H2 g b0 Hg) as (w0 & Hw0 & _); [rewrite Eg; left|].
    exists w0. rewrite <- Eg. split; [apply first_best_in, Hw0|].
    intros b Hb. destruct (H2 g b Hg Hb) as (w & Hw & E).
    rewrite (first_best_unique _ _ _ Hw0 Hw), E, lookup_empty. reflexivity.
Qed.

Lemma apply_mapping_brand (brand_mapping product : gmap string string) :
  dict_get "brand_name" (Brands.apply_mapping brand_mapping product)
  = default (dict_get "brand_name" product)
            (brand_mapping !! dict_get "brand_name" product).
Proof.
  unfold Brands.apply_mapping.
  destruct (brand_mapping !! dict_get "brand_name" product); [|reflexivity].
  unfold dict_get. rewrite lookup_insert_eq. reflexivity.
Qed.

(** X17. Brand consolidation is idempotent: it never fails, and it leaves
    the catalogue that it returns unchanged when it is run on it again. *)
Theorem brand_consolidation_idempotent (products : list (gmap string string)) :
  exists result,
    Brands.normalize_brand_alternatives products = Returns result
    /\ Brands.normalize_brand_alternatives result = Returns result.
Proof.
  unfold Brands.normalize_brand_alternatives. rewrite brand_groups_grouped.
  set (names := map (dict_get "brand_name") products).
  pose proof (grouped_ok Brands.form_key names) as Hok.
  rewrite Forall_forall in Hok.
  destruct (grouped_mapping names) as (m & Em & Hout & Hin).
  rewrite Em. cbn [mbind outcome_bind]. eexists. split; [reflexivity|].
  set (W := fun b => default b (m !! b)).
  assert (HK : forall b k,
    b ∈ names -> Brands.form_key b = Some k ->
    Brands.form_key (W b) = Some k
    /\ forall b', b' ∈ names -> Brands.form_key b' = Some k -> W b' = W b).
  { intros b k Hb Hk.
    destruct (grouped_complete Brands.form_key names b k Hb Hk) as (alts & Hg & Hba & Huniq).
    destruct (Hin _ Hg) as (w & Hw & Hall). cbn [snd] in Hw, Hall.
    assert (HW : forall x, x ∈ alts -> W x = w).
    { intros x Hx. unfold W. rewrite (Hall x Hx).
      destruct (decide (x = w)); [assumption | reflexivity]. }
    destruct (Hok _ Hg) as (_ & _ & Hkeys). cbn [fst snd] in Hkeys.
    rewrite Forall_forall in Hkeys. split.
    - rewrite (HW b Hba). apply Hkeys, Hw.
    - intros b' Hb' Hk'.
      destruct (grouped_complete Brands.form_key names b' k Hb' Hk')
        as (alts' & Hg' & Hba' & _).
      rewrite (Huniq alts' Hg') in Hba'. rewrite (HW b Hba), (HW b' Hba').
      reflexivity. }
  rewrite brand_groups_grouped, map_map.
  assert (Enames : map (fun p => dict_get "brand_name" (Brands.apply_mapping m p)) products
                   = map W names).
  { subst names. rewrite map_map. apply map_ext. intros p. apply apply_mapping_brand. }
  rewrite Enames. set (names' := map W names).
  pose proof (grouped_ok Brands.form_key names') as Hok'.
  rewrite Forall_forall in Hok'.
  destruct (grouped_mapping names') as (m' & Em' & Hout' & Hin').
  rewrite Em'. cbn [mbind outcome_bind]. f_equal.
  assert (Eempty : m' = ∅).
  { apply map_eq. intros b. rewrite lookup_empty.
    destruct (decide (Exists (fun g => b ∈ g.2) (grouped Brands.form_key names')))
      as [Hex | Hno].
    - apply Exists_exists in Hex as (g & Hg & Hb).
      destruct (Hin' g Hg) as (w & Hw & Hall). rewrite (Hall b Hb).
      destruct (decide (b = w)) as [_ | Hne]; [reflexivity|]. exfalso. apply Hne.
      destruct (Hok' g Hg) as (_ & Hsub & Hkeys). rewrite Forall_forall in Hkeys.
      pose proof (Hkeys b Hb) as Kb. pose proof (Hkeys w Hw) as Kw.
      apply (elem_of_sublist _ _ _ Hb) in Hsub as Hb'.
      apply (elem_of_sublist _ _ _ Hw) in Hsub as Hw'.
      apply list_elem_of_fmap in Hb' as (b0 & -> & Hb0).
      apply list_elem_of_fmap in Hw' as (b1 & -> & Hb1).
      assert (K0 : Brands.form_key b0 = Some g.1).
      { destruct (Brands.form_key b0) as [k|] eqn:E0.
        - destruct (HK b0 k Hb0 E0) as [E _]. congruence.
        - assert (Enone : m !! b0 = None).
          { apply Hout. intros g0 Hg0 Hb0g. destruct (Hok g0 Hg0) as (_ & _ & Hk0).
            rewrite Forall_forall in Hk0. specialize (Hk0 b0 Hb0g). congruence. }
          unfold W in Kb. rewrite Enone in Kb. cbn in Kb. congruence. }
      assert (K1 : Brands.form_key b1 = Some g.1).
      { destruct (Brands.form_key b1) as [k|] eqn:E1.
        - destruct (HK b1 k Hb1 E1) as [E _]. congruence.
        - assert (Enone : m !! b1 = None).
          { apply Hout. intros g0 Hg0 Hb1g. destruct (Hok g0 Hg0) as (_ & _ & Hk1).
            rewrite Forall_forall in Hk1. specialize (Hk1 b1 Hb1g). congruence. }
          unfold W in Kw. rewrite Enone in Kw. cbn in Kw. congruence. }
      destruct (HK b1 g.1 Hb1 K1) as [_ Hsame]. apply Hsame; assumption.
    - apply Hout'. intros g Hg Hb. apply Hno, Exists_exists. exists g. auto. }
  rewrite Eempty, map_map. apply map_ext. intros p.
  unfold Brands.apply_mapping at 1. rewrite lookup_empty. reflexivity.
Qed.

(** ** Removing duplicates: the records outside the clusters *)

Lemma has_bar_lower (s : string) :
  PyStr.has_char "|" (PyStr.lower s) = PyStr.has_char "|" s.
Proof.
  induction s as [|c s IH]; [reflexivity|].
  cbn [PyStr.lower PyStr.has_char]. rewrite IH. f_equal.
  destruct c as [[] [] [] [] [] [] [] []]; vm_compute; reflexivity.
Qed.

Lemma bar_split (a : string) :
  forall a' b b',
    PyStr.has_char "|" a = false -> PyStr.has_char "|" a' = false ->
    String.append a (String "|" b) = String.append a' (String "|" b') ->
    a = a' /\ b = b'.
Proof.
  induction a as [|c a IH]; intros [|c' a'] b b' Ha Ha' E.
  - change (String "|" b = String "|" b') in E. injection E as ->. auto.
  - change (String "|" b = String c' (String.append a' (String "|" b'))) in E.
    injection E as <- _. cbn in Ha'. discriminate.
  - change (String c (String.append a (String "|" b)) = String "|" b') in E.
    injection E as -> _. cbn in Ha. discriminate.
  - change (String c (String.append a (String "|" b))
            = String c' (String.append a' (String "|" b'))) in E.
    injection E as -> E. cbn [PyStr.has_char] in Ha, Ha'.
    apply orb_false_iff in Ha as [_ Ha]. apply orb_false_iff in Ha' as [_ Ha'].
    destruct (IH a' b b' Ha Ha' E) as [-> ->]. auto.
Qed.

(** X18. In exact mode no record outside the clusters is lost, provided
    that no brand contains a bar: such a record is among the records
    returned. The bar matters: the identifier of [split_right], which is in
    no cluster, reads like that of the two copies of [split_left], and the
    record is dropped with them. *)
Theorem remove_duplicates_keeps_the_rest :
  (forall (Obj : Type) (fields : Obj -> gmap string string) (cfg : Config.t)
          (products : list Obj),
     (forall p, p ∈ products -> PyStr.has_char "|" (get fields "brand_name" p) = false) ->
     exists result,
       Processor.remove_duplicates fields cfg products true = Returns result
       /\ forall p,
            p ∈ products ->
            (forall cluster, cluster ∈ find_exact_duplicates fields products ->
                             p ∉ cluster) ->
            fields p ∈ result)
  /\ find_exact_duplicates id
       [Scenario.split_left; Scenario.split_left; Scenario.split_right]
     = [[Scenario.split_left; Scenario.split_left]]
  /\ Processor.remove_duplicates id Config.CONFIG
       [Scenario.split_left; Scenario.split_left; Scenario.split_right] true
     = Returns [Scenario.split_left].
Proof.
  split; [|split; vm_compute; reflexivity].
  intros Obj fields cfg products Hbar.
  rewrite remove_duplicates_eq. unfold Processor.find_duplicates.
  destruct (length (find_exact_duplicates fields products) =? 0).
  - eexists. split; [reflexivity|]. intros p Hp _.
    apply (list_elem_of_fmap_2 fields), Hp.
  - unfold Processor.merge_duplicates.
    destruct (merge_groups_spec fields (Processor.quality fields)
                (find_exact_duplicates fields products))
      with (acc := @nil (gmap string string)) as (new & E & _).
    { apply Forall_forall. intros c Hc ->.
      apply find_exact_duplicates_classes in Hc as (key & _ & Hl). cbn in Hl. lia. }
    rewrite E. cbn [mbind outcome_bind app]. eexists. split; [reflexivity|].
    intros p Hp Hout. apply elem_of_app. left.
    apply (list_elem_of_fmap_2 fields). apply list_elem_of_filter. split; [|exact Hp].
    intros Hid. apply elem_of_list_to_set in Hid.
    apply list_elem_of_fmap in Hid as (m & Eid & Hm).
    apply elem_of_concat in Hm as (c & Hc & Hm).
    apply (Hout c Hc).
    apply find_exact_duplicates_classes in Hc as (key & -> & _).
    apply key_class_member in Hm as [Hk Hm]. apply key_class_member.
    split; [|exact Hp]. rewrite <- Hk.
    unfold Processor.product_id in Eid.
    apply bar_split in Eid as [Eb En];
      [|rewrite has_bar_lower; apply Hbar, Hp | rewrite has_bar_lower; apply Hbar, Hm].
    unfold exact_key. rewrite <- !lower_strip, Eb, En. reflexivity.
Qed.

Lemma remove_duplicates_keeps_the_rest_witness :
  exists result,
    Processor.remove_duplicates id Config.CONFIG
      [Scenario.smirnoff_750; Scenario.smirnoff_750_caps; Scenario.smirnoff_1l] true
    = Returns result
    /\ forall p,
         p ∈ [Scenario.smirnoff_750; Scenario.smirnoff_750_caps; Scenario.smirnoff_1l] ->
         (forall cluster,
            cluster ∈ find_exact_duplicates id
                        [Scenario.smirnoff_750; Scenario.smirnoff_750_caps;
                         Scenario.smirnoff_1l] ->
            p ∉ cluster) ->
         id p ∈ result.
Proof.
  apply (proj1 remove_duplicates_keeps_the_rest (gmap string string) id Config.CONFIG
           [Scenario.smirnoff_750; Scenario.smirnoff_750_caps; Scenario.smirnoff_1l]).
  intros p Hp. apply list_elem_of_In in Hp.
  destruct Hp as [<- | [<- | [<- | []]]]; vm_compute; reflexivity.
Defined.

(** ** Merging: what the quality key prefers *)

Lemma merged_keeps {Obj : Type} (fields : Obj -> gmap string string) (k : string)
    (base : Obj) (others : list Obj) :
  copied k -> get fields k base <> EmptyString ->
  dict_get k (foldl (add_missing fields) (fields base) others) = get fields k base.
Proof.
  intros Hc Hne. unfold dict_get at 1.
  rewrite foldl_add_missing_lookup, bool_decide_eq_true_2 by exact Hc.
  unfold merged_value. change (dict_get k (fields base)) with (get fields k base).
  destruct (get fields k base) eqn:E; [congruence|]. cbn [PyStr.truthy].
  unfold get, dict_get in E. exact E.
Qed.

(** X19. The older script takes the base of a merge from the primary
    source whenever the cluster has a record from it, so that the merged
    record has the source [LCBO]; the newer script takes a base with an
    image and a price whenever the cluster has such a record, and the
    merged record keeps both. *)
Theorem merge_base_preferences (Obj : Type) (fields : Obj -> gmap string string)
    (cluster : list Obj) :
  ((exists m, m ∈ cluster /\ get fields "source" m = "LCBO") ->
   exists merged,
     Integrity.merge_duplicates fields [cluster] = Returns [merged]
     /\ dict_get "source" merged = "LCBO")
  /\ ((exists m, m ∈ cluster /\ get fields "image_url" m <> EmptyString
                 /\ get fields "price" m <> EmptyString) ->
      exists base merged,
        first_least (Processor.quality fields) cluster base
        /\ Processor.merge_duplicates fields [cluster] = Returns [merged]
        /\ get fields "image_url" base <> EmptyString
        /\ get fields "price" base <> EmptyString
        /\ dict_get "image_url" merged = get fields "image_url" base
        /\ dict_get "price" merged = get fields "price" base).
Proof.
  split.
  - intros (m & Hm & Hsrc).
    assert (Hne : cluster <> []) by (intros ->; inversion Hm).
    destruct (merge_single fields (Integrity.quality fields) cluster Hne)
      as (base & merged & Hb & E & Hsame).
    exists merged. split; [exact E|].
    pose proof (first_least_least _ _ _ _ Hb Hm) as Hle.
    unfold Integrity.quality in Hle. rewrite Hsrc in Hle.
    unfold dict_get. rewrite Hsame by (intros [H | [H | H]]; discriminate).
    fold (dict_get "source" (fields base)). fold (get fields "source" base).
    destruct (String.eqb (get fields "source" base) "LCBO") eqn:Es.
    + apply String.eqb_eq, Es.
    + cbn in Hle. discriminate.
  - intros (m & Hm & Himg & Hprice).
    assert (Hne : cluster <> []) by (intros ->; inversion Hm).
    destruct (merge_group_base fields (Processor.quality fields) cluster Hne)
      as (base & others & _ & Hb & E).
    exists base, (foldl (add_missing fields) (fields base) others).
    split; [exact Hb|]. split.
    { unfold Processor.merge_duplicates. cbn [merge_groups].
      destruct cluster; [congruence|]. rewrite E. reflexivity. }
    pose proof (first_least_least _ _ _ _ Hb Hm) as Hle.
    unfold Processor.quality in Hle.
    destruct (get fields "image_url" m) eqn:Em1; [congruence|].
    destruct (get fields "price" m) eqn:Em2; [congruence|].
    assert (Hbase : get fields "image_url" base <> EmptyString
                    /\ get fields "price" base <> EmptyString).
    { destruct (get fields "image_url" base) eqn:Eb1; [cbn in Hle; discriminate|].
      destruct (get fields "price" base) eqn:Eb2; [cbn in Hle; discriminate|].
      split; discriminate. }
    destruct Hbase as [Hb1 Hb2]. split; [exact Hb1|]. split; [exact Hb2|].
    split; apply merged_keeps; unfold copied; auto.
Qed.

Lemma merge_base_preferences_witness :
  (exists merged,
     Integrity.merge_duplicates id [[Scenario.baileys; Scenario.vodka_long]]
     = Returns [merged]
     /\ dict_get "source" merged = "LCBO")
  /\ exists base merged,
       first_least (Processor.quality id) [Scenario.baileys; Scenario.vodka_long] base
       /\ Processor.merge_duplicates id [[Scenario.baileys; Scenario.vodka_long]]
          = Returns [merged]
       /\ get id "image_url" base <> EmptyString
       /\ get id "price" base <> EmptyString
       /\ dict_get "image_url" merged = get id "image_url" base
       /\ dict_get "price" merged = get id "price" base.
Proof.
  split.
  - apply (proj1 (merge_base_preferences (gmap string string) id
                    [Scenario.baileys; Scenario.vodka_long])).
    exists Scenario.vodka_long. split; [right; left | vm_compute; reflexivity].
  - apply (proj2 (merge_base_preferences (gmap string string) id
                    [Scenario.baileys; Scenario.vodka_long])).
    exists Scenario.vodka_long. split; [right; left|].
    split; vm_compute; discriminate.
Defined.

(** ** Subcategory normalisation: blanks *)

Lemma canonical_names_nonempty :
  forallb (fun kv => PyStr.truthy kv.2) Config.SUBCATEGORY_NORMALIZATIONS = true.
Proof. vm_compute. reflexivity. Qed.

(** X20. [normalize_subcategory] does not see the blanks around its
    argument, and it returns the empty string exactly for a string of
    blanks: with the shipped table the empty string is close to no key. *)
Theorem normalize_subcategory_ignores_blanks (subcategory : string) :
  normalize_subcategory (PyStr.strip subcategory) = normalize_subcategory subcategory
  /\ (normalize_subcategory subcategory = EmptyString
      <-> PyStr.strip subcategory = EmptyString).
Proof.
  assert (Eblank : forall s, PyStr.strip s = EmptyString ->
                             normalize_subcategory s = EmptyString).
  { intros s Hs. unfold normalize_subcategory, normalize_subcategory_with.
    destruct (PyStr.truthy s); cbn [negb]; [|reflexivity].
    rewrite Hs.
    change (table_get EmptyString Config.SUBCATEGORY_NORMALIZATIONS) with (@None string).
    assert (E : close_match EmptyString Config.SUBCATEGORY_NORMALIZATIONS = None).
    { apply close_match_None. intros k v Hin.
      apply (empty_is_far _ shipped_keys_agree k v Hin). }
    rewrite E. reflexivity. }
  assert (Hvalue : forall k v, In (k, v) Config.SUBCATEGORY_NORMALIZATIONS ->
                               v <> EmptyString).
  { intros k v Hin. pose proof canonical_names_nonempty as F.
    rewrite forallb_forall in F. specialize (F _ Hin). apply truthy_true, F. }
  split.
  - destruct (PyStr.strip subcategory) eqn:Es.
    + rewrite (Eblank subcategory Es). reflexivity.
    + rewrite <- Es. unfold normalize_subcategory, normalize_subcategory_with.
      rewrite strip_idempotent, Es. cbn [PyStr.truthy negb].
      destruct (PyStr.truthy subcategory) eqn:T; cbn [negb]; [reflexivity|].
      apply truthy_false in T. subst. discriminate Es.
  - split; [|apply Eblank].
    destruct (normalize_subcategory_cases subcategory) as [E | [[k Hk] | (E & _)]].
    + intros _. unfold normalize_subcategory, normalize_subcategory_with in E.
      destruct (PyStr.truthy subcategory) eqn:T; cbn [negb] in E.
      * destruct (table_get (PyStr.strip subcategory) _) as [v|] eqn:E1.
        { apply table_get_In in E1. subst v. exfalso. exact (Hvalue _ _ E1 eq_refl). }
        destruct (close_match (PyStr.strip subcategory) _) as [v|] eqn:E2; [|exact E].
        apply close_match_In in E2 as [k Hk]. subst v.
        exfalso. exact (Hvalue _ _ Hk eq_refl).
      * apply truthy_false in T. subst. reflexivity.
    + intros E. rewrite E in Hk. exfalso. exact (Hvalue _ _ Hk eq_refl).
    + intros E'. rewrite <- E. exact E'.
Qed.

(** ** Removing duplicates twice *)

(** X21. Exact duplicate removal is idempotent: run again on the catalogue
    that it returned, [remove_duplicates] returns that catalogue as it is. *)
Theorem remove_duplicates_idempotent (Obj : Type) (fields : Obj -> gmap string string)
    (cfg : Config.t) (products : list Obj) :
  exists result,
    Processor.remove_duplicates fields cfg products true = Returns result
    /\ Processor.remove_duplicates id cfg result true = Returns result.
Proof.
  destruct (remove_exact_result fields cfg products) as (result & E & Hnone).
  exists result. split; [exact E|].
  rewrite remove_duplicates_eq. unfold Processor.find_duplicates.
  rewrite Hnone. cbn [length Nat.eqb]. f_equal. apply map_id.
Qed.

(** ** The steps of the orchestrator *)

Lemma clusters_bound {A : Type} (products : list A) (duplicates : list (list A)) :
  NoDup (concat duplicates) ->
  (forall p, p ∈ concat duplicates -> p ∈ products) ->
  Forall (fun c => 2 <= length c) duplicates ->
  2 * length duplicates <= length products.
Proof.
  intros Hnd Hsub Hlen. etrans; [apply concat_length_twice, Hlen|].
  apply submseteq_length, NoDup_submseteq; assumption.
Qed.

(** X22. When duplicate detection is switched on and finds clusters in a
    catalogue of distinct records, [run_duplicate_detection] returns the
    merged records only, one for each cluster and so at most half as many
    records as it was given; without clusters it returns the catalogue as
    it is. A record outside the clusters is not kept: of two Smirnoff
    records and a Baileys record only the merged Smirnoff record comes
    back. *)
Theorem detection_returns_merged_only :
  (forall (cfg : Config.t) (flags : Config.flags)
          (products : list (gmap string string)),
     NoDup products ->
     Config.run_duplicate_detection flags = true ->
     exists result,
       Orchestrator.run_duplicate_detection cfg flags products = Returns result
       /\ (Processor.find_duplicates id cfg products
             (Config.use_exact_duplicate_matching flags) = [] ->
           result = products)
       /\ (Processor.find_duplicates id cfg products
             (Config.use_exact_duplicate_matching flags) <> [] ->
           length result
           = length (Processor.find_duplicates id cfg products
                       (Config.use_exact_duplicate_matching flags))
           /\ 2 * length result <= length products
           /\ Forall2 (fun cluster merged =>
                         exists base,
                           base ∈ cluster
                           /\ forall k, ~ copied k -> merged !! k = base !! k)
                      (Processor.find_duplicates id cfg products
                         (Config.use_exact_duplicate_matching flags))
                      result))
  /\ Orchestrator.run_duplicate_detection Config.CONFIG
       {| Config.run_duplicate_detection := true;
          Config.run_exact_duplicate_removal := true;
          Config.run_brand_normalization := false;
          Config.use_exact_duplicate_matching := true |}
       [Scenario.smirnoff_750; Scenario.smirnoff_750_caps; Scenario.baileys]
     = Returns [Scenario.smirnoff_750].
Proof.
  split; [|vm_compute; reflexivity].
  intros cfg flags products Hnd Hon.
  destruct (find_duplicates_facts id cfg products
              (Config.use_exact_duplicate_matching flags) Hnd) as (Hndc & Hsub & Hlen).
  pose proof (clusters_bound products _ Hndc Hsub Hlen) as Hbound.
  unfold Orchestrator.run_duplicate_detection. rewrite Hon. cbn [negb].
  destruct (merge_groups_spec id (Processor.quality id)
              (Processor.find_duplicates id cfg products
                 (Config.use_exact_duplicate_matching flags)))
    with (acc := @nil (gmap string string)) as (new & E & Hnew).
  { eapply Forall_impl; [exact Hlen|]. intros g Hg ->. cbn in Hg. lia. }
  cbn [app] in E. pose proof (Forall2_length _ _ _ Hnew) as Hl.
  destruct (Processor.find_duplicates id cfg products
              (Config.use_exact_duplicate_matching flags)) as [|c cs].
  - exists products. split; [reflexivity|]. split; [reflexivity | congruence].
  - exists new. unfold Processor.merge_duplicates. split; [exact E|].
    split; [discriminate|]. intros _.
    split; [symmetry; exact Hl|]. split; [rewrite <- Hl; exact Hbound | exact Hnew].
Qed.

Lemma detection_returns_merged_only_witness :
  exists result,
    Orchestrator.run_duplicate_detection Config.CONFIG
      {| Config.run_duplicate_detection := true;
         Config.run_exact_duplicate_removal := true;
         Config.run_brand_normalization := false;
         Config.use_exact_duplicate_matching := true |}
      [Scenario.smirnoff_750; Scenario.smirnoff_750_caps; Scenario.baileys]
    = Returns result
    /\ (Processor.find_duplicates id Config.CONFIG
          [Scenario.smirnoff_750; Scenario.smirnoff_750_caps; Scenario.baileys] true = [] ->
        result = [Scenario.smirnoff_750; Scenario.smirnoff_750_caps; Scenario.baileys])
    /\ (Processor.find_duplicates id Config.CONFIG
          [Scenario.smirnoff_750; Scenario.smirnoff_750_caps; Scenario.baileys] true
        <> [] ->
        length result
        = length (Processor.find_duplicates id Config.CONFIG
                    [Scenario.smirnoff_750; Scenario.smirnoff_750_caps; Scenario.baileys]
                    true)
        /\ 2 * length result
           <= length [Scenario.smirnoff_750; Scenario.smirnoff_750_caps; Scenario.baileys]
        /\ Forall2 (fun cluster merged =>
                      exists base,
                        base ∈ cluster
                        /\ forall k, ~ copied k -> merged !! k = base !! k)
                   (Processor.find_duplicates id Config.CONFIG
                      [Scenario.smirnoff_750; Scenario.smirnoff_750_caps; Scenario.baileys]
                      true)
                   result).
Proof.
  apply (proj1 detection_returns_merged_only Config.CONFIG
           {| Config.run_duplicate_detection := true;
              Config.run_exact_duplicate_removal := true;
              Config.run_brand_normalization := false;
              Config.use_exact_duplicate_matching := true |}
           [Scenario.smirnoff_750; Scenario.smirnoff_750_caps; Scenario.baileys]).
  - apply (bool_decide_unpack (NoDup _)). vm_compute. exact I.
  - reflexivity.
Defined.

(** X23. With exact matching, duplicate detection has nothing left to do
    after exact duplicate removal: run on the catalogue that
    [run_exact_duplicate_removal] returned, [run_duplicate_detection]
    returns it as it is, switched on or not. Brand normalisation, which the
    orchestrator runs after both, can bring exact duplicates back: the two
    Baileys records pass the removal and come out of the normalisation with
    one key. *)
Theorem detection_after_exact_removal :
  (forall (cfg : Config.t) (flags : Config.flags)
          (products : list (gmap string string)),
     Config.run_exact_duplicate_removal flags = true ->
     Config.use_exact_duplicate_matching flags = true ->
     exists result,
       Orchestrator.run_exact_duplicate_removal cfg flags products = Returns result
       /\ Orchestrator.run_duplicate_detection cfg flags result = Returns result)
  /\ (forall flags,
        Config.run_exact_duplicate_removal flags = true ->
        Config.run_brand_normalization flags = true ->
        exists result,
          (removed ←
             Orchestrator.run_exact_duplicate_removal Config.CONFIG flags
               [Scenario.baileys; Scenario.baileys_apostrophe];
           Orchestrator.run_brand_normalization flags removed)
          = Returns result
          /\ find_exact_duplicates id result <> []).
Proof.
  split.
  - intros cfg flags products Hremove Hexact.
    destruct (remove_exact_result id cfg products) as (result & E & Hnone).
    exists result. unfold Orchestrator.run_exact_duplicate_removal.
    rewrite Hremove. cbn [negb]. split; [exact E|].
    unfold Orchestrator.run_duplicate_detection.
    destruct (Config.run_duplicate_detection flags); cbn [negb]; [|reflexivity].
    rewrite Hexact. unfold Processor.find_duplicates. rewrite Hnone. reflexivity.
  - intros flags Hremove Hnorm.
    unfold Orchestrator.run_exact_duplicate_removal, Orchestrator.run_brand_normalization.
    rewrite Hremove, Hnorm. cbn [negb].
    eexists. split; [vm_compute; reflexivity|]. vm_compute. discriminate.
Qed.

Lemma detection_after_exact_removal_witness :
  exists result,
    Orchestrator.run_exact_duplicate_removal Config.CONFIG Config.FLAGS
      [Scenario.smirnoff_750; Scenario.smirnoff_750_caps; Scenario.smirnoff_1l]
    = Returns result
    /\ Orchestrator.run_duplicate_detection Config.CONFIG Config.FLAGS result
       = Returns result.
Proof.
  apply (proj1 detection_after_exact_removal Config.CONFIG Config.FLAGS
           [Scenario.smirnoff_750; Scenario.smirnoff_750_caps; Scenario.smirnoff_1l]);
    reflexivity.
Defined.

(** ** The reconciler: where rounding decides *)

(** X24. With the shipped configuration, two backup records whose exact
    averages are both 17/20 get the doubles 0.85 and 0.8500000000000001 as
    averages: the reconciler passes over the first record and selects the
    second, whose descriptors it copies. With exact averages the first
    record would have been kept. *)
Theorem rounding_breaks_a_tie :
  (Restorer.avg_score Config.CONFIG Scenario.tie_current Scenario.tie_first == 17 # 20)%Q
  /\ (Restorer.avg_score Config.CONFIG Scenario.tie_current Scenario.tie_second == 17 # 20)%Q
  /\ FloatRestorer.avg_score Config.CONFIG Scenario.tie_current Scenario.tie_first
     = (7656119366529843 # 9007199254740992)%Q
  /\ FloatRestorer.avg_score Config.CONFIG Scenario.tie_current Scenario.tie_second
     = (1914029841632461 # 2251799813685248)%Q
  /\ FloatRestorer.find_best_match Config.CONFIG Scenario.tie_current
       [Scenario.tie_first; Scenario.tie_second]
     = (Some Scenario.tie_second, (1914029841632461 # 2251799813685248)%Q)
  /\ FloatRestorer.restore_product Config.CONFIG
       [Scenario.tie_first; Scenario.tie_second] Scenario.tie_current !! "descriptors"
     = Some "of the second"
  /\ (Restorer.find_best_match Config.CONFIG Scenario.tie_current
        [Scenario.tie_first; Scenario.tie_second]).1
     = Some Scenario.tie_first.
Proof. repeat split; vm_compute; reflexivity. Qed.

(** X25. With the threshold 0.9, a backup record whose similarities are
    0.85 and 0.95 has the double 0.8999999999999999 as average, which is
    below the double 0.9: the reconciler finds no match and returns the
    current record as it is, although the exact average is 9/10. *)
Theorem rounding_misses_the_threshold :
  (Restorer.avg_score Scenario.strict Scenario.edge_current Scenario.edge_backup
   == 9 # 10)%Q
  /\ FloatRestorer.avg_score Scenario.strict Scenario.edge_current Scenario.edge_backup
     = (2026619832316723 # 2251799813685248)%Q
  /\ FloatRestorer.fuzzy_match_threshold Scenario.strict
     = (8106479329266893 # 9007199254740992)%Q
  /\ FloatRestorer.find_best_match Scenario.strict Scenario.edge_current
       [Scenario.edge_backup]
     = (None, 0%Q)
  /\ FloatRestorer.restore_product Scenario.strict [Scenario.edge_backup]
       Scenario.edge_current
     = Scenario.edge_current
  /\ (Restorer.find_best_match Scenario.strict Scenario.edge_current
        [Scenario.edge_backup]).1
     = Some Scenario.edge_backup.
Proof. repeat split; vm_compute; reflexivity. Qed.
